(** * PSUR compliance kernel: qualification, adjudication, trace, periods

    A shallow embedding of the core of [psur_orchestrator]:
    - [core/types.py]          the data model,
    - [core/qualification.py]  [qualify_template],
    - [core/adjudication.py]   [AdjudicationEngine],
    - [core/trace.py]          [TraceGenerator] and [validate_trace_completeness],
    - [rules/engine.py]        [validate_period_contiguity].

    Conventions of the embedding.
    - A Python [str] is a [string]; its characters are code points below 256.
    - A Python [dict] used as a lookup table is a [gmap]; a [dict] whose
      insertion order is observed (a JSON payload) is an association list.
    - A Python [set] of enum members is a [gset]; the order in which Python
      iterates over it depends on the hash seed, so it is a parameter
      ([SetOrder]).
    - Code that can raise returns a [result]; the exception is the left
      summand.
    - [uuid.uuid4()] and [datetime.utcnow()] are inputs of the functions that
      call them.
    - A [date] is its proleptic Gregorian ordinal, an integer number of days;
      adding a [timedelta] adds its days and raises OverflowError when the
      sum leaves the range of [datetime.date], 1 to 3652059. *)

From Stdlib Require Import Ascii String ZArith.
From stdpp Require Import gmap strings list fin_maps pretty sorting.

Open Scope string_scope.
Open Scope list_scope.

(* ===================================================================== *)
(** ** Python values and exceptions *)
(* ===================================================================== *)

Inductive pyerr :=
| ValueError (msg : string)
| AttributeError
| TypeError
| IndexError
| OverflowError.

Definition result (A : Type) : Type := pyerr + A.

Definition ok {A} (a : A) : result A := inr a.
Definition raise {A} (e : pyerr) : result A := inl e.

#[global] Instance result_bind : MBind result :=
  λ A B (k : A → result B) (m : result A),
    match m with
    | inl e => inl e
    | inr a => k a
    end.

#[global] Instance result_ret : MRet result := λ A (a : A), inr a.

#[global] Instance result_fmap : FMap result :=
  λ A B (f : A → B) (m : result A),
    match m with
    | inl e => inl e
    | inr a => inr (f a)
    end.

(** JSON-shaped values held in [dict[str, Any]] fields.  Floating-point
    numbers are left out. *)
#[warnings="-register-all"]
Inductive pyval :=
| PNone
| PBool (b : bool)
| PInt (z : Z)
| PStr (s : string)
| PList (l : list pyval)
| PDict (d : list (string * pyval)).

Definition pydict := list (string * pyval).

(** [d.get(key, default)] on a dict. *)
Fixpoint dict_get (d : pydict) (key : string) (default : pyval) : pyval :=
  match d with
  | [] => default
  | (k, v) :: d' => if String.eqb k key then v else dict_get d' key default
  end.

(** [v.get(key, default)]: only a dict has the method. *)
Definition py_get (v : pyval) (key : string) (default : pyval) : result pyval :=
  match v with
  | PDict d => ok (dict_get d key default)
  | _ => raise AttributeError
  end.

Definition chars (s : string) : list string :=
  (λ c, String c EmptyString) <$> String.list_ascii_of_string s.

(** [for x in v]: a list yields its items, a dict its keys, a string its
    characters; other values are not iterable. *)
Definition py_iter (v : pyval) : result (list pyval) :=
  match v with
  | PList l => ok l
  | PDict d => ok ((λ kv, PStr kv.1) <$> d)
  | PStr s => ok (PStr <$> chars s)
  | _ => raise TypeError
  end.

(** [len(v)]. *)
Definition py_len (v : pyval) : result nat :=
  match v with
  | PList l => ok (length l)
  | PDict d => ok (length d)
  | PStr s => ok (String.length s)
  | _ => raise TypeError
  end.

Definition isinstance_dict (v : pyval) : bool :=
  match v with PDict _ => true | _ => false end.

(** *** Strings *)

Definition newline : ascii := ascii_of_nat 10.
Definition NL : string := String newline EmptyString.

(** [str.isspace] on one character, for code points below 256. *)
Definition is_space (c : ascii) : bool :=
  let n := nat_of_ascii c in
  (Nat.leb 9 n && Nat.leb n 13) || (Nat.leb 28 n && Nat.leb n 32)
  || Nat.eqb n 133 || Nat.eqb n 160.

Definition str_truthy (s : string) : bool :=
  match s with EmptyString => false | _ => true end.

Fixpoint lstrip (s : string) : string :=
  match s with
  | String c s' => if is_space c then lstrip s' else s
  | EmptyString => EmptyString
  end.

Fixpoint rstrip (s : string) : string :=
  match s with
  | String c s' =>
      let r := rstrip s' in
      if is_space c && negb (str_truthy r) then EmptyString else String c r
  | EmptyString => EmptyString
  end.

(** [s.strip()] *)
Definition strip (s : string) : string := rstrip (lstrip s).

(** [s.split(sep)] for a non-empty [sep]: scan from the left; at a position
    where [sep] starts, close the current piece and jump over [sep]
    ([skip] counts the characters of [sep] still to jump). *)
Fixpoint split_go (sep : string) (s : string) (skip : nat) (cur : string)
  : list string :=
  match s with
  | EmptyString => [cur]
  | String c s' =>
      match skip with
      | S k => split_go sep s' k cur
      | O =>
          if String.prefix sep s
          then cur :: split_go sep s' (String.length sep - 1) EmptyString
          else split_go sep s' 0 (cur +:+ String c EmptyString)
      end
  end.

Definition split (s sep : string) : list string := split_go sep s 0 EmptyString.

Fixpoint join (sep : string) (l : list string) : string :=
  match l with
  | [] => EmptyString
  | [x] => x
  | x :: l' => x +:+ sep +:+ join sep l'
  end.

(** [repr] of a string without quotes, backslashes or control characters (every
    enum value is one), and of a list whose items are already rendered. *)
Definition repr_str (s : string) : string := "'" +:+ s +:+ "'".
Definition repr_list (items : list string) : string :=
  "[" +:+ join ", " items +:+ "]".
Definition repr_set (items : list string) : string :=
  "{" +:+ join ", " items +:+ "}".

(** The order in which Python iterates over a set. *)
Class SetOrder (A : Type) `{Countable A} := {
  set_iter : gset A → list A;
  set_iter_perm : ∀ s, set_iter s ≡ₚ elements s
}.

(** One possible order, used to run the model on examples. *)
Definition elements_order (A : Type) `{Countable A} : SetOrder A :=
  {| set_iter := elements; set_iter_perm := λ s, reflexivity (elements s) |}.

(* ===================================================================== *)
(** ** core/types.py: enumerations *)
(* ===================================================================== *)

(** Every enumeration is a [str]-mixin [Enum]: [value] is the member's
    string, [name] the identifier it is declared under. *)

Module Jurisdiction.
Inductive t := EU | UK | FDA | HEALTH_CANADA | TGA.
#[global] Instance eq_dec : EqDecision t.
Proof. solve_decision. Defined.
End Jurisdiction.

Module Severity.
Inductive t := BLOCK | WARN.
#[global] Instance eq_dec : EqDecision t.
Proof. solve_decision. Defined.
End Severity.

Module SlotType.
Inductive t := NARRATIVE | TABLE | KV.
#[global] Instance eq_dec : EqDecision t.
Proof. solve_decision. Defined.
Definition code (x : t) : nat :=
  match x with NARRATIVE => 0 | TABLE => 1 | KV => 2 end.
Definition of_code (n : nat) : option t :=
  match n with
  | 0 => Some NARRATIVE | 1 => Some TABLE | 2 => Some KV | _ => None
  end.
#[global] Instance countable : Countable t.
Proof. apply (inj_countable code of_code). intros []; reflexivity. Defined.
Definition value (x : t) : string :=
  match x with
  | NARRATIVE => "narrative" | TABLE => "table" | KV => "kv"
  end.
End SlotType.

Module OutputType.
Inductive t := NARRATIVE | TABLE | TABLE_REF | KV.
#[global] Instance eq_dec : EqDecision t.
Proof. solve_decision. Defined.
Definition code (x : t) : nat :=
  match x with NARRATIVE => 0 | TABLE => 1 | TABLE_REF => 2 | KV => 3 end.
Definition of_code (n : nat) : option t :=
  match n with
  | 0 => Some NARRATIVE | 1 => Some TABLE | 2 => Some TABLE_REF
  | 3 => Some KV | _ => None
  end.
#[global] Instance countable : Countable t.
Proof. apply (inj_countable code of_code). intros []; reflexivity. Defined.
Definition value (x : t) : string :=
  match x with
  | NARRATIVE => "narrative" | TABLE => "table"
  | TABLE_REF => "table_ref" | KV => "kv"
  end.
End OutputType.

Module EvidenceType.
Inductive t :=
| SALES_VOLUME | POPULATION_ESTIMATE | COMPLAINT_RECORD
| NON_SERIOUS_INCIDENT | SERIOUS_INCIDENT | FSCA | TREND_REPORT
| LITERATURE_REVIEW | EXTERNAL_DATABASE_SCAN | PMCF_SUMMARY
| CAPA_SUMMARY | BENEFIT_RISK_ANALYSIS | SIMILAR_DEVICE_INFO
| STATISTICAL_ANALYSIS.
#[global] Instance eq_dec : EqDecision t.
Proof. solve_decision. Defined.
Definition code (x : t) : nat :=
  match x with
  | SALES_VOLUME => 0 | POPULATION_ESTIMATE => 1 | COMPLAINT_RECORD => 2
  | NON_SERIOUS_INCIDENT => 3 | SERIOUS_INCIDENT => 4 | FSCA => 5
  | TREND_REPORT => 6 | LITERATURE_REVIEW => 7
  | EXTERNAL_DATABASE_SCAN => 8 | PMCF_SUMMARY => 9 | CAPA_SUMMARY => 10
  | BENEFIT_RISK_ANALYSIS => 11 | SIMILAR_DEVICE_INFO => 12
  | STATISTICAL_ANALYSIS => 13
  end.
Definition of_code (n : nat) : option t :=
  match n with
  | 0 => Some SALES_VOLUME | 1 => Some POPULATION_ESTIMATE
  | 2 => Some COMPLAINT_RECORD | 3 => Some NON_SERIOUS_INCIDENT
  | 4 => Some SERIOUS_INCIDENT | 5 => Some FSCA | 6 => Some TREND_REPORT
  | 7 => Some LITERATURE_REVIEW | 8 => Some EXTERNAL_DATABASE_SCAN
  | 9 => Some PMCF_SUMMARY | 10 => Some CAPA_SUMMARY
  | 11 => Some BENEFIT_RISK_ANALYSIS | 12 => Some SIMILAR_DEVICE_INFO
  | 13 => Some STATISTICAL_ANALYSIS | _ => None
  end.
#[global] Instance countable : Countable t.
Proof. apply (inj_countable code of_code). intros []; reflexivity. Defined.
Definition value (x : t) : string :=
  match x with
  | SALES_VOLUME => "sales_volume"
  | POPULATION_ESTIMATE => "population_estimate"
  | COMPLAINT_RECORD => "complaint_record"
  | NON_SERIOUS_INCIDENT => "non_serious_incident"
  | SERIOUS_INCIDENT => "serious_incident"
  | FSCA => "fsca"
  | TREND_REPORT => "trend_report"
  | LITERATURE_REVIEW => "literature_review"
  | EXTERNAL_DATABASE_SCAN => "external_database_scan"
  | PMCF_SUMMARY => "pmcf_summary"
  | CAPA_SUMMARY => "capa_summary"
  | BENEFIT_RISK_ANALYSIS => "benefit_risk_analysis"
  | SIMILAR_DEVICE_INFO => "similar_device_info"
  | STATISTICAL_ANALYSIS => "statistical_analysis"
  end.
Definition name (x : t) : string :=
  match x with
  | SALES_VOLUME => "SALES_VOLUME"
  | POPULATION_ESTIMATE => "POPULATION_ESTIMATE"
  | COMPLAINT_RECORD => "COMPLAINT_RECORD"
  | NON_SERIOUS_INCIDENT => "NON_SERIOUS_INCIDENT"
  | SERIOUS_INCIDENT => "SERIOUS_INCIDENT"
  | FSCA => "FSCA"
  | TREND_REPORT => "TREND_REPORT"
  | LITERATURE_REVIEW => "LITERATURE_REVIEW"
  | EXTERNAL_DATABASE_SCAN => "EXTERNAL_DATABASE_SCAN"
  | PMCF_SUMMARY => "PMCF_SUMMARY"
  | CAPA_SUMMARY => "CAPA_SUMMARY"
  | BENEFIT_RISK_ANALYSIS => "BENEFIT_RISK_ANALYSIS"
  | SIMILAR_DEVICE_INFO => "SIMILAR_DEVICE_INFO"
  | STATISTICAL_ANALYSIS => "STATISTICAL_ANALYSIS"
  end.
(** [repr] of a member: [<EvidenceType.NAME: 'value'>]. *)
Definition repr (x : t) : string :=
  "<EvidenceType." +:+ name x +:+ ": " +:+ repr_str (value x) +:+ ">".
End EvidenceType.

Module Transformation.
Inductive t :=
| SUMMARIZE | CITE | CROSS_REFERENCE | AGGREGATE | TABULATE | QUOTE
| INFER | INVENT | RE_WEIGHT_RISK | EXTRAPOLATE.
#[global] Instance eq_dec : EqDecision t.
Proof. solve_decision. Defined.
Definition code (x : t) : nat :=
  match x with
  | SUMMARIZE => 0 | CITE => 1 | CROSS_REFERENCE => 2 | AGGREGATE => 3
  | TABULATE => 4 | QUOTE => 5 | INFER => 6 | INVENT => 7
  | RE_WEIGHT_RISK => 8 | EXTRAPOLATE => 9
  end.
Definition of_code (n : nat) : option t :=
  match n with
  | 0 => Some SUMMARIZE | 1 => Some CITE | 2 => Some CROSS_REFERENCE
  | 3 => Some AGGREGATE | 4 => Some TABULATE | 5 => Some QUOTE
  | 6 => Some INFER | 7 => Some INVENT | 8 => Some RE_WEIGHT_RISK
  | 9 => Some EXTRAPOLATE | _ => None
  end.
#[global] Instance countable : Countable t.
Proof. apply (inj_countable code of_code). intros []; reflexivity. Defined.
Definition value (x : t) : string :=
  match x with
  | SUMMARIZE => "summarize" | CITE => "cite"
  | CROSS_REFERENCE => "cross_reference" | AGGREGATE => "aggregate"
  | TABULATE => "tabulate" | QUOTE => "quote" | INFER => "infer"
  | INVENT => "invent" | RE_WEIGHT_RISK => "re_weight_risk"
  | EXTRAPOLATE => "extrapolate"
  end.
End Transformation.

Module AdjudicationStatus.
Inductive t := ACCEPTED | REJECTED.
#[global] Instance eq_dec : EqDecision t.
Proof. solve_decision. Defined.
End AdjudicationStatus.

Module QualificationStatus.
Inductive t := PASS | FAIL.
#[global] Instance eq_dec : EqDecision t.
Proof. solve_decision. Defined.
End QualificationStatus.

(** Dates and timestamps (see the conventions above). *)
Definition date := Z.
Definition datetime := Z.

(** [date.max.toordinal()]: the ordinal of 9999-12-31. *)
Definition _MAXORDINAL : Z := 3652059.

(** [d + timedelta(days=days)]: [date.__add__] raises OverflowError unless
    [0 < o <= _MAXORDINAL] for the ordinal [o] of the sum. *)
Definition date_add (d : date) (days : Z) : result date :=
  let o := (d + days)%Z in
  if decide (0 < o ≤ _MAXORDINAL)%Z then ok o else raise OverflowError.

(* ===================================================================== *)
(** ** core/types.py: entities *)
(* ===================================================================== *)

Module RegulatorySource.
Record t := mk {
  id : string;
  jurisdiction : Jurisdiction.t;
  instrument : string;
  effective_date : option date;
  title : option string
}.
End RegulatorySource.

Module Obligation.
Record t := mk {
  id : string;
  title : string;
  jurisdiction : Jurisdiction.t;
  mandatory : bool;
  required_evidence_types : list EvidenceType.t;
  allowed_transformations : list Transformation.t;
  forbidden_transformations : list Transformation.t;
  required_time_scope : option string;
  allowed_output_types : list OutputType.t;
  sources : list string;
  allow_absence_statement : bool
}.
End Obligation.

Module Constraint.
Record t := mk {
  id : string;
  severity : Severity.t;
  trigger : string;
  condition : string;
  action : string;
  sources : list string;
  jurisdiction : option Jurisdiction.t
}.
End Constraint.

Module CompiledObligations.
Record t := mk {
  version : string;
  compiled_at : datetime;
  sources : list RegulatorySource.t;
  obligations : list Obligation.t
}.

Definition get_by_jurisdiction (self : t) (jurisdiction : Jurisdiction.t)
  : list Obligation.t :=
  filter (λ o, Obligation.jurisdiction o = jurisdiction) (obligations self).

Definition get_mandatory (self : t) : list Obligation.t :=
  filter (λ o, Obligation.mandatory o = true) (obligations self).
End CompiledObligations.

Module CompiledRules.
Record t := mk {
  version : string;
  compiled_at : datetime;
  constraints : list Constraint.t
}.

Definition get_by_trigger (self : t) (trigger : string) : list Constraint.t :=
  filter (λ c, Constraint.trigger c = trigger) (constraints self).
End CompiledRules.

Module Slot.
Record t := mk {
  slot_id : string;
  path : string;
  slot_type : SlotType.t;
  required : bool;
  constraints : pydict
}.
End Slot.

Module TemplateSchema.
Record t := mk {
  template_id : string;
  name : string;
  version : string;
  slots : list Slot.t
}.

Fixpoint find_slot (slots : list Slot.t) (slot_id : string) : option Slot.t :=
  match slots with
  | [] => None
  | slot :: rest =>
      if decide (Slot.slot_id slot = slot_id) then Some slot
      else find_slot rest slot_id
  end.

Definition get_slot (self : t) (slot_id : string) : option Slot.t :=
  find_slot (slots self) slot_id.
End TemplateSchema.

Module SlotMapping.
Record t := mk {
  obligation_id : string;
  slot_ids : list string;
  render_rules : pydict
}.
End SlotMapping.

Module ObligationMapping.
Record t := mk {
  mapping_id : string;
  template_id : string;
  mappings : list SlotMapping.t
}.

Fixpoint find_slots (mappings : list SlotMapping.t) (obligation_id : string)
  : list string :=
  match mappings with
  | [] => []
  | m :: rest =>
      if decide (SlotMapping.obligation_id m = obligation_id)
      then SlotMapping.slot_ids m
      else find_slots rest obligation_id
  end.

Definition get_slots_for_obligation (self : t) (obligation_id : string)
  : list string :=
  find_slots (mappings self) obligation_id.

Definition get_obligations_for_slot (self : t) (slot_id : string)
  : list string :=
  SlotMapping.obligation_id <$>
    filter (λ m, slot_id ∈ SlotMapping.slot_ids m) (mappings self).
End ObligationMapping.

Module EvidenceAtom.
Record t := mk {
  atom_id : string;
  evidence_type : EvidenceType.t;
  content : pydict;
  source_file : option string;
  source_hash : option string;
  period_start : option date;
  period_end : option date;
  created_at : datetime;
  provenance_hash : option string
}.
End EvidenceAtom.

Module SlotProposal.
Record t := mk {
  proposal_id : string;
  agent_id : string;
  slot_id : string;
  payload : pydict;
  evidence_atoms : list string;
  claimed_basis : list string;
  transformations_used : list Transformation.t;
  submitted_at : datetime
}.
End SlotProposal.

Module CheckResult.
Record t := mk {
  check_id : string;
  check_type : string;
  passed : bool;
  message : string;
  obligation_id : option string;
  constraint_id : option string
}.
End CheckResult.

(** [RejectionReason] declares no [constraint_id]; the keyword the engine
    passes for a failed constraint is dropped by the model class. *)
Module RejectionReason.
Record t := mk {
  rule_id : string;
  rule_type : string;
  obligation_id : option string;
  message : string
}.
End RejectionReason.

Module AdjudicationResult.
Record t := mk {
  adjudication_id : string;
  proposal_id : string;
  status : AdjudicationStatus.t;
  check_results : list CheckResult.t;
  rejection_reasons : list RejectionReason.t;
  adjudicated_at : datetime
}.
End AdjudicationResult.

Module TraceNode.
Record t := mk {
  trace_id : string;
  adjudication_id : string;
  slot_id : string;
  fragment_type : string;
  fragment_index : nat;
  fragment_content : string;
  evidence_atoms : list string;
  transformations : list Transformation.t;
  regulatory_basis : list string;
  agent_id : string;
  created_at : datetime
}.
End TraceNode.

Module PSURPeriod.
Record t := mk {
  period_id : string;
  psur_ref : string;
  start_date : date;
  end_date : date;
  jurisdiction : Jurisdiction.t;
  device_class : option string
}.

#[global] Instance eq_dec : EqDecision t.
Proof. unfold date. solve_decision. Defined.

Definition overlaps (self other : t) : bool :=
  bool_decide (start_date self ≤ end_date other)%Z
  && bool_decide (start_date other ≤ end_date self)%Z.

Definition has_gap (self previous : t) : result bool :=
  expected_start ← date_add (end_date previous) 1;
  ok (bool_decide (start_date self ≠ expected_start)).
End PSURPeriod.

Module QualificationIssue.
Record t := mk {
  issue_type : string;
  obligation_id : option string;
  slot_id : option string;
  message : string
}.
End QualificationIssue.

Module QualificationReport.
Record t := mk {
  status : QualificationStatus.t;
  template_id : string;
  missing_mandatory_obligations : list string;
  dangling_mappings : list string;
  incompatible_slot_types : list QualificationIssue.t;
  issues : list QualificationIssue.t
}.
End QualificationReport.

(* ===================================================================== *)
(** ** core/qualification.py *)
(* ===================================================================== *)

Definition SLOT_OUTPUT_COMPATIBILITY : gmap SlotType.t (gset OutputType.t) :=
  <[SlotType.NARRATIVE := {[OutputType.NARRATIVE]}]>
  (<[SlotType.TABLE := {[OutputType.TABLE; OutputType.TABLE_REF]}]>
  (<[SlotType.KV := {[OutputType.KV]}]> ∅)).

(** [{o.id: o for o in obligations}]: a later entry replaces an earlier one
    with the same key. *)
Definition obligation_lookup_of (obligations : list Obligation.t)
  : gmap string Obligation.t :=
  foldl (λ m o, <[Obligation.id o := o]> m) ∅ obligations.

(** [{s.slot_id: s for s in slots}] *)
Definition slot_lookup_of (slots : list Slot.t) : gmap string Slot.t :=
  foldl (λ m s, <[Slot.slot_id s := s]> m) ∅ slots.

(** The four lists [qualify_template] appends to. *)
Record qual_acc := mk_qual_acc {
  acc_issues : list QualificationIssue.t;
  acc_missing_mandatory : list string;
  acc_dangling_mappings : list string;
  acc_incompatible_types : list QualificationIssue.t
}.

Definition missing_mandatory_issue (obligation : Obligation.t)
  : QualificationIssue.t :=
  QualificationIssue.mk "missing_mandatory"
    (Some (Obligation.id obligation)) None
    ("Mandatory obligation '" +:+ Obligation.id obligation
       +:+ "' is not mapped to any slot").

Definition dangling_mapping_issue (slot_mapping : SlotMapping.t)
  (slot_id : string) : QualificationIssue.t :=
  QualificationIssue.mk "dangling_mapping"
    (Some (SlotMapping.obligation_id slot_mapping)) (Some slot_id)
    ("Slot '" +:+ slot_id
       +:+ "' referenced in mapping does not exist in template").

Definition incompatible_type_issue (obligation : Obligation.t)
  (slot : Slot.t) (slot_id : string) : QualificationIssue.t :=
  QualificationIssue.mk "incompatible_type"
    (Some (Obligation.id obligation)) (Some slot_id)
    ("Slot '" +:+ slot_id +:+ "' type '"
       +:+ SlotType.value (Slot.slot_type slot)
       +:+ "' is not compatible with obligation allowed outputs: "
       +:+ repr_list ((λ o, repr_str (OutputType.value o))
                        <$> Obligation.allowed_output_types obligation)).

(** Body of the first loop, over the mandatory obligations. *)
Definition mandatory_step (mapped_obligations : gset string)
  (a : qual_acc) (obligation : Obligation.t) : qual_acc :=
  if decide (Obligation.id obligation ∉ mapped_obligations) then
    {| acc_issues := acc_issues a ++ [missing_mandatory_issue obligation];
       acc_missing_mandatory :=
         acc_missing_mandatory a ++ [Obligation.id obligation];
       acc_dangling_mappings := acc_dangling_mappings a;
       acc_incompatible_types := acc_incompatible_types a |}
  else a.

(** Body of the second loop: the inner loop over [slot_mapping.slot_ids]. *)
Definition dangling_slot_step (slot_lookup : gmap string Slot.t)
  (slot_mapping : SlotMapping.t) (a : qual_acc) (slot_id : string) : qual_acc :=
  match slot_lookup !! slot_id with
  | None =>
      {| acc_issues :=
           acc_issues a ++ [dangling_mapping_issue slot_mapping slot_id];
         acc_missing_mandatory := acc_missing_mandatory a;
         acc_dangling_mappings := acc_dangling_mappings a ++ [slot_id];
         acc_incompatible_types := acc_incompatible_types a |}
  | Some _ => a
  end.

Definition dangling_step (slot_lookup : gmap string Slot.t)
  (a : qual_acc) (slot_mapping : SlotMapping.t) : qual_acc :=
  foldl (dangling_slot_step slot_lookup slot_mapping) a
    (SlotMapping.slot_ids slot_mapping).

(** [any(out in compatible_outputs for out in obligation.allowed_output_types)]
    with [compatible_outputs = SLOT_OUTPUT_COMPATIBILITY.get(slot_type, set())]. *)
Definition has_compatible (slot_type : SlotType.t)
  (allowed_output_types : list OutputType.t) : bool :=
  let compatible_outputs := default ∅ (SLOT_OUTPUT_COMPATIBILITY !! slot_type) in
  existsb (λ out, bool_decide (out ∈ compatible_outputs)) allowed_output_types.

(** Body of the third loop: the inner loop over [slot_mapping.slot_ids]. *)
Definition incompatible_slot_step (slot_lookup : gmap string Slot.t)
  (obligation : Obligation.t) (a : qual_acc) (slot_id : string) : qual_acc :=
  match slot_lookup !! slot_id with
  | None => a
  | Some slot =>
      if has_compatible (Slot.slot_type slot)
           (Obligation.allowed_output_types obligation)
      then a
      else
        let issue := incompatible_type_issue obligation slot slot_id in
        {| acc_issues := acc_issues a ++ [issue];
           acc_missing_mandatory := acc_missing_mandatory a;
           acc_dangling_mappings := acc_dangling_mappings a;
           acc_incompatible_types := acc_incompatible_types a ++ [issue] |}
  end.

Definition incompatible_step (obligation_lookup : gmap string Obligation.t)
  (slot_lookup : gmap string Slot.t)
  (a : qual_acc) (slot_mapping : SlotMapping.t) : qual_acc :=
  match obligation_lookup !! SlotMapping.obligation_id slot_mapping with
  | None => a
  | Some obligation =>
      match Obligation.allowed_output_types obligation with
      | [] => a
      | _ :: _ =>
          foldl (incompatible_slot_step slot_lookup obligation) a
            (SlotMapping.slot_ids slot_mapping)
      end
  end.

Definition qualify_acc (compiled_obligations : CompiledObligations.t)
  (template_schema : TemplateSchema.t) (mapping : ObligationMapping.t)
  : qual_acc :=
  let obligation_lookup :=
    obligation_lookup_of (CompiledObligations.obligations compiled_obligations) in
  let slot_lookup := slot_lookup_of (TemplateSchema.slots template_schema) in
  let mapped_obligations : gset string :=
    list_to_set (SlotMapping.obligation_id
                   <$> ObligationMapping.mappings mapping) in
  let mandatory_obligations :=
    CompiledObligations.get_mandatory compiled_obligations in
  let a0 := mk_qual_acc [] [] [] [] in
  let a1 := foldl (mandatory_step mapped_obligations) a0 mandatory_obligations in
  let a2 := foldl (dangling_step slot_lookup) a1
              (ObligationMapping.mappings mapping) in
  foldl (incompatible_step obligation_lookup slot_lookup) a2
    (ObligationMapping.mappings mapping).

Definition qualify_template (compiled_obligations : CompiledObligations.t)
  (template_schema : TemplateSchema.t) (mapping : ObligationMapping.t)
  : QualificationReport.t :=
  let a := qualify_acc compiled_obligations template_schema mapping in
  let status :=
    match acc_issues a with
    | _ :: _ => QualificationStatus.FAIL
    | [] => QualificationStatus.PASS
    end in
  QualificationReport.mk status
    (TemplateSchema.template_id template_schema)
    (acc_missing_mandatory a)
    (acc_dangling_mappings a)
    (acc_incompatible_types a)
    (acc_issues a).

(* ===================================================================== *)
(** ** core/adjudication.py *)
(* ===================================================================== *)

Module AdjudicationEngine.

Record t := mk {
  obligations : CompiledObligations.t;
  rules : CompiledRules.t;
  template : TemplateSchema.t;
  mapping : ObligationMapping.t;
  _obligation_lookup : gmap string Obligation.t
}.

Definition __init__ (compiled_obligations : CompiledObligations.t)
  (compiled_rules : CompiledRules.t) (template_schema : TemplateSchema.t)
  (mapping : ObligationMapping.t) : t :=
  mk compiled_obligations compiled_rules template_schema mapping
    (obligation_lookup_of (CompiledObligations.obligations compiled_obligations)).

Section checks.
Context {transformation_order : SetOrder Transformation.t}.
Context {evidence_type_order : SetOrder EvidenceType.t}.

Definition _check_evidence_types (proposal : SlotProposal.t)
  (obligation : Obligation.t) (evidence_atoms : gmap string EvidenceAtom.t)
  : CheckResult.t :=
  match Obligation.required_evidence_types obligation with
  | [] =>
      CheckResult.mk "evidence_types" "obligation" true
        "No evidence types required"
        (Some (Obligation.id obligation)) None
  | _ :: _ =>
      let referenced_atoms :=
        omap (λ atom_id, evidence_atoms !! atom_id)
          (SlotProposal.evidence_atoms proposal) in
      let present_types : gset EvidenceType.t :=
        list_to_set (EvidenceAtom.evidence_type <$> referenced_atoms) in
      let missing_types : gset EvidenceType.t :=
        list_to_set (Obligation.required_evidence_types obligation)
          ∖ present_types in
      if bool_decide (missing_types ≠ ∅)
         && Obligation.allow_absence_statement obligation
      then
        CheckResult.mk "evidence_types" "obligation" true
          ("Missing evidence types allowed via absence statement: "
             +:+ repr_set (EvidenceType.repr <$> set_iter missing_types))
          (Some (Obligation.id obligation)) None
      else if bool_decide (missing_types ≠ ∅) then
        CheckResult.mk "evidence_types" "obligation" false
          ("Missing required evidence types: "
             +:+ repr_list ((λ t, repr_str (EvidenceType.value t))
                              <$> set_iter missing_types))
          (Some (Obligation.id obligation)) None
      else
        CheckResult.mk "evidence_types" "obligation" true
          "All required evidence types present"
          (Some (Obligation.id obligation)) None
  end.

Definition _check_time_scope (proposal : SlotProposal.t)
  (obligation : Obligation.t) (evidence_atoms : gmap string EvidenceAtom.t)
  : CheckResult.t :=
  match Obligation.required_time_scope obligation with
  | None | Some EmptyString =>
      CheckResult.mk "time_scope" "obligation" true
        "No time scope required"
        (Some (Obligation.id obligation)) None
  | Some _ =>
      CheckResult.mk "time_scope" "obligation" true
        "Time scope validation passed"
        (Some (Obligation.id obligation)) None
  end.

Definition _check_transformations (proposal : SlotProposal.t)
  (obligation : Obligation.t) : CheckResult.t :=
  let used : gset Transformation.t :=
    list_to_set (SlotProposal.transformations_used proposal) in
  let allowed : gset Transformation.t :=
    list_to_set (Obligation.allowed_transformations obligation) in
  let forbidden : gset Transformation.t :=
    list_to_set (Obligation.forbidden_transformations obligation) in
  let used_forbidden := used ∩ forbidden in
  if bool_decide (used_forbidden ≠ ∅) then
    CheckResult.mk "transformations" "obligation" false
      ("Forbidden transformations used: "
         +:+ repr_list ((λ t, repr_str (Transformation.value t))
                          <$> set_iter used_forbidden))
      (Some (Obligation.id obligation)) None
  else if bool_decide (allowed ≠ ∅) && negb (bool_decide (used ⊆ allowed))
  then
    let not_allowed := used ∖ allowed in
    CheckResult.mk "transformations" "obligation" false
      ("Transformations not in allowed list: "
         +:+ repr_list ((λ t, repr_str (Transformation.value t))
                          <$> set_iter not_allowed))
      (Some (Obligation.id obligation)) None
  else
    CheckResult.mk "transformations" "obligation" true
      "All transformations valid"
      (Some (Obligation.id obligation)) None.

Definition _evaluate_constraint (self : t) (constraint : Constraint.t)
  (proposal : SlotProposal.t) (evidence_atoms : gmap string EvidenceAtom.t)
  : CheckResult.t :=
  CheckResult.mk (Constraint.id constraint) "constraint" true
    "Constraint passed" None (Some (Constraint.id constraint)).

Definition _evaluate_constraints (self : t) (proposal : SlotProposal.t)
  (evidence_atoms : gmap string EvidenceAtom.t) : list CheckResult.t :=
  foldl
    (λ results constraint,
       if decide (Constraint.trigger constraint = "on_proposal_submit")
       then results
              ++ [_evaluate_constraint self constraint proposal evidence_atoms]
       else results)
    [] (CompiledRules.constraints (rules self)).

Definition _build_result (adjudication_id proposal_id : string)
  (status : AdjudicationStatus.t) (check_results : list CheckResult.t)
  (rejection_reasons : list RejectionReason.t) (utcnow : datetime)
  : AdjudicationResult.t :=
  AdjudicationResult.mk adjudication_id proposal_id status
    check_results rejection_reasons utcnow.

(** [rejection_reasons.append(...)] guarded by [if not check.passed]. *)
Definition reject_unless_passed (check : CheckResult.t) (rule_id : string)
  (obligation_id : string) (rejection_reasons : list RejectionReason.t)
  : list RejectionReason.t :=
  if negb (CheckResult.passed check) then
    rejection_reasons
      ++ [RejectionReason.mk rule_id "obligation" (Some obligation_id)
            (CheckResult.message check)]
  else rejection_reasons.

(** Body of the loop over [obligation_ids]. *)
Definition obligation_step (self : t) (proposal : SlotProposal.t)
  (evidence_atoms : gmap string EvidenceAtom.t)
  (st : list CheckResult.t * list RejectionReason.t)
  (obligation_id : string)
  : list CheckResult.t * list RejectionReason.t :=
  match _obligation_lookup self !! obligation_id with
  | None => st
  | Some obligation =>
      let '(check_results, rejection_reasons) := st in
      let evidence_check :=
        _check_evidence_types proposal obligation evidence_atoms in
      let check_results := check_results ++ [evidence_check] in
      let rejection_reasons :=
        reject_unless_passed evidence_check "EVIDENCE_TYPES"
          obligation_id rejection_reasons in
      let time_check :=
        _check_time_scope proposal obligation evidence_atoms in
      let check_results := check_results ++ [time_check] in
      let rejection_reasons :=
        reject_unless_passed time_check "TIME_SCOPE"
          obligation_id rejection_reasons in
      let transform_check := _check_transformations proposal obligation in
      let check_results := check_results ++ [transform_check] in
      let rejection_reasons :=
        reject_unless_passed transform_check "TRANSFORMATIONS"
          obligation_id rejection_reasons in
      (check_results, rejection_reasons)
  end.

(** Body of the loop over [constraint_results]. *)
Definition constraint_step (rejection_reasons : list RejectionReason.t)
  (result : CheckResult.t) : list RejectionReason.t :=
  if negb (CheckResult.passed result) then
    rejection_reasons
      ++ [RejectionReason.mk (CheckResult.check_id result) "constraint"
            None (CheckResult.message result)]
  else rejection_reasons.

(** [uuid4] is the text of [uuid.uuid4()], [utcnow] the clock reading
    taken by [_build_result]. *)
Definition adjudicate (self : t) (proposal : SlotProposal.t)
  (evidence_atoms : gmap string EvidenceAtom.t)
  (uuid4 : string) (utcnow : datetime) : AdjudicationResult.t :=
  let adjudication_id := String.substring 0 8 uuid4 in
  match TemplateSchema.get_slot (template self)
          (SlotProposal.slot_id proposal) with
  | None =>
      let rejection_reasons :=
        [RejectionReason.mk "SLOT_EXISTS" "structural" None
           ("Slot '" +:+ SlotProposal.slot_id proposal
              +:+ "' does not exist in template")] in
      _build_result adjudication_id (SlotProposal.proposal_id proposal)
        AdjudicationStatus.REJECTED [] rejection_reasons utcnow
  | Some slot =>
      let obligation_ids :=
        ObligationMapping.get_obligations_for_slot (mapping self)
          (SlotProposal.slot_id proposal) in
      let '(check_results, rejection_reasons) :=
        foldl (obligation_step self proposal evidence_atoms)
          ([], []) obligation_ids in
      let constraint_results :=
        _evaluate_constraints self proposal evidence_atoms in
      let check_results := check_results ++ constraint_results in
      let rejection_reasons :=
        foldl constraint_step rejection_reasons constraint_results in
      let blocking_rejections :=
        filter (λ r, RejectionReason.rule_type r ≠ "warning")
          rejection_reasons in
      let status :=
        match blocking_rejections with
        | _ :: _ => AdjudicationStatus.REJECTED
        | [] => AdjudicationStatus.ACCEPTED
        end in
      _build_result adjudication_id (SlotProposal.proposal_id proposal)
        status check_results rejection_reasons utcnow
  end.
End checks.
End AdjudicationEngine.

(* ===================================================================== *)
(** ** core/trace.py *)
(* ===================================================================== *)

(** Python's built-in [repr] on payload values. *)
Class PyRepr := py_repr : pyval → string.

(** [str(v)], also what an f-string field renders: a string is itself, any
    other payload value is its [repr]. *)
Definition py_str `{PyRepr} (v : pyval) : string :=
  match v with
  | PStr s => s
  | _ => py_repr v
  end.

(** [str(idx)] for a non-negative index. *)
Definition str_of_nat (n : nat) : string := pretty n.

(** [[p.strip() for p in content.split("\n\n") if p.strip()]], with the
    fallback to the whole stripped text. *)
Definition narrative_paragraphs (content : string) : list string :=
  let paragraphs :=
    strip <$> filter (λ p, str_truthy (strip p) = true)
                (split content (NL +:+ NL)) in
  match paragraphs with
  | [] => if str_truthy (strip content) then [strip content] else paragraphs
  | _ :: _ => paragraphs
  end.

(** [content.split] exists only on a string. *)
Definition narrative_content (proposal : SlotProposal.t) : result string :=
  match dict_get (SlotProposal.payload proposal) "text" (PStr "") with
  | PStr content => ok content
  | _ => raise AttributeError
  end.

Module TraceGenerator.
Section generator.
Context {repr_builtin : PyRepr}.
(** [utcnow i] is the reading of [datetime.utcnow()] at the call made
    for node number [i]. *)
Variable utcnow : nat → datetime.

Definition make_node (proposal : SlotProposal.t)
  (adjudication : AdjudicationResult.t) (fragment_type : string)
  (idx : nat) (fragment_content : string) : TraceNode.t :=
  TraceNode.mk
    (AdjudicationResult.adjudication_id adjudication
       +:+ "-" +:+ str_of_nat idx)
    (AdjudicationResult.adjudication_id adjudication)
    (SlotProposal.slot_id proposal)
    fragment_type
    idx
    fragment_content
    (SlotProposal.evidence_atoms proposal)
    (SlotProposal.transformations_used proposal)
    (SlotProposal.claimed_basis proposal)
    (SlotProposal.agent_id proposal)
    (utcnow idx).

Definition _trace_narrative (proposal : SlotProposal.t)
  (adjudication : AdjudicationResult.t) : result (list TraceNode.t) :=
  content ← narrative_content proposal;
  let paragraphs := narrative_paragraphs content in
  ok (imap (λ idx paragraph,
              make_node proposal adjudication "paragraph" idx paragraph)
        paragraphs).

Definition cell_content (cell : pyval) : string :=
  match cell with
  | PDict d => py_str (dict_get d "value" (PStr ""))
  | _ => py_str cell
  end.

(** Inner loop of [_trace_table]: the state is [(nodes, cell_idx)]. *)
Definition cell_step (proposal : SlotProposal.t)
  (adjudication : AdjudicationResult.t)
  (st : list TraceNode.t * nat) (cell : pyval) : list TraceNode.t * nat :=
  let '(nodes, cell_idx) := st in
  let node :=
    make_node proposal adjudication "cell" cell_idx (cell_content cell) in
  (nodes ++ [node], cell_idx + 1).

(** Outer loop of [_trace_table]. *)
Fixpoint row_loop (proposal : SlotProposal.t)
  (adjudication : AdjudicationResult.t) (rows : list pyval)
  (st : list TraceNode.t * nat) : result (list TraceNode.t * nat) :=
  match rows with
  | [] => ok st
  | row :: rest =>
      cells_v ← py_get row "cells" (PList []);
      cells ← py_iter cells_v;
      row_loop proposal adjudication rest
        (foldl (cell_step proposal adjudication) st cells)
  end.

Definition _trace_table (proposal : SlotProposal.t)
  (adjudication : AdjudicationResult.t) : result (list TraceNode.t) :=
  let rows_v := dict_get (SlotProposal.payload proposal) "rows" (PList []) in
  rows ← py_iter rows_v;
  st ← row_loop proposal adjudication rows ([], 0);
  ok st.1.

(** [list(kv_pairs.items())] for a dict, otherwise
    [[(p.get("key"), p.get("value")) for p in kv_pairs]]. *)
Definition kv_items (kv_pairs : pyval) : result (list (pyval * pyval)) :=
  match kv_pairs with
  | PDict d => ok ((λ kv, (PStr kv.1, kv.2)) <$> d)
  | _ =>
      ps ← py_iter kv_pairs;
      mapM (λ p, key ← py_get p "key" PNone;
                  value ← py_get p "value" PNone;
                  ok (key, value)) ps
  end.

Definition _trace_kv (proposal : SlotProposal.t)
  (adjudication : AdjudicationResult.t) : result (list TraceNode.t) :=
  let kv_pairs := dict_get (SlotProposal.payload proposal) "pairs" (PDict []) in
  items ← kv_items kv_pairs;
  ok (imap (λ idx kv,
              make_node proposal adjudication "kv_pair" idx
                (py_str kv.1 +:+ ": " +:+ py_str kv.2))
        items).

Definition generate_trace (proposal : SlotProposal.t)
  (adjudication : AdjudicationResult.t) (slot_type : SlotType.t)
  : result (list TraceNode.t) :=
  if decide (AdjudicationResult.status adjudication
               ≠ AdjudicationStatus.ACCEPTED)
  then raise (ValueError "Cannot generate trace for rejected proposal")
  else
    match slot_type with
    | SlotType.NARRATIVE => _trace_narrative proposal adjudication
    | SlotType.TABLE => _trace_table proposal adjudication
    | SlotType.KV => _trace_kv proposal adjudication
    end.
End generator.
End TraceGenerator.

(** [sum(len(row.get("cells", [])) for row in rows)] *)
Fixpoint total_cells (rows : list pyval) : result nat :=
  match rows with
  | [] => ok 0
  | row :: rest =>
      cells_v ← py_get row "cells" (PList []);
      n ← py_len cells_v;
      total ← total_cells rest;
      ok (n + total)
  end.

Definition validate_trace_completeness (proposal : SlotProposal.t)
  (traces : list TraceNode.t) (slot_type : SlotType.t) : result bool :=
  match traces with
  | [] => ok false
  | _ :: _ =>
      match slot_type with
      | SlotType.NARRATIVE =>
          content ← narrative_content proposal;
          let paragraphs := narrative_paragraphs content in
          ok ((length paragraphs <=? length traces)%nat)
      | SlotType.TABLE =>
          let rows_v :=
            dict_get (SlotProposal.payload proposal) "rows" (PList []) in
          rows ← py_iter rows_v;
          total_cells ← total_cells rows;
          ok ((total_cells <=? length traces)%nat)
      | SlotType.KV =>
          let kv_pairs :=
            dict_get (SlotProposal.payload proposal) "pairs" (PDict []) in
          n ← py_len kv_pairs;
          ok ((n <=? length traces)%nat)
      end
  end.

(* ===================================================================== *)
(** ** rules/engine.py: period contiguity *)
(* ===================================================================== *)

(** [str(d)] for a date. *)
Class DateStr := date_str : date → string.

(** [sorted(periods, key=lambda p: p.start_date)].  The sort is stable:
    periods with equal keys keep their order.  Insertion from the right end
    puts a period before the periods after it that share its key. *)
Fixpoint insert_by_start_date (p : PSURPeriod.t) (l : list PSURPeriod.t)
  : list PSURPeriod.t :=
  match l with
  | [] => [p]
  | q :: l' =>
      if bool_decide (PSURPeriod.start_date p ≤ PSURPeriod.start_date q)%Z
      then p :: q :: l'
      else q :: insert_by_start_date p l'
  end.

Definition sorted_by_start_date (periods : list PSURPeriod.t)
  : list PSURPeriod.t :=
  foldr insert_by_start_date [] periods.

Definition overlap_message (period other : PSURPeriod.t) : string :=
  "Period " +:+ PSURPeriod.period_id period +:+ " overlaps with "
    +:+ PSURPeriod.period_id other.

Definition gap_message `{DateStr} (previous current : PSURPeriod.t)
  (expected : date) : string :=
  "Gap between " +:+ PSURPeriod.period_id previous
    +:+ " (ends " +:+ date_str (PSURPeriod.end_date previous) +:+ ") "
    +:+ "and " +:+ PSURPeriod.period_id current
    +:+ " (starts " +:+ date_str (PSURPeriod.start_date current) +:+ "). "
    +:+ "Expected start: " +:+ date_str expected.

(** The double loop over [enumerate(sorted_periods)]. *)
Definition overlap_issues (sorted_periods : list PSURPeriod.t) : list string :=
  concat (imap (λ i period,
    concat (imap (λ j other,
      if bool_decide (i ≠ j) && PSURPeriod.overlaps period other
      then [overlap_message period other]
      else [])
      sorted_periods))
    sorted_periods).

(** One pass of the loop over [range(1, len(sorted_periods))]: what it
    appends to [issues], or the OverflowError of one of its two sums. *)
Definition gap_step `{DateStr} (sorted_periods : list PSURPeriod.t) (i : nat)
  : result (list string) :=
  match sorted_periods !! i, sorted_periods !! (i - 1) with
  | Some current, Some previous =>
      gap ← PSURPeriod.has_gap current previous;
      if gap : bool then
        expected ← date_add (PSURPeriod.end_date previous) 1;
        ok [gap_message previous current expected]
      else ok []
  | _, _ => ok []
  end.

(** The loop over [range(1, len(sorted_periods))]; the first exception ends
    it. *)
Definition gap_issues `{DateStr} (sorted_periods : list PSURPeriod.t)
  : result (list string) :=
  @concat string <$> mapM (gap_step sorted_periods)
               (seq 1 (length sorted_periods - 1)).

Definition validate_period_contiguity `{DateStr} (periods : list PSURPeriod.t)
  : result (bool * list string) :=
  match periods with
  | [] => ok (true, [])
  | _ :: _ =>
      let sorted_periods := sorted_by_start_date periods in
      let overlaps := overlap_issues sorted_periods in
      gaps ← gap_issues sorted_periods;
      let issues := overlaps ++ gaps in
      ok (bool_decide (length issues = 0), issues)
  end.

(* ===================================================================== *)
(** ** rules/engine.py: schedule and constraint evaluation *)
(* ===================================================================== *)

(** [timedelta(days=n)] is the number of days [n]. *)
Definition timedelta := Z.

Definition get_schedule_constraint (jurisdiction : Jurisdiction.t)
  (device_class : string) : timedelta :=
  match jurisdiction with
  | Jurisdiction.EU =>
      if decide (device_class ∈ ["III"; "IIb"]) then 365%Z
      else if decide (device_class = "IIa") then 730%Z
      else (365 * 5)%Z
  | Jurisdiction.UK =>
      if decide (device_class ∈ ["III"; "IIb"]) then 365%Z
      else if decide (device_class = "IIa") then 730%Z
      else (365 * 5)%Z
  | _ => 365%Z
  end.

(** [sub in s] on strings. *)
Fixpoint contains (sub s : string) : bool :=
  String.prefix sub s
  || match s with
     | EmptyString => false
     | String _ s' => contains sub s'
     end.

(** The double quote character. *)
Definition quote : string := String (ascii_of_nat 34) EmptyString.

Module ConstraintEvaluator.

Record t := mk { rules : CompiledRules.t }.

(** The two keys [evaluate] reads from the context dict; [None] is an
    absent key, for which [context.get(key, [])] is the empty list. *)
Record context := mk_context {
  changed_fields : option (list string);
  periods : option (list PSURPeriod.t)
}.

(** [for i, p1 in enumerate(periods): for p2 in periods[i+1:]]: some
    [p1.overlaps(p2)]. *)
Fixpoint any_overlap (periods : list PSURPeriod.t) : bool :=
  match periods with
  | [] => false
  | p1 :: rest =>
      existsb (λ p2, PSURPeriod.overlaps p1 p2) rest || any_overlap rest
  end.

(** [for i in range(1, len(sorted_periods))]: the loop returns at the
    first [sorted_periods[i].has_gap(sorted_periods[i-1])], and ends with
    the OverflowError of [has_gap] if that comes first. *)
Fixpoint gap_loop (sorted_periods : list PSURPeriod.t) (indices : list nat)
  : result bool :=
  match indices with
  | [] => ok false
  | i :: rest =>
      match sorted_periods !! i, sorted_periods !! (i - 1) with
      | Some current, Some previous =>
          gap ← PSURPeriod.has_gap current previous;
          if gap : bool then ok true else gap_loop sorted_periods rest
      | _, _ => gap_loop sorted_periods rest
      end
  end.

Definition any_gap (sorted_periods : list PSURPeriod.t) : result bool :=
  gap_loop sorted_periods (seq 1 (length sorted_periods - 1)).

Definition evaluate (self : t) (constraint : Constraint.t) (ctx : context)
  : result (bool * string) :=
  let condition := Constraint.condition constraint in
  changed ←
    (if contains "changed" condition then
       match split condition quote !! 1 with
       | None => raise IndexError
       | Some field =>
           ok (bool_decide (field ∈ default [] (changed_fields ctx)))
       end
     else ok false);
  if changed : bool then ok (false, Constraint.action constraint)
  else if contains "overlap" condition
          && any_overlap (default [] (periods ctx))
  then ok (false, "Period overlap detected")
  else
    gap ←
      (if contains "gap" condition
       then any_gap (sorted_by_start_date (default [] (periods ctx)))
       else ok false);
    if gap : bool then ok (false, "Period gap detected")
    else ok (true, "Constraint passed").

(** The loop of [evaluate_all]; an exception of [evaluate] ends it. *)
Fixpoint evaluate_loop (self : t) (constraints : list Constraint.t)
  (trigger : string) (ctx : context) (jurisdiction : option Jurisdiction.t)
  (results : list (Constraint.t * bool * string))
  : result (list (Constraint.t * bool * string)) :=
  match constraints with
  | [] => inr results
  | constraint :: rest =>
      if decide (Constraint.trigger constraint ≠ trigger)
      then evaluate_loop self rest trigger ctx jurisdiction results
      else
        match jurisdiction, Constraint.jurisdiction constraint with
        | Some j, Some cj =>
            if decide (cj ≠ j)
            then evaluate_loop self rest trigger ctx jurisdiction results
            else
              match evaluate self constraint ctx with
              | inl e => inl e
              | inr (passed, message) =>
                  evaluate_loop self rest trigger ctx jurisdiction
                    (results ++ [(constraint, passed, message)])
              end
        | _, _ =>
            match evaluate self constraint ctx with
            | inl e => inl e
            | inr (passed, message) =>
                evaluate_loop self rest trigger ctx jurisdiction
                  (results ++ [(constraint, passed, message)])
            end
        end
  end.

Definition evaluate_all (self : t) (trigger : string) (ctx : context)
  (jurisdiction : option Jurisdiction.t)
  : result (list (Constraint.t * bool * string)) :=
  evaluate_loop self (CompiledRules.constraints (rules self)) trigger ctx
    jurisdiction [].

Definition get_blocking_failures (self : t) (trigger : string)
  (ctx : context) (jurisdiction : option Jurisdiction.t)
  : result (list (Constraint.t * string)) :=
  match evaluate_all self trigger ctx jurisdiction with
  | inl e => inl e
  | inr results =>
      inr ((λ r, (r.1.1, r.2))
             <$> filter (λ r, r.1.2 = false
                              ∧ Constraint.severity r.1.1 = Severity.BLOCK)
                   results)
  end.
End ConstraintEvaluator.

(* ===================================================================== *)
(** * Vocabulary of the statements *)
(* ===================================================================== *)

(** ** Identifiers *)

(** What an id denotes in a list that may hold it more than once: the last
    item that carries it. *)
Definition last_with {A} (key : A → string) (l : list A) (k : string)
  : option A :=
  last (filter (λ x, key x = k) l).

(** ** Adjudication *)

Section adjudication_vocabulary.
Context {transformation_order : SetOrder Transformation.t}.
Context {evidence_type_order : SetOrder EvidenceType.t}.

Import AdjudicationEngine.

(** What one pass of the obligation loop appends for [obligation_id]. *)
Definition checks_for (self : t) (proposal : SlotProposal.t)
  (evidence_atoms : gmap string EvidenceAtom.t) (obligation_id : string)
  : list CheckResult.t :=
  match _obligation_lookup self !! obligation_id with
  | None => []
  | Some obligation =>
      [_check_evidence_types proposal obligation evidence_atoms;
       _check_time_scope proposal obligation evidence_atoms;
       _check_transformations proposal obligation]
  end.

Definition reasons_for (self : t) (proposal : SlotProposal.t)
  (evidence_atoms : gmap string EvidenceAtom.t) (obligation_id : string)
  : list RejectionReason.t :=
  match _obligation_lookup self !! obligation_id with
  | None => []
  | Some obligation =>
      reject_unless_passed
        (_check_evidence_types proposal obligation evidence_atoms)
        "EVIDENCE_TYPES" obligation_id []
      ++ reject_unless_passed
           (_check_time_scope proposal obligation evidence_atoms)
           "TIME_SCOPE" obligation_id []
      ++ reject_unless_passed
           (_check_transformations proposal obligation)
           "TRANSFORMATIONS" obligation_id []
  end.

(** The verdict: rejected exactly when a rejection reason is blocking. *)
Definition verdict (rejection_reasons : list RejectionReason.t)
  : AdjudicationStatus.t :=
  match filter (λ r, RejectionReason.rule_type r ≠ "warning")
          rejection_reasons with
  | _ :: _ => AdjudicationStatus.REJECTED
  | [] => AdjudicationStatus.ACCEPTED
  end.

(** The evidence types of the referenced atoms that resolve in the store. *)
Definition present_types (proposal : SlotProposal.t)
  (evidence_atoms : gmap string EvidenceAtom.t) : gset EvidenceType.t :=
  list_to_set
    (EvidenceAtom.evidence_type
       <$> omap (λ atom_id, evidence_atoms !! atom_id)
             (SlotProposal.evidence_atoms proposal)).

(** The condition of the transformation rules: a used transformation is
    forbidden, or the allowed list is non-empty and misses a used one. *)
Definition transformation_violation (proposal : SlotProposal.t)
  (obligation : Obligation.t) : Prop :=
  let used : gset Transformation.t :=
    list_to_set (SlotProposal.transformations_used proposal) in
  let allowed : gset Transformation.t :=
    list_to_set (Obligation.allowed_transformations obligation) in
  let forbidden : gset Transformation.t :=
    list_to_set (Obligation.forbidden_transformations obligation) in
  used ∩ forbidden ≠ ∅ ∨ (allowed ≠ ∅ ∧ ¬ used ⊆ allowed).

(** The required evidence types the referenced atoms do not cover. *)
Definition missing_types (proposal : SlotProposal.t)
  (obligation : Obligation.t) (evidence_atoms : gmap string EvidenceAtom.t)
  : gset EvidenceType.t :=
  list_to_set (Obligation.required_evidence_types obligation)
    ∖ present_types proposal evidence_atoms.
End adjudication_vocabulary.

(** ** Trace *)

Section trace_vocabulary.
Context {repr_builtin : PyRepr}.

(** The cells of one row, and of all rows in order. *)
Definition row_cells (row : pyval) : result (list pyval) :=
  cells_v ← py_get row "cells" (PList []);
  py_iter cells_v.

Fixpoint table_cells (rows : list pyval) : result (list pyval) :=
  match rows with
  | [] => ok []
  | row :: rest =>
      cells ← row_cells row;
      more ← table_cells rest;
      ok (cells ++ more)
  end.

(** The fragments of a payload, in order, as their rendered content. *)
Definition payload_fragments (proposal : SlotProposal.t)
  (slot_type : SlotType.t) : result (list string) :=
  match slot_type with
  | SlotType.NARRATIVE =>
      content ← narrative_content proposal;
      ok (narrative_paragraphs content)
  | SlotType.TABLE =>
      rows ← py_iter (dict_get (SlotProposal.payload proposal) "rows"
                        (PList []));
      cells ← table_cells rows;
      ok (TraceGenerator.cell_content <$> cells)
  | SlotType.KV =>
      items ← TraceGenerator.kv_items
                (dict_get (SlotProposal.payload proposal) "pairs" (PDict []));
      ok ((λ kv, py_str kv.1 +:+ ": " +:+ py_str kv.2) <$> items)
  end.

Definition fragment_type_of (slot_type : SlotType.t) : string :=
  match slot_type with
  | SlotType.NARRATIVE => "paragraph"
  | SlotType.TABLE => "cell"
  | SlotType.KV => "kv_pair"
  end.
End trace_vocabulary.

(** The narrative fragmentation as the specification words it: the text is
    cut at blank-line boundaries, runs of newlines whose intervening lines
    are empty after trimming; empty fragments are discarded; a text that
    yields none but is non-empty after trimming is one fragment.
    [group_lines] collects the lines between two blank lines. *)
Fixpoint group_lines (lines : list string) (cur : list string)
  : list (list string) :=
  match lines with
  | [] => [cur]
  | line :: rest =>
      if str_truthy (strip line)
      then group_lines rest (cur ++ [line])
      else cur :: group_lines rest []
  end.

Definition blank_line_paragraphs_spec (text : string) : list string :=
  let fragments :=
    filter (λ p, str_truthy p = true)
      ((λ g, strip (join NL g)) <$> group_lines (split text NL) []) in
  match fragments with
  | [] => if str_truthy (strip text) then [strip text] else []
  | _ :: _ => fragments
  end.

(** ** Qualification *)

(** The compatibility table as the specification gives it. *)
Definition compatible_outputs (slot_type : SlotType.t) : list OutputType.t :=
  match slot_type with
  | SlotType.NARRATIVE => [OutputType.NARRATIVE]
  | SlotType.TABLE => [OutputType.TABLE; OutputType.TABLE_REF]
  | SlotType.KV => [OutputType.KV]
  end.

(** The three kinds of violation. *)
Definition mandatory_unmapped (compiled_obligations : CompiledObligations.t)
  (mapping : ObligationMapping.t) (o : Obligation.t) : Prop :=
  o ∈ CompiledObligations.obligations compiled_obligations
  ∧ Obligation.mandatory o = true
  ∧ Obligation.id o
      ∉ SlotMapping.obligation_id <$> ObligationMapping.mappings mapping.

Definition slot_dangling (template_schema : TemplateSchema.t)
  (mapping : ObligationMapping.t) (m : SlotMapping.t) (slot_id : string)
  : Prop :=
  m ∈ ObligationMapping.mappings mapping
  ∧ slot_id ∈ SlotMapping.slot_ids m
  ∧ slot_id ∉ Slot.slot_id <$> TemplateSchema.slots template_schema.

Definition slot_incompatible (compiled_obligations : CompiledObligations.t)
  (template_schema : TemplateSchema.t) (mapping : ObligationMapping.t)
  (m : SlotMapping.t) (o : Obligation.t) (slot_id : string) (slot : Slot.t)
  : Prop :=
  m ∈ ObligationMapping.mappings mapping
  ∧ last_with Obligation.id
      (CompiledObligations.obligations compiled_obligations)
      (SlotMapping.obligation_id m) = Some o
  ∧ Obligation.allowed_output_types o ≠ []
  ∧ slot_id ∈ SlotMapping.slot_ids m
  ∧ last_with Slot.slot_id (TemplateSchema.slots template_schema) slot_id
      = Some slot
  ∧ ¬ ∃ out, out ∈ Obligation.allowed_output_types o
             ∧ out ∈ compatible_outputs (Slot.slot_type slot).

(** What each loop of [qualify_template] appends to [issues]. *)
Definition mandatory_issues (mapped_obligations : gset string)
  (obligation : Obligation.t) : list QualificationIssue.t :=
  if decide (Obligation.id obligation ∉ mapped_obligations)
  then [missing_mandatory_issue obligation] else [].

Definition dangling_slot_issues (slot_lookup : gmap string Slot.t)
  (slot_mapping : SlotMapping.t) (slot_id : string)
  : list QualificationIssue.t :=
  match slot_lookup !! slot_id with
  | None => [dangling_mapping_issue slot_mapping slot_id]
  | Some _ => []
  end.

Definition incompatible_slot_issues (slot_lookup : gmap string Slot.t)
  (obligation : Obligation.t) (slot_id : string)
  : list QualificationIssue.t :=
  match slot_lookup !! slot_id with
  | None => []
  | Some slot =>
      if has_compatible (Slot.slot_type slot)
           (Obligation.allowed_output_types obligation)
      then []
      else [incompatible_type_issue obligation slot slot_id]
  end.

Definition incompatible_issues (obligation_lookup : gmap string Obligation.t)
  (slot_lookup : gmap string Slot.t) (slot_mapping : SlotMapping.t)
  : list QualificationIssue.t :=
  match obligation_lookup !! SlotMapping.obligation_id slot_mapping with
  | None => []
  | Some obligation =>
      match Obligation.allowed_output_types obligation with
      | [] => []
      | _ :: _ =>
          flat_map (incompatible_slot_issues slot_lookup obligation)
            (SlotMapping.slot_ids slot_mapping)
      end
  end.

(** ** Periods *)

(** The order [sorted] puts the periods in. *)
Definition start_le (a b : PSURPeriod.t) : Prop :=
  (PSURPeriod.start_date a ≤ PSURPeriod.start_date b)%Z.

(** ** Further vocabulary *)

(** The list shape of a key-value payload that says what a dict says. *)
Definition kv_pairs_as_list (d : pydict) : pyval :=
  PList ((λ kv, PDict [("key", PStr kv.1); ("value", kv.2)]) <$> d).

(** The payload key each slot type reads. *)
Definition payload_key (slot_type : SlotType.t) : string :=
  match slot_type with
  | SlotType.NARRATIVE => "text"
  | SlotType.TABLE => "rows"
  | SlotType.KV => "pairs"
  end.

(** A string of whitespace only. *)
Fixpoint all_space (s : string) : bool :=
  match s with
  | EmptyString => true
  | String c s' => is_space c && all_space s'
  end.

(** The constraints [evaluate_all] evaluates for a trigger and an optional
    jurisdiction: those the two [continue] tests let through. *)
Definition selected (trigger : string) (jurisdiction : option Jurisdiction.t)
  (constraint : Constraint.t) : Prop :=
  Constraint.trigger constraint = trigger
  ∧ match jurisdiction, Constraint.jurisdiction constraint with
    | Some j, Some cj => cj = j
    | _, _ => True
    end.

#[global] Instance selected_dec trigger jurisdiction constraint :
  Decision (selected trigger jurisdiction constraint).
Proof.
  unfold selected.
  destruct jurisdiction, (Constraint.jurisdiction constraint); apply _.
Defined.

(** A condition in which the word changed comes with a double quote. *)
Definition quoted (constraint : Constraint.t) : Prop :=
  contains "changed" (Constraint.condition constraint) = true →
  contains quote (Constraint.condition constraint) = true.

(** A condition that mentions none of the three words [evaluate] looks
    for; the empty condition is one. *)
Definition keywordless (constraint : Constraint.t) : Prop :=
  contains "changed" (Constraint.condition constraint) = false
  ∧ contains "overlap" (Constraint.condition constraint) = false
  ∧ contains "gap" (Constraint.condition constraint) = false.

(** A period that starts no later than it ends. *)
Definition well_formed (p : PSURPeriod.t) : Prop :=
  (PSURPeriod.start_date p ≤ PSURPeriod.end_date p)%Z.

(** A period with a day after its end: one that does not end on
    9999-12-31, the last day a [date] holds. *)
Definition next_day_exists (p : PSURPeriod.t) : Prop :=
  (0 < PSURPeriod.end_date p + 1 ≤ _MAXORDINAL)%Z.

(* ===================================================================== *)
(** * Fixtures of the test suite, used to run the statements *)
(* ===================================================================== *)

(** tests/test_adjudication_reject.py *)

Definition test_obligation : Obligation.t :=
  Obligation.mk "TEST.OBLIGATION" "Test Obligation" Jurisdiction.EU true
    [EvidenceType.SALES_VOLUME; EvidenceType.COMPLAINT_RECORD]
    [Transformation.SUMMARIZE]
    [Transformation.INVENT; Transformation.EXTRAPOLATE]
    None [OutputType.NARRATIVE] [] false.

Definition test_compiled_obligations : CompiledObligations.t :=
  CompiledObligations.mk "1.0" 0%Z [] [test_obligation].

Definition test_compiled_rules : CompiledRules.t :=
  CompiledRules.mk "1.0" 0%Z [].

Definition test_template : TemplateSchema.t :=
  TemplateSchema.mk "test_template" "Test Template" "1.0"
    [Slot.mk "test_slot" "Test Section" SlotType.NARRATIVE false []].

Definition test_mapping : ObligationMapping.t :=
  ObligationMapping.mk "test_mapping" "test_template"
    [SlotMapping.mk "TEST.OBLIGATION" ["test_slot"] []].

Definition partial_evidence : gmap string EvidenceAtom.t :=
  <["sales_atom" :=
      EvidenceAtom.mk "sales_atom" EvidenceType.SALES_VOLUME
        [("total", PInt 1000)] None None (Some 738886%Z) (Some 739251%Z)
        0%Z None]> ∅.

Definition extrapolating_proposal : SlotProposal.t :=
  SlotProposal.mk "test_proposal" "test_agent" "test_slot"
    [("text", PStr "Based on extrapolation...")]
    ["sales_atom"] ["TEST.OBLIGATION"] [Transformation.EXTRAPOLATE] 0%Z.

Definition summarizing_proposal : SlotProposal.t :=
  SlotProposal.mk "test_proposal" "test_agent" "test_slot"
    [("text", PStr "Analysis based on sales only.")]
    ["sales_atom"] ["TEST.OBLIGATION"] [Transformation.SUMMARIZE] 0%Z.

Definition misplaced_proposal : SlotProposal.t :=
  SlotProposal.mk "test_proposal" "test_agent" "nonexistent_slot"
    [("text", PStr "Some content")] [] [] [] 0%Z.

Definition test_uuid4 : string := "3f2b8c1e-5d4a-4e0b-9c7a-1a2b3c4d5e6f".

(** Two compiled obligations with one id, as an import of a file that
    declares the id again leaves them. *)
Definition shadowed_obligation : Obligation.t :=
  Obligation.mk "TEST.OBLIGATION" "Test Obligation" Jurisdiction.EU true
    [EvidenceType.SALES_VOLUME; EvidenceType.COMPLAINT_RECORD]
    [Transformation.SUMMARIZE]
    [Transformation.INVENT; Transformation.EXTRAPOLATE]
    None [OutputType.TABLE] [] false.

Definition shadowing_obligation : Obligation.t :=
  Obligation.mk "TEST.OBLIGATION" "Imported Obligation" Jurisdiction.EU true
    [] [] [] None [] [] false.

Definition duplicated_compiled_obligations : CompiledObligations.t :=
  CompiledObligations.mk "1.0" 0%Z []
    [shadowed_obligation; shadowing_obligation].

(** tests/test_trace_atomicity.py *)

(** A [repr] for scalars, to run the examples; payloads of the examples hold
    no other value where [repr] is called. *)
Definition scalar_repr : PyRepr :=
  λ v, match v with
       | PNone => "None"
       | PBool true => "True"
       | PBool false => "False"
       | PInt z => pretty z
       | _ => "..."
       end.

Definition accepted_adjudication : AdjudicationResult.t :=
  AdjudicationResult.mk "test_adj" "test_proposal"
    AdjudicationStatus.ACCEPTED [] [] 0%Z.

Definition rejected_adjudication : AdjudicationResult.t :=
  AdjudicationResult.mk "test_adj" "test_proposal"
    AdjudicationStatus.REJECTED [] [] 0%Z.

Definition test_clock : nat → datetime := λ i, Z.of_nat i.

Definition proposal_with (payload : pydict) : SlotProposal.t :=
  SlotProposal.mk "test_proposal" "test_agent" "test_slot" payload
    ["atom1"; "atom2"] ["EU.PSUR.CONTENT.BENEFIT_RISK"]
    [Transformation.SUMMARIZE] 0%Z.

(** Scenario 4 of the specification. *)
Definition three_paragraphs : SlotProposal.t :=
  proposal_with
    [("text", PStr ("A." +:+ NL +:+ NL +:+ "B." +:+ NL +:+ NL +:+ "C."))].

(** Two paragraphs separated by a line that holds one space. *)
Definition space_line_text : string := "A" +:+ NL +:+ " " +:+ NL +:+ "B".
Definition space_line_proposal : SlotProposal.t :=
  proposal_with [("text", PStr space_line_text)].

Definition table_proposal : SlotProposal.t :=
  proposal_with
    [("rows",
      PList [PDict [("cells", PList [PDict [("value", PStr "A1")];
                                     PDict [("value", PStr "B1")]])];
             PDict [("cells", PList [PDict [("value", PStr "A2")];
                                     PDict [("value", PStr "B2")]])]])].

Definition kv_proposal : SlotProposal.t :=
  proposal_with
    [("pairs", PDict [("key1", PStr "value1"); ("key2", PStr "value2");
                      ("key3", PStr "value3")])].

Definition empty_proposal : SlotProposal.t := proposal_with [].

(** tests/test_time_contiguity.py; the dates are proleptic Gregorian
    ordinals: 2023-01-01 is day 738521. *)

Definition iso_days : DateStr := λ d, pretty d.

Definition period_2023 : PSURPeriod.t :=
  PSURPeriod.mk "p1" "PSUR-001" 738521%Z 738885%Z Jurisdiction.EU None.

Definition period_2023_short : PSURPeriod.t :=
  PSURPeriod.mk "p1" "PSUR-001" 738521%Z 738854%Z Jurisdiction.EU None.

Definition period_2023_long : PSURPeriod.t :=
  PSURPeriod.mk "p1" "PSUR-001" 738521%Z 738900%Z Jurisdiction.EU None.

Definition period_2024 : PSURPeriod.t :=
  PSURPeriod.mk "p2" "PSUR-002" 738886%Z 739251%Z Jurisdiction.EU None.

(** tests/test_adjudication_accept.py *)

Definition accept_obligation : Obligation.t :=
  Obligation.mk "TEST.OBLIGATION" "Test Obligation" Jurisdiction.EU true
    [EvidenceType.SALES_VOLUME]
    [Transformation.SUMMARIZE; Transformation.CITE]
    [Transformation.INVENT]
    None [OutputType.NARRATIVE] [] false.

Definition accept_compiled_obligations : CompiledObligations.t :=
  CompiledObligations.mk "1.0" 0%Z [] [accept_obligation].

Definition valid_evidence : gmap string EvidenceAtom.t :=
  <["sales_atom" :=
      EvidenceAtom.mk "sales_atom" EvidenceType.SALES_VOLUME
        [("total", PInt 1000)] None None (Some 738886%Z) (Some 739251%Z)
        0%Z None]> ∅.

Definition complaint_atom : EvidenceAtom.t :=
  EvidenceAtom.mk "complaint_atom" EvidenceType.COMPLAINT_RECORD
    [("count", PInt 3)] None None (Some 738886%Z) (Some 739251%Z) 0%Z None.

Definition valid_proposal : SlotProposal.t :=
  SlotProposal.mk "test_proposal" "test_agent" "test_slot"
    [("text", PStr "Sales totaled 1000 units for the period.")]
    ["sales_atom"] ["TEST.OBLIGATION"] [Transformation.SUMMARIZE] 0%Z.

Definition citing_proposal : SlotProposal.t :=
  SlotProposal.mk "test_proposal" "test_agent" "test_slot"
    [("text",
      PStr "As reported in the sales data (see ref), total units were 1000.")]
    ["sales_atom"] ["TEST.OBLIGATION"]
    [Transformation.SUMMARIZE; Transformation.CITE] 0%Z.

Definition quoting_proposal : SlotProposal.t :=
  SlotProposal.mk "test_proposal" "test_agent" "test_slot"
    [("text", PStr "Direct quote from evidence.")]
    ["sales_atom"; "complaint_atom"] ["TEST.OBLIGATION"] [] 0%Z.

(** A mapping without entries, and a template with a second slot. *)
Definition empty_mapping : ObligationMapping.t :=
  ObligationMapping.mk "empty_mapping" "test_template" [].

(** Payloads off the expected shape. *)
Definition kv_list_proposal : SlotProposal.t :=
  proposal_with
    [("pairs",
      PList [PDict [("key", PStr "key1"); ("value", PStr "value1")];
             PDict [("key", PStr "key2"); ("value", PStr "value2")];
             PDict [("key", PStr "key3"); ("value", PStr "value3")]])].

Definition numeric_text_proposal : SlotProposal.t :=
  proposal_with [("text", PInt 5)].

(** Constraints for the evaluator. *)
Definition contiguity_constraint : Constraint.t :=
  Constraint.mk "PERIOD.CONTIGUITY" Severity.BLOCK "on_period_change"
    "periods have overlap or gap" "Fix the reporting periods" [] None.

Definition device_constraint : Constraint.t :=
  Constraint.mk "DEVICE.CLASS" Severity.BLOCK "on_device_change"
    ("changed(" +:+ quote +:+ "device_class" +:+ quote +:+ ")")
    "Issue a new PSUR" [] (Some Jurisdiction.EU).

Definition unquoted_constraint : Constraint.t :=
  Constraint.mk "DEVICE.CLASS" Severity.BLOCK "on_device_change"
    "changed(device_class)" "Issue a new PSUR" [] None.

Definition bare_constraint : Constraint.t :=
  Constraint.mk "BARE" Severity.BLOCK "on_submit" "" "Stop" [] None.

Definition evaluator_of (constraints : list Constraint.t)
  : ConstraintEvaluator.t :=
  ConstraintEvaluator.mk (CompiledRules.mk "1.0" 0%Z constraints).

Definition device_change : ConstraintEvaluator.context :=
  ConstraintEvaluator.mk_context (Some ["device_class"])
    (Some [period_2023; period_2024]).

Definition two_years : ConstraintEvaluator.context :=
  ConstraintEvaluator.mk_context None (Some [period_2023; period_2024]).

(* ===================================================================== *)
(** * Properties *)
(* ===================================================================== *)

(** ** Lookup tables built by a dict comprehension *)

Lemma foldl_insert_lookup {A} (key : A → string) (l : list A)
  (m : gmap string A) (k : string) (a : A) :
  foldl (λ m x, <[key x := x]> m) m l !! k = Some a →
  (a ∈ l ∧ key a = k) ∨ m !! k = Some a.
Proof.
  revert m. induction l as [|x l IH]; intros m; simpl.
  - by right.
  - intros Hlk. destruct (IH _ Hlk) as [[Hin Hk]|Hm].
    + left. split; [by right | done].
    + destruct (decide (key x = k)) as [Heq|Hne].
      * rewrite Heq, lookup_insert_eq in Hm. injection Hm as ->.
        left. split; [by left | done].
      * rewrite lookup_insert_ne in Hm by done. by right.
Qed.

Lemma foldl_insert_is_Some {A} (key : A → string) (l : list A)
  (m : gmap string A) (k : string) :
  is_Some (foldl (λ m x, <[key x := x]> m) m l !! k)
  ↔ k ∈ key <$> l ∨ is_Some (m !! k).
Proof.
  revert m. induction l as [|x l IH]; intros m; simpl.
  - rewrite elem_of_nil. tauto.
  - rewrite IH, elem_of_cons. destruct (decide (key x = k)) as [<-|Hne].
    + rewrite lookup_insert_eq. split; [|eauto]. intros _. left. by left.
    + rewrite lookup_insert_ne by done. split; intros [H|H]; auto.
      destruct H as [H|H]; [congruence|auto].
Qed.

Lemma foldl_insert_unique {A} (key : A → string) (l : list A)
  (m : gmap string A) (a : A) :
  NoDup (key <$> l) → a ∈ l →
  foldl (λ m x, <[key x := x]> m) m l !! key a = Some a.
Proof.
  revert m. induction l as [|x l IH]; intros m Hnd Hin; simpl.
  - by apply elem_of_nil in Hin.
  - rewrite fmap_cons in Hnd. apply NoDup_cons in Hnd as [Hx Hnd].
    apply elem_of_cons in Hin as [->|Hin]; [|by apply IH].
    destruct (foldl (λ m x, <[key x := x]> m) (<[key x := x]> m) l !! key x)
      as [b|] eqn:Hb.
    + apply foldl_insert_lookup in Hb as [[Hbl Hk]|Hb].
      * exfalso. apply Hx. rewrite <- Hk. by apply list_elem_of_fmap_2.
      * by rewrite lookup_insert_eq in Hb.
    + assert (is_Some (foldl (λ m x, <[key x := x]> m) (<[key x := x]> m) l
                         !! key x)) as [? Hs]; [|congruence].
      apply foldl_insert_is_Some. right. rewrite lookup_insert_eq. eauto.
Qed.

(** The table holds, for each key, the last item of the list with that
    key. *)
Lemma foldl_insert_last_with {A} (key : A → string) (l : list A)
  (m : gmap string A) (k : string) :
  foldl (λ m x, <[key x := x]> m) m l !! k
  = from_option Some (m !! k) (last_with key l k).
Proof.
  unfold last_with. revert m. induction l as [|x l IH]; intros m; simpl.
  - done.
  - rewrite IH, filter_cons. case_decide as Hk.
    + rewrite last_cons, Hk, lookup_insert_eq.
      by destruct (last (filter _ l)).
    + by rewrite lookup_insert_ne.
Qed.

Lemma obligation_lookup_last (obligations : list Obligation.t) (k : string) :
  obligation_lookup_of obligations !! k
  = last_with Obligation.id obligations k.
Proof.
  unfold obligation_lookup_of. rewrite foldl_insert_last_with, lookup_empty.
  by destruct (last_with _ _ _).
Qed.

Lemma slot_lookup_last (slots : list Slot.t) (k : string) :
  slot_lookup_of slots !! k = last_with Slot.slot_id slots k.
Proof.
  unfold slot_lookup_of. rewrite foldl_insert_last_with, lookup_empty.
  by destruct (last_with _ _ _).
Qed.

(** An obligation the lookup returns is one of the compiled obligations and
    is stored under its own id. *)
Lemma obligation_lookup_Some (obligations : list Obligation.t)
  (k : string) (o : Obligation.t) :
  obligation_lookup_of obligations !! k = Some o →
  o ∈ obligations ∧ Obligation.id o = k.
Proof.
  intros H. apply foldl_insert_lookup in H as [H|H]; [done|].
  by rewrite lookup_empty in H.
Qed.

(** With unique ids, every compiled obligation is the one the lookup returns
    for its id. *)
Lemma obligation_lookup_unique (obligations : list Obligation.t)
  (o : Obligation.t) :
  NoDup (Obligation.id <$> obligations) → o ∈ obligations →
  obligation_lookup_of obligations !! Obligation.id o = Some o.
Proof. apply foldl_insert_unique. Qed.

Lemma slot_lookup_is_Some (slots : list Slot.t) (k : string) :
  is_Some (slot_lookup_of slots !! k) ↔ k ∈ Slot.slot_id <$> slots.
Proof.
  unfold slot_lookup_of. rewrite foldl_insert_is_Some, lookup_empty.
  split; [intros [H|[? H]]; [done|discriminate] | auto].
Qed.

Lemma find_slot_is_Some (slots : list Slot.t) (k : string) :
  is_Some (TemplateSchema.find_slot slots k) ↔ k ∈ Slot.slot_id <$> slots.
Proof.
  induction slots as [|s slots IH]; simpl.
  - rewrite elem_of_nil. split; [intros [? H]; discriminate | tauto].
  - rewrite elem_of_cons. destruct (decide (Slot.slot_id s = k)) as [->|Hne].
    + split; eauto.
    + rewrite IH. split; [auto | intros [H|H]; [congruence | done]].
Qed.

Example split_ex1 : split ("A." +:+ NL +:+ NL +:+ "B." +:+ NL +:+ NL +:+ "C.") (NL +:+ NL) = ["A."; "B."; "C."].
Proof. vm_compute. reflexivity. Qed.
Example split_ex2 : split (NL +:+ NL +:+ NL) (NL +:+ NL) = [""; NL].
Proof. vm_compute. reflexivity. Qed.
Example split_ex3 : split "" (NL +:+ NL) = [""].
Proof. vm_compute. reflexivity. Qed.
Example strip_ex : strip ("  a b " +:+ NL) = "a b".
Proof. vm_compute. reflexivity. Qed.
Example strip_ex2 : strip ("   " +:+ NL) = "".
Proof. vm_compute. reflexivity. Qed.

(** ** Adjudication *)

Section adjudication_facts.
Context {transformation_order : SetOrder Transformation.t}.
Context {evidence_type_order : SetOrder EvidenceType.t}.

Import AdjudicationEngine.

Lemma reject_unless_passed_app check rule_id obligation_id reasons :
  reject_unless_passed check rule_id obligation_id reasons
  = reasons ++ reject_unless_passed check rule_id obligation_id [].
Proof.
  unfold reject_unless_passed. destruct (negb _); simpl; [done|].
  by rewrite app_nil_r.
Qed.

Lemma obligation_step_app self proposal evidence_atoms st obligation_id :
  obligation_step self proposal evidence_atoms st obligation_id
  = (st.1 ++ checks_for self proposal evidence_atoms obligation_id,
     st.2 ++ reasons_for self proposal evidence_atoms obligation_id).
Proof.
  unfold obligation_step, checks_for, reasons_for. destruct st as [cs rs].
  destruct (_obligation_lookup self !! obligation_id) as [o|]; simpl.
  - f_equal.
    + by rewrite <- !app_assoc.
    + rewrite (reject_unless_passed_app (_check_transformations _ _)).
      rewrite (reject_unless_passed_app (_check_time_scope _ _ _)).
      rewrite (reject_unless_passed_app (_check_evidence_types _ _ _)).
      by rewrite <- !app_assoc.
  - by rewrite !app_nil_r.
Qed.

Lemma obligation_loop_app self proposal evidence_atoms st obligation_ids :
  foldl (obligation_step self proposal evidence_atoms) st obligation_ids
  = (st.1 ++ flat_map (checks_for self proposal evidence_atoms) obligation_ids,
     st.2 ++ flat_map (reasons_for self proposal evidence_atoms) obligation_ids).
Proof.
  revert st. induction obligation_ids as [|oid ids IH]; intros st; simpl.
  - rewrite !app_nil_r. by destruct st.
  - rewrite IH, obligation_step_app. simpl. by rewrite <- !app_assoc.
Qed.

(** The constraint loop keeps the constraints triggered on submission, in
    declaration order. *)
Lemma _evaluate_constraints_filter self proposal evidence_atoms :
  _evaluate_constraints self proposal evidence_atoms
  = (λ c, _evaluate_constraint self c proposal evidence_atoms)
      <$> filter (λ c, Constraint.trigger c = "on_proposal_submit")
            (CompiledRules.constraints (rules self)).
Proof.
  unfold _evaluate_constraints.
  generalize (CompiledRules.constraints (rules self)). intros cs.
  enough (∀ acc,
    foldl (λ results constraint,
             if decide (Constraint.trigger constraint = "on_proposal_submit")
             then results
                    ++ [_evaluate_constraint self constraint proposal evidence_atoms]
             else results) acc cs
    = acc ++ ((λ c, _evaluate_constraint self c proposal evidence_atoms)
                <$> filter (λ c, Constraint.trigger c = "on_proposal_submit") cs))
    as H by apply (H []).
  induction cs as [|c cs IH]; intros acc; simpl.
  - by rewrite app_nil_r.
  - rewrite IH, filter_cons. case_decide; simpl; [|done].
    by rewrite <- app_assoc.
Qed.

Lemma _evaluate_constraints_passed self proposal evidence_atoms :
  Forall (λ r, CheckResult.passed r = true)
    (_evaluate_constraints self proposal evidence_atoms).
Proof.
  rewrite _evaluate_constraints_filter. apply Forall_fmap, Forall_forall.
  by intros.
Qed.

Lemma constraint_loop_passed reasons results :
  Forall (λ r, CheckResult.passed r = true) results →
  foldl constraint_step reasons results = reasons.
Proof.
  intros H. revert reasons. induction H as [|r rs Hr _ IH]; intros reasons.
  - done.
  - simpl. unfold constraint_step at 2. rewrite Hr. simpl. apply IH.
Qed.

(** [adjudicate] on a proposal whose slot exists, with the loops unrolled. *)
Lemma adjudicate_slot_exists self proposal evidence_atoms uuid4 utcnow slot :
  TemplateSchema.get_slot (template self) (SlotProposal.slot_id proposal)
    = Some slot →
  let obligation_ids :=
    ObligationMapping.get_obligations_for_slot (mapping self)
      (SlotProposal.slot_id proposal) in
  let reasons :=
    flat_map (reasons_for self proposal evidence_atoms) obligation_ids in
  adjudicate self proposal evidence_atoms uuid4 utcnow
  = AdjudicationResult.mk (String.substring 0 8 uuid4)
      (SlotProposal.proposal_id proposal)
      (verdict reasons)
      (flat_map (checks_for self proposal evidence_atoms) obligation_ids
         ++ _evaluate_constraints self proposal evidence_atoms)
      reasons
      utcnow.
Proof.
  intros Hslot ids reasons. unfold adjudicate. rewrite Hslot.
  rewrite obligation_loop_app. simpl.
  rewrite constraint_loop_passed by apply _evaluate_constraints_passed.
  done.
Qed.

Lemma reasons_for_rule_type self proposal evidence_atoms obligation_id r :
  r ∈ reasons_for self proposal evidence_atoms obligation_id →
  RejectionReason.rule_type r = "obligation"
  ∧ RejectionReason.obligation_id r = Some obligation_id.
Proof.
  unfold reasons_for, reject_unless_passed.
  destruct (_obligation_lookup self !! obligation_id) as [o|];
    [|by intros ?%elem_of_nil].
  rewrite !elem_of_app.
  intros [H|[H|H]]; destruct (negb _); simpl in H;
    try (by apply elem_of_nil in H);
    apply list_elem_of_singleton in H; by subst r.
Qed.

Lemma verdict_rejected reasons r :
  r ∈ reasons → RejectionReason.rule_type r ≠ "warning" →
  verdict reasons = AdjudicationStatus.REJECTED.
Proof.
  intros Hin Hne. unfold verdict.
  assert (r ∈ filter (λ r, RejectionReason.rule_type r ≠ "warning") reasons)
    as Hf by by apply list_elem_of_filter.
  destruct (filter _ reasons); [by apply elem_of_nil in Hf | done].
Qed.

Lemma check_in_results self proposal evidence_atoms uuid4 utcnow
  obligation_id obligation c :
  SlotProposal.slot_id proposal
    ∈ Slot.slot_id <$> TemplateSchema.slots (template self) →
  obligation_id
    ∈ ObligationMapping.get_obligations_for_slot (mapping self)
        (SlotProposal.slot_id proposal) →
  _obligation_lookup self !! obligation_id = Some obligation →
  c ∈ [_check_evidence_types proposal obligation evidence_atoms;
       _check_time_scope proposal obligation evidence_atoms;
       _check_transformations proposal obligation] →
  c ∈ AdjudicationResult.check_results
        (adjudicate self proposal evidence_atoms uuid4 utcnow).
Proof.
  intros Hslot Hin Hlk Hc. apply find_slot_is_Some in Hslot as [slot Hslot].
  rewrite (adjudicate_slot_exists _ _ _ _ _ _ Hslot). simpl.
  apply elem_of_app. left. apply list_elem_of_In, in_flat_map.
  exists obligation_id. split; [by apply list_elem_of_In|].
  apply list_elem_of_In. unfold checks_for. by rewrite Hlk.
Qed.

Lemma failed_check_rejects self proposal evidence_atoms uuid4 utcnow
  obligation_id obligation r :
  SlotProposal.slot_id proposal
    ∈ Slot.slot_id <$> TemplateSchema.slots (template self) →
  obligation_id
    ∈ ObligationMapping.get_obligations_for_slot (mapping self)
        (SlotProposal.slot_id proposal) →
  _obligation_lookup self !! obligation_id = Some obligation →
  r ∈ reasons_for self proposal evidence_atoms obligation_id →
  let res := adjudicate self proposal evidence_atoms uuid4 utcnow in
  AdjudicationResult.status res = AdjudicationStatus.REJECTED
  ∧ r ∈ AdjudicationResult.rejection_reasons res.
Proof.
  intros Hslot Hin Hlk Hr. apply find_slot_is_Some in Hslot as [slot Hslot].
  simpl. rewrite (adjudicate_slot_exists _ _ _ _ _ _ Hslot). simpl.
  assert (r ∈ flat_map (reasons_for self proposal evidence_atoms)
                (ObligationMapping.get_obligations_for_slot (mapping self)
                   (SlotProposal.slot_id proposal))) as Hr'.
  { apply list_elem_of_In, in_flat_map. exists obligation_id.
    split; by apply list_elem_of_In. }
  split; [|done]. apply (verdict_rejected _ r Hr').
  apply reasons_for_rule_type in Hr as [-> _]. discriminate.
Qed.

Lemma elem_of_present_types proposal evidence_atoms ty :
  ty ∈ present_types proposal evidence_atoms
  ↔ ∃ atom_id atom,
      atom_id ∈ SlotProposal.evidence_atoms proposal
      ∧ evidence_atoms !! atom_id = Some atom
      ∧ EvidenceAtom.evidence_type atom = ty.
Proof.
  unfold present_types. rewrite elem_of_list_to_set, list_elem_of_fmap.
  split.
  - intros (atom & -> & H). apply list_elem_of_omap in H as (aid & ? & ?).
    by exists aid, atom.
  - intros (aid & atom & ? & ? & <-). exists atom. split; [done|].
    apply list_elem_of_omap. by exists aid.
Qed.

Lemma _check_transformations_passed proposal obligation :
  CheckResult.passed (_check_transformations proposal obligation) = true
  ↔ ¬ transformation_violation proposal obligation.
Proof.
  unfold _check_transformations, transformation_violation.
  case_bool_decide as Hf; simpl; [split; [done | intros []; by left]|].
  case_bool_decide as Ha; simpl.
  - case_bool_decide as Hs; simpl.
    + split; [|done]. intros _ [?|[_ ?]]; done.
    + split; [done|]. intros []. by right.
  - split; [|done]. intros _ [?|[? _]]; done.
Qed.

(** C1.  For a proposal whose slot exists and an obligation that is the
    last compiled obligation with an id mapped to that slot: when a used
    transformation is forbidden,
    or the allowed list is non-empty and does not contain every used
    transformation, the adjudication is REJECTED and carries a rejection
    reason TRANSFORMATIONS / obligation for that obligation; otherwise the
    transformation check of the obligation passes, is recorded, and leaves
    no such rejection reason. *)
Theorem transformation_rules co cr ts mp proposal evidence_atoms uuid4 utcnow
  obligation_id obligation :
  SlotProposal.slot_id proposal ∈ Slot.slot_id <$> TemplateSchema.slots ts →
  obligation_id
    ∈ ObligationMapping.get_obligations_for_slot mp
        (SlotProposal.slot_id proposal) →
  last_with Obligation.id (CompiledObligations.obligations co) obligation_id
    = Some obligation →
  (transformation_violation proposal obligation →
   AdjudicationResult.status
     (adjudicate (__init__ co cr ts mp) proposal evidence_atoms uuid4 utcnow)
     = AdjudicationStatus.REJECTED
   ∧ ∃ r,
       r ∈ AdjudicationResult.rejection_reasons
             (adjudicate (__init__ co cr ts mp) proposal evidence_atoms
                uuid4 utcnow)
       ∧ RejectionReason.rule_id r = "TRANSFORMATIONS"
       ∧ RejectionReason.rule_type r = "obligation"
       ∧ RejectionReason.obligation_id r = Some obligation_id)
  ∧ (¬ transformation_violation proposal obligation →
     CheckResult.passed (_check_transformations proposal obligation) = true
     ∧ _check_transformations proposal obligation
         ∈ AdjudicationResult.check_results
             (adjudicate (__init__ co cr ts mp) proposal evidence_atoms
                uuid4 utcnow)
     ∧ ∀ r,
         r ∈ AdjudicationResult.rejection_reasons
               (adjudicate (__init__ co cr ts mp) proposal evidence_atoms
                  uuid4 utcnow) →
         RejectionReason.rule_id r = "TRANSFORMATIONS" →
         RejectionReason.obligation_id r ≠ Some obligation_id).
Proof.
  intros Hslot Hin Hlk. rewrite <- obligation_lookup_last in Hlk.
  change (_obligation_lookup (__init__ co cr ts mp) !! obligation_id
          = Some obligation) in Hlk.
  split.
  - intros Hbad.
    assert (CheckResult.passed (_check_transformations proposal obligation)
              = false) as Hfail.
    { apply not_true_is_false. rewrite _check_transformations_passed. tauto. }
    pose (r := RejectionReason.mk "TRANSFORMATIONS" "obligation"
                 (Some obligation_id)
                 (CheckResult.message
                    (_check_transformations proposal obligation))).
    destruct (failed_check_rejects (__init__ co cr ts mp) proposal
                evidence_atoms uuid4 utcnow obligation_id obligation r)
      as [Hst Hr]; try done.
    + unfold reasons_for. rewrite Hlk. rewrite !elem_of_app. right. right.
      unfold reject_unless_passed. rewrite Hfail. simpl.
      by apply list_elem_of_singleton.
    + split; [done|]. by exists r.
  - intros Hgood. apply _check_transformations_passed in Hgood.
    split; [done|]. split.
    + eapply check_in_results; try done.
      do 2 apply list_elem_of_further. apply list_elem_of_here.
    + intros r Hr Hrule Hoid.
      pose proof Hslot as [slot Hs]%find_slot_is_Some.
      rewrite (adjudicate_slot_exists (__init__ co cr ts mp) _ _ _ _ _ Hs)
        in Hr. simpl in Hr.
      apply list_elem_of_In, in_flat_map in Hr as (oid' & _ & Hr).
      apply list_elem_of_In in Hr.
      pose proof (reasons_for_rule_type _ _ _ _ _ Hr) as [_ Hoid'].
      rewrite Hoid in Hoid'. injection Hoid' as <-.
      unfold reasons_for in Hr. rewrite Hlk in Hr.
      unfold reject_unless_passed in Hr. rewrite Hgood in Hr. simpl in Hr.
      rewrite app_nil_r in Hr. apply elem_of_app in Hr as [Hr|Hr];
        destruct (negb _); simpl in Hr;
        try (by apply elem_of_nil in Hr);
        apply list_elem_of_singleton in Hr; subst r; discriminate.
Qed.

Lemma _check_evidence_types_cases proposal obligation evidence_atoms :
  Obligation.required_evidence_types obligation ≠ [] →
  let check := _check_evidence_types proposal obligation evidence_atoms in
  (missing_types proposal obligation evidence_atoms ≠ ∅
   ∧ Obligation.allow_absence_statement obligation = false
   ∧ CheckResult.passed check = false
   ∧ CheckResult.message check
     = "Missing required evidence types: "
         +:+ repr_list ((λ t, repr_str (EvidenceType.value t))
                          <$> set_iter
                                (missing_types proposal obligation
                                   evidence_atoms)))
  ∨ ((Obligation.allow_absence_statement obligation = true
      ∨ missing_types proposal obligation evidence_atoms = ∅)
     ∧ CheckResult.passed check = true).
Proof.
  intros Hreq. simpl. unfold _check_evidence_types.
  destruct (Obligation.required_evidence_types obligation) as [|t req] eqn:E;
    [done|].
  fold (present_types proposal evidence_atoms). rewrite <- E.
  fold (missing_types proposal obligation evidence_atoms).
  case_bool_decide as Hm; simpl.
  - destruct (Obligation.allow_absence_statement obligation); simpl.
    + right. split; [by left | done].
    + left. done.
  - right. split; [by right | done].
Qed.

(** C2.  For a proposal whose slot exists and an obligation that is the
    last compiled obligation with an id mapped to that slot, with required
    evidence types: when a required type is
    not among the types of the referenced atoms found in the store and no
    absence statement is allowed, the adjudication is REJECTED with a
    rejection reason EVIDENCE_TYPES whose message lists exactly the
    missing types; when an absence statement is allowed or nothing is
    missing, the evidence-type check passes and is recorded. *)
Theorem evidence_completeness co cr ts mp proposal evidence_atoms uuid4
  utcnow obligation_id obligation :
  SlotProposal.slot_id proposal ∈ Slot.slot_id <$> TemplateSchema.slots ts →
  obligation_id
    ∈ ObligationMapping.get_obligations_for_slot mp
        (SlotProposal.slot_id proposal) →
  last_with Obligation.id (CompiledObligations.obligations co) obligation_id
    = Some obligation →
  Obligation.required_evidence_types obligation ≠ [] →
  (missing_types proposal obligation evidence_atoms ≠ ∅ →
   Obligation.allow_absence_statement obligation = false →
   AdjudicationResult.status
     (adjudicate (__init__ co cr ts mp) proposal evidence_atoms uuid4 utcnow)
     = AdjudicationStatus.REJECTED
   ∧ ∃ r listed,
       r ∈ AdjudicationResult.rejection_reasons
             (adjudicate (__init__ co cr ts mp) proposal evidence_atoms
                uuid4 utcnow)
       ∧ RejectionReason.rule_id r = "EVIDENCE_TYPES"
       ∧ RejectionReason.rule_type r = "obligation"
       ∧ RejectionReason.obligation_id r = Some obligation_id
       ∧ RejectionReason.message r
         = "Missing required evidence types: "
             +:+ repr_list ((λ t, repr_str (EvidenceType.value t)) <$> listed)
       ∧ NoDup listed
       ∧ ∀ t, t ∈ listed
              ↔ t ∈ missing_types proposal obligation evidence_atoms)
  ∧ (Obligation.allow_absence_statement obligation = true
     ∨ missing_types proposal obligation evidence_atoms = ∅ →
     CheckResult.passed
       (_check_evidence_types proposal obligation evidence_atoms) = true
     ∧ _check_evidence_types proposal obligation evidence_atoms
         ∈ AdjudicationResult.check_results
             (adjudicate (__init__ co cr ts mp) proposal evidence_atoms
                uuid4 utcnow)).
Proof.
  intros Hslot Hin Hlk Hreq. rewrite <- obligation_lookup_last in Hlk.
  change (_obligation_lookup (__init__ co cr ts mp) !! obligation_id
          = Some obligation) in Hlk.
  pose proof (_check_evidence_types_cases proposal obligation evidence_atoms
                Hreq) as Hcases. simpl in Hcases.
  split.
  - intros Hmiss Habs.
    destruct Hcases as [(_ & _ & Hfail & Hmsg)|[[Ht|He] _]];
      [|congruence|done].
    pose (r := RejectionReason.mk "EVIDENCE_TYPES" "obligation"
                 (Some obligation_id)
                 (CheckResult.message
                    (_check_evidence_types proposal obligation
                       evidence_atoms))).
    destruct (failed_check_rejects (__init__ co cr ts mp) proposal
                evidence_atoms uuid4 utcnow obligation_id obligation r)
      as [Hst Hr]; try done.
    + unfold reasons_for. rewrite Hlk. rewrite !elem_of_app. left.
      unfold reject_unless_passed. rewrite Hfail. simpl.
      by apply list_elem_of_singleton.
    + split; [done|].
      exists r, (set_iter (missing_types proposal obligation evidence_atoms)).
      repeat split; try done.
      * rewrite set_iter_perm. apply NoDup_elements.
      * rewrite set_iter_perm. apply elem_of_elements.
      * rewrite set_iter_perm. apply elem_of_elements.
  - intros Hok.
    destruct Hcases as [(Hmiss & Habs & _)|[_ Hpass]].
    + destruct Hok; congruence.
    + split; [done|]. eapply check_in_results; try done.
      apply list_elem_of_here.
Qed.

(** C6.  A proposal whose slot is not in the template is REJECTED with the
    single rejection reason SLOT_EXISTS / structural and no check result. *)
Theorem slot_existence_gate co cr ts mp proposal evidence_atoms uuid4 utcnow :
  SlotProposal.slot_id proposal ∉ Slot.slot_id <$> TemplateSchema.slots ts →
  AdjudicationResult.status
    (adjudicate (__init__ co cr ts mp) proposal evidence_atoms uuid4 utcnow)
    = AdjudicationStatus.REJECTED
  ∧ (∃ r,
       AdjudicationResult.rejection_reasons
         (adjudicate (__init__ co cr ts mp) proposal evidence_atoms
            uuid4 utcnow) = [r]
       ∧ RejectionReason.rule_id r = "SLOT_EXISTS"
       ∧ RejectionReason.rule_type r = "structural")
  ∧ AdjudicationResult.check_results
      (adjudicate (__init__ co cr ts mp) proposal evidence_atoms uuid4 utcnow)
    = [].
Proof.
  intros Hslot. unfold adjudicate, TemplateSchema.get_slot. simpl.
  destruct (TemplateSchema.find_slot (TemplateSchema.slots ts)
              (SlotProposal.slot_id proposal)) as [slot|] eqn:E.
  - exfalso. apply Hslot, find_slot_is_Some. by exists slot.
  - simpl. repeat split. eexists. by repeat split.
Qed.

(** C10.  The constraint step yields one result per constraint triggered
    on submission, in declaration order, each with passed = true; every
    check result of type constraint in an adjudication has passed; no
    rejection reason has rule type constraint; and status and rejection
    reasons do not depend on the compiled rules. *)
Theorem constraints_never_reject co cr ts mp proposal evidence_atoms uuid4
  utcnow :
  _evaluate_constraints (__init__ co cr ts mp) proposal evidence_atoms
    = (λ c, CheckResult.mk (Constraint.id c) "constraint" true
              "Constraint passed" None (Some (Constraint.id c)))
        <$> filter (λ c, Constraint.trigger c = "on_proposal_submit")
              (CompiledRules.constraints cr)
  ∧ (∀ c,
       c ∈ AdjudicationResult.check_results
             (adjudicate (__init__ co cr ts mp) proposal evidence_atoms
                uuid4 utcnow) →
       CheckResult.check_type c = "constraint" →
       CheckResult.passed c = true)
  ∧ (∀ r,
       r ∈ AdjudicationResult.rejection_reasons
             (adjudicate (__init__ co cr ts mp) proposal evidence_atoms
                uuid4 utcnow) →
       RejectionReason.rule_type r ≠ "constraint")
  ∧ (∀ cr',
       AdjudicationResult.status
         (adjudicate (__init__ co cr' ts mp) proposal evidence_atoms
            uuid4 utcnow)
       = AdjudicationResult.status
           (adjudicate (__init__ co cr ts mp) proposal evidence_atoms
              uuid4 utcnow)
       ∧ AdjudicationResult.rejection_reasons
           (adjudicate (__init__ co cr' ts mp) proposal evidence_atoms
              uuid4 utcnow)
         = AdjudicationResult.rejection_reasons
             (adjudicate (__init__ co cr ts mp) proposal evidence_atoms
                uuid4 utcnow)).
Proof.
  split; [apply _evaluate_constraints_filter|].
  destruct (TemplateSchema.get_slot ts (SlotProposal.slot_id proposal))
    as [slot|] eqn:Hslot.
  - assert (∀ cr0, TemplateSchema.get_slot (template (__init__ co cr0 ts mp))
              (SlotProposal.slot_id proposal) = Some slot) as Hs by done.
    rewrite (adjudicate_slot_exists _ _ _ _ _ _ (Hs cr)). simpl.
    split; [|split].
    + intros c [Hc|Hc]%elem_of_app Hty.
      * apply list_elem_of_In, in_flat_map in Hc as (oid & _ & Hc).
        apply list_elem_of_In in Hc. unfold checks_for in Hc.
        destruct (_ !! oid) as [o|]; [|by apply elem_of_nil in Hc].
        exfalso. revert Hc Hty.
        unfold _check_evidence_types, _check_time_scope,
          _check_transformations.
        rewrite !elem_of_cons, elem_of_nil.
        intros [->|[->|[->|[]]]];
          repeat (case_match; simpl; try discriminate).
      * by eapply Forall_forall in Hc;
          [|apply _evaluate_constraints_passed].
    + intros r Hr. apply list_elem_of_In, in_flat_map in Hr as (oid & _ & Hr).
      apply list_elem_of_In, reasons_for_rule_type in Hr as [-> _].
      discriminate.
    + intros cr'. by rewrite (adjudicate_slot_exists _ _ _ _ _ _ (Hs cr')).
  - unfold adjudicate. simpl. rewrite Hslot. simpl. split; [|split].
    + by intros c ?%elem_of_nil.
    + intros r ->%list_elem_of_singleton. discriminate.
    + done.
Qed.
End adjudication_facts.

(** *** The adjudication statements on the fixtures of the test suite *)

Lemma transformation_rules_witness :
  AdjudicationResult.status
    (AdjudicationEngine.adjudicate
       (transformation_order := elements_order _)
       (evidence_type_order := elements_order _)
       (AdjudicationEngine.__init__ test_compiled_obligations
          test_compiled_rules test_template test_mapping)
       extrapolating_proposal partial_evidence test_uuid4 0%Z)
  = AdjudicationStatus.REJECTED.
Proof.
  refine (proj1 (proj1 (transformation_rules
    (transformation_order := elements_order _)
    (evidence_type_order := elements_order _)
    test_compiled_obligations test_compiled_rules test_template test_mapping
    extrapolating_proposal partial_evidence test_uuid4 0%Z
    "TEST.OBLIGATION" test_obligation _ _ _) _)).
  - apply (bool_decide_unpack _). vm_compute. exact I.
  - apply (bool_decide_unpack _). vm_compute. exact I.
  - vm_compute. reflexivity.
  - left. apply (bool_decide_unpack _). vm_compute. exact I.
Defined.

Lemma evidence_completeness_witness :
  AdjudicationResult.status
    (AdjudicationEngine.adjudicate
       (transformation_order := elements_order _)
       (evidence_type_order := elements_order _)
       (AdjudicationEngine.__init__ test_compiled_obligations
          test_compiled_rules test_template test_mapping)
       summarizing_proposal partial_evidence test_uuid4 0%Z)
  = AdjudicationStatus.REJECTED.
Proof.
  refine (proj1 (proj1 (evidence_completeness
    (transformation_order := elements_order _)
    (evidence_type_order := elements_order _)
    test_compiled_obligations test_compiled_rules test_template test_mapping
    summarizing_proposal partial_evidence test_uuid4 0%Z
    "TEST.OBLIGATION" test_obligation _ _ _ _) _ _)).
  - apply (bool_decide_unpack _). vm_compute. exact I.
  - apply (bool_decide_unpack _). vm_compute. exact I.
  - vm_compute. reflexivity.
  - discriminate.
  - apply (bool_decide_unpack _). vm_compute. exact I.
  - reflexivity.
Defined.

Lemma slot_existence_gate_witness :
  AdjudicationResult.check_results
    (AdjudicationEngine.adjudicate
       (transformation_order := elements_order _)
       (evidence_type_order := elements_order _)
       (AdjudicationEngine.__init__ test_compiled_obligations
          test_compiled_rules test_template test_mapping)
       misplaced_proposal partial_evidence test_uuid4 0%Z)
  = [].
Proof.
  refine (proj2 (proj2 (slot_existence_gate
    (transformation_order := elements_order _)
    (evidence_type_order := elements_order _)
    test_compiled_obligations test_compiled_rules test_template test_mapping
    misplaced_proposal partial_evidence test_uuid4 0%Z _))).
  apply (bool_decide_unpack _). vm_compute. exact I.
Defined.

(** Scenario 2 of the specification: the message names the forbidden
    transformation that was used. *)
Example forbidden_transformation_scenario :
  AdjudicationResult.rejection_reasons
    (AdjudicationEngine.adjudicate
       (transformation_order := elements_order _)
       (evidence_type_order := elements_order _)
       (AdjudicationEngine.__init__ test_compiled_obligations
          test_compiled_rules test_template test_mapping)
       extrapolating_proposal partial_evidence test_uuid4 0%Z)
  = [RejectionReason.mk "EVIDENCE_TYPES" "obligation" (Some "TEST.OBLIGATION")
       "Missing required evidence types: ['complaint_record']";
     RejectionReason.mk "TRANSFORMATIONS" "obligation" (Some "TEST.OBLIGATION")
       "Forbidden transformations used: ['extrapolate']"].
Proof. vm_compute. reflexivity. Qed.

(** An obligation followed by another one with the same id is in the
    compiled list and mapped to the slot, and is never checked: the
    proposal uses a transformation it forbids and cites none of the
    evidence it requires, and is ACCEPTED. *)
Lemma shadowed_forbidden_transformation_counterexample :
  SlotProposal.slot_id extrapolating_proposal
    ∈ Slot.slot_id <$> TemplateSchema.slots test_template
  ∧ shadowed_obligation
      ∈ CompiledObligations.obligations duplicated_compiled_obligations
  ∧ Obligation.id shadowed_obligation
      ∈ ObligationMapping.get_obligations_for_slot test_mapping
          (SlotProposal.slot_id extrapolating_proposal)
  ∧ Transformation.EXTRAPOLATE
      ∈ SlotProposal.transformations_used extrapolating_proposal
  ∧ Transformation.EXTRAPOLATE
      ∈ Obligation.forbidden_transformations shadowed_obligation
  ∧ transformation_violation extrapolating_proposal shadowed_obligation
  ∧ AdjudicationResult.status
      (AdjudicationEngine.adjudicate
         (transformation_order := elements_order _)
         (evidence_type_order := elements_order _)
         (AdjudicationEngine.__init__ duplicated_compiled_obligations
            test_compiled_rules test_template test_mapping)
         extrapolating_proposal partial_evidence test_uuid4 0%Z)
    = AdjudicationStatus.ACCEPTED.
Proof.
  split_and!.
  - apply (bool_decide_unpack _). vm_compute. exact I.
  - apply list_elem_of_here.
  - apply (bool_decide_unpack _). vm_compute. exact I.
  - apply list_elem_of_here.
  - apply list_elem_of_further, list_elem_of_here.
  - left. apply (bool_decide_unpack _). vm_compute. exact I.
  - vm_compute. reflexivity.
Qed.

Lemma shadowed_missing_evidence_counterexample :
  SlotProposal.slot_id summarizing_proposal
    ∈ Slot.slot_id <$> TemplateSchema.slots test_template
  ∧ shadowed_obligation
      ∈ CompiledObligations.obligations duplicated_compiled_obligations
  ∧ Obligation.id shadowed_obligation
      ∈ ObligationMapping.get_obligations_for_slot test_mapping
          (SlotProposal.slot_id summarizing_proposal)
  ∧ Obligation.required_evidence_types shadowed_obligation ≠ []
  ∧ Obligation.allow_absence_statement shadowed_obligation = false
  ∧ EvidenceType.COMPLAINT_RECORD
      ∈ missing_types summarizing_proposal shadowed_obligation
          partial_evidence
  ∧ AdjudicationResult.status
      (AdjudicationEngine.adjudicate
         (transformation_order := elements_order _)
         (evidence_type_order := elements_order _)
         (AdjudicationEngine.__init__ duplicated_compiled_obligations
            test_compiled_rules test_template test_mapping)
         summarizing_proposal partial_evidence test_uuid4 0%Z)
    = AdjudicationStatus.ACCEPTED.
Proof.
  split_and!.
  - apply (bool_decide_unpack _). vm_compute. exact I.
  - apply list_elem_of_here.
  - apply (bool_decide_unpack _). vm_compute. exact I.
  - discriminate.
  - reflexivity.
  - apply (bool_decide_unpack _). vm_compute. exact I.
  - vm_compute. reflexivity.
Qed.

(** ** Trace generation *)

Section trace_facts.
Context {repr_builtin : PyRepr}.
Variable utcnow : nat → datetime.

Import TraceGenerator.

Lemma cell_loop_app proposal adjudication cells nodes idx :
  foldl (cell_step utcnow proposal adjudication) (nodes, idx) cells
  = (nodes ++ imap (λ i cell,
                      make_node utcnow proposal adjudication "cell"
                        (idx + i) (cell_content cell)) cells,
     idx + length cells).
Proof.
  revert nodes idx. induction cells as [|c cells IH]; intros nodes idx; simpl.
  - by rewrite app_nil_r, Nat.add_0_r.
  - rewrite IH, <- app_assoc. simpl. rewrite Nat.add_0_r. f_equal; [|lia].
    do 2 f_equal. apply imap_ext. intros i x _. simpl. f_equal. lia.
Qed.

Lemma row_loop_app proposal adjudication rows nodes idx :
  row_loop utcnow proposal adjudication rows (nodes, idx)
  = (cells ← table_cells rows;
     ok (nodes ++ imap (λ i cell,
                          make_node utcnow proposal adjudication "cell"
                            (idx + i) (cell_content cell)) cells,
         idx + length cells)).
Proof.
  revert nodes idx. induction rows as [|row rows IH]; intros nodes idx; simpl.
  - by rewrite app_nil_r, Nat.add_0_r.
  - unfold row_cells.
    destruct (py_get row "cells" (PList [])) as [e|cells_v]; simpl; [done|].
    destruct (py_iter cells_v) as [e|cells]; simpl; [done|].
    rewrite cell_loop_app, IH.
    destruct (table_cells rows) as [e|more]; simpl; [done|].
    unfold ok. do 2 f_equal.
    + rewrite <- app_assoc, imap_app. do 2 f_equal.
      apply imap_ext. intros i x _. simpl. f_equal. lia.
    + rewrite length_app. lia.
Qed.

(** An accepted adjudication yields one node per fragment, numbered from 0
    in fragment order. *)
Lemma generate_trace_accepted proposal adjudication slot_type :
  AdjudicationResult.status adjudication = AdjudicationStatus.ACCEPTED →
  generate_trace utcnow proposal adjudication slot_type
  = (fragments ← payload_fragments proposal slot_type;
     ok (imap (make_node utcnow proposal adjudication
                 (fragment_type_of slot_type)) fragments)).
Proof.
  intros Hacc. unfold generate_trace. rewrite Hacc.
  rewrite decide_False by (intros H; by apply H).
  destruct slot_type; simpl.
  - unfold _trace_narrative.
    by destruct (narrative_content proposal).
  - unfold _trace_table.
    destruct (py_iter _) as [e|rows]; simpl; [done|].
    rewrite row_loop_app.
    destruct (table_cells rows) as [e|cells]; simpl; [done|].
    by rewrite imap_fmap.
  - unfold _trace_kv.
    destruct (kv_items _) as [e|items]; simpl; [done|].
    by rewrite imap_fmap.
Qed.

Lemma make_node_indices proposal adjudication fragment_type fragments :
  TraceNode.fragment_index
    <$> imap (make_node utcnow proposal adjudication fragment_type) fragments
  = seq 0 (length fragments).
Proof.
  rewrite fmap_imap.
  rewrite (imap_ext _ (λ i _, i)) by done.
  induction fragments as [|f fs IH] using rev_ind; [done|].
  rewrite imap_app, length_app, seq_app, IH. simpl.
  by rewrite Nat.add_0_r.
Qed.

Lemma make_node_contents proposal adjudication fragment_type fragments :
  TraceNode.fragment_content
    <$> imap (make_node utcnow proposal adjudication fragment_type) fragments
  = fragments.
Proof.
  rewrite fmap_imap.
  rewrite (imap_ext _ (const id)) by done.
  rewrite imap_const. apply list_fmap_id.
Qed.

Lemma table_cells_rows rows cellss :
  Forall2 (λ row cells, row_cells row = inr cells) rows cellss →
  table_cells rows = inr (concat cellss).
Proof.
  induction 1 as [|row cells rows cellss Hrow _ IH]; simpl; [done|].
  by rewrite Hrow, IH.
Qed.

Lemma kv_items_length kv_pairs items :
  kv_items kv_pairs = inr items → py_len kv_pairs = inr (length items).
Proof.
  assert (∀ ps items,
    mapM (M := result)
      (λ p, key ← py_get p "key" PNone;
            value ← py_get p "value" PNone; ok (key, value)) ps
    = inr items → length items = length ps) as Hlen.
  { induction ps as [|p ps IH]; simpl; intros its.
    - by intros [= <-].
    - destruct (py_get p "key" PNone) as [e|k]; simpl; [done|].
      destruct (py_get p "value" PNone) as [e|v]; simpl; [done|].
      destruct (mapM _ ps) as [e|rest]; simpl; [done|].
      intros [= <-]. simpl. f_equal. by apply IH. }
  unfold kv_items, py_len.
  destruct kv_pairs as [| | |s|l|d]; simpl; try done.
  - intros H%Hlen. rewrite H, length_fmap. unfold chars.
    rewrite length_fmap. clear. unfold ok. f_equal.
    induction s as [|a s IH]; simpl; [done|]. by rewrite IH.
  - intros H%Hlen. by rewrite H.
  - intros [= <-]. by rewrite length_fmap.
Qed.

Lemma length_concat_sum {A} (ls : list (list A)) :
  length (concat ls) = sum_list (length <$> ls).
Proof.
  induction ls as [|l ls IH]; simpl; [done|]. by rewrite length_app, IH.
Qed.

(** C3 (amended).  For an accepted adjudication, [generate_trace] returns
    one node per fragment, with indices 0..N-1 in fragment order.  For a
    narrative slot the fragments are the trimmed non-empty pieces of the
    text cut at each pair of adjacent newlines (the whole trimmed text
    when there is no such piece and the trimmed text is non-empty); for a
    table slot they are the cells of all rows in order; for a kv slot the
    pairs in order. *)
Theorem trace_atomicity proposal adjudication :
  AdjudicationResult.status adjudication = AdjudicationStatus.ACCEPTED →
  (∀ text,
     dict_get (SlotProposal.payload proposal) "text" (PStr "") = PStr text →
     ∃ nodes,
       generate_trace utcnow proposal adjudication SlotType.NARRATIVE
         = inr nodes
       ∧ length nodes = length (narrative_paragraphs text)
       ∧ TraceNode.fragment_content <$> nodes = narrative_paragraphs text
       ∧ TraceNode.fragment_index <$> nodes
         = seq 0 (length (narrative_paragraphs text)))
  ∧ (∀ rows cellss,
       py_iter (dict_get (SlotProposal.payload proposal) "rows" (PList []))
         = inr rows →
       Forall2 (λ row cells, row_cells row = inr cells) rows cellss →
       ∃ nodes,
         generate_trace utcnow proposal adjudication SlotType.TABLE
           = inr nodes
         ∧ length nodes = sum_list (length <$> cellss)
         ∧ TraceNode.fragment_content <$> nodes
           = cell_content <$> concat cellss
         ∧ TraceNode.fragment_index <$> nodes
           = seq 0 (sum_list (length <$> cellss)))
  ∧ (∀ items,
       kv_items (dict_get (SlotProposal.payload proposal) "pairs" (PDict []))
         = inr items →
       ∃ nodes,
         generate_trace utcnow proposal adjudication SlotType.KV = inr nodes
         ∧ py_len (dict_get (SlotProposal.payload proposal) "pairs"
                     (PDict [])) = inr (length nodes)
         ∧ TraceNode.fragment_content <$> nodes
           = (λ kv, py_str kv.1 +:+ ": " +:+ py_str kv.2) <$> items
         ∧ TraceNode.fragment_index <$> nodes = seq 0 (length items)).
Proof.
  intros Hacc. split; [|split].
  - intros text Htext.
    rewrite (generate_trace_accepted _ _ _ Hacc). simpl.
    unfold narrative_content. rewrite Htext. simpl. eexists. split; [done|].
    by rewrite length_imap, make_node_contents, make_node_indices.
  - intros rows cellss Hrows Hcells.
    rewrite (generate_trace_accepted _ _ _ Hacc). simpl.
    rewrite Hrows. simpl. rewrite (table_cells_rows _ _ Hcells). simpl.
    eexists. split; [done|].
    rewrite length_imap, make_node_contents, make_node_indices.
    by rewrite length_fmap, length_concat_sum.
  - intros items Hitems.
    rewrite (generate_trace_accepted _ _ _ Hacc). simpl.
    rewrite Hitems. simpl. eexists. split; [done|].
    rewrite length_imap, make_node_contents, make_node_indices.
    rewrite !length_fmap. split; [|done].
    by apply kv_items_length.
Qed.

(** C7.  Every node [generate_trace] returns carries the proposal's
    evidence atoms, transformations, claimed basis, agent id and slot id,
    and its trace id is the adjudication id, a dash and its index. *)
Theorem trace_provenance proposal adjudication slot_type nodes node :
  generate_trace utcnow proposal adjudication slot_type = inr nodes →
  node ∈ nodes →
  TraceNode.evidence_atoms node = SlotProposal.evidence_atoms proposal
  ∧ TraceNode.transformations node
    = SlotProposal.transformations_used proposal
  ∧ TraceNode.regulatory_basis node = SlotProposal.claimed_basis proposal
  ∧ TraceNode.agent_id node = SlotProposal.agent_id proposal
  ∧ TraceNode.slot_id node = SlotProposal.slot_id proposal
  ∧ TraceNode.trace_id node
    = AdjudicationResult.adjudication_id adjudication
        +:+ "-" +:+ str_of_nat (TraceNode.fragment_index node).
Proof.
  intros Hgen Hin.
  destruct (decide (AdjudicationResult.status adjudication
                      = AdjudicationStatus.ACCEPTED)) as [Hacc|Hrej].
  - rewrite (generate_trace_accepted _ _ _ Hacc) in Hgen.
    destruct (payload_fragments proposal slot_type) as [e|fragments];
      simpl in Hgen; [done|].
    injection Hgen as <-.
    apply elem_of_lookup_imap in Hin as (i & f & -> & _). done.
  - unfold generate_trace in Hgen. by rewrite decide_True in Hgen.
Qed.

(** C9.  [generate_trace] raises on a REJECTED adjudication, whatever the
    proposal and the slot type, and returns no trace list unless the
    adjudication is ACCEPTED. *)
Theorem rejected_adjudication_refused proposal adjudication slot_type :
  AdjudicationResult.status adjudication ≠ AdjudicationStatus.ACCEPTED →
  generate_trace utcnow proposal adjudication slot_type
    = inl (ValueError "Cannot generate trace for rejected proposal")
  ∧ (AdjudicationResult.status adjudication = AdjudicationStatus.REJECTED)
  ∧ ∀ nodes,
      generate_trace utcnow proposal adjudication slot_type ≠ inr nodes.
Proof.
  intros Hrej. unfold generate_trace. rewrite decide_True by done.
  split; [done|]. split; [|done].
  by destruct (AdjudicationResult.status adjudication).
Qed.

Lemma total_cells_table_cells rows cells :
  table_cells rows = inr cells → total_cells rows = inr (length cells).
Proof.
  revert cells. induction rows as [|row rows IH]; intros cells; simpl.
  - by intros [= <-].
  - unfold row_cells.
    destruct (py_get row "cells" (PList [])) as [e|cells_v]; simpl; [done|].
    destruct cells_v as [| | |s|l|d]; simpl; try done;
      destruct (table_cells rows) as [e|more]; simpl; try done;
      intros [= <-]; rewrite (IH more eq_refl); simpl;
      rewrite length_app, ?length_fmap; try done.
    unfold chars. rewrite length_fmap. do 2 f_equal.
    clear. induction s as [|a s IH]; simpl; [done|]. by rewrite IH.
Qed.

(** The count [validate_trace_completeness] compares with is the number of
    fragments. *)
Lemma validate_trace_completeness_fragments proposal traces slot_type
  fragments :
  payload_fragments proposal slot_type = inr fragments →
  validate_trace_completeness proposal traces slot_type
  = inr (bool_decide (traces ≠ [])
         && (length fragments <=? length traces)%nat).
Proof.
  intros Hfr. unfold validate_trace_completeness.
  destruct traces as [|t traces]; [done|].
  rewrite bool_decide_eq_true_2 by done. simpl.
  destruct slot_type; simpl in Hfr.
  - destruct (narrative_content proposal) as [e|content]; simpl in *;
      [done|]. by injection Hfr as <-.
  - destruct (py_iter _) as [e|rows]; simpl in *; [done|].
    destruct (table_cells rows) as [e|cells] eqn:Hc; simpl in *; [done|].
    injection Hfr as <-. rewrite (total_cells_table_cells _ _ Hc). simpl.
    by rewrite length_fmap.
  - destruct (kv_items _) as [e|items] eqn:Hi; simpl in *; [done|].
    injection Hfr as <-. rewrite (kv_items_length _ _ Hi). simpl.
    by rewrite length_fmap.
Qed.

(** C8 (amended).  With the expected count taken from what
    [generate_trace] returns for the payload, [validate_trace_completeness]
    returns true exactly when the trace list is non-empty and at least as
    long as the expected count. *)
Theorem trace_completeness proposal adjudication traces slot_type nodes :
  generate_trace utcnow proposal adjudication slot_type = inr nodes →
  validate_trace_completeness proposal traces slot_type
    = inr (bool_decide (traces ≠ [])
           && (length nodes <=? length traces)%nat)
  ∧ (validate_trace_completeness proposal traces slot_type = inr true
     ↔ traces ≠ [] ∧ (length nodes ≤ length traces)%nat).
Proof.
  intros Hgen.
  assert (validate_trace_completeness proposal traces slot_type
          = inr (bool_decide (traces ≠ [])
                 && (length nodes <=? length traces)%nat)) as Hv.
  { destruct (decide (AdjudicationResult.status adjudication
                        = AdjudicationStatus.ACCEPTED)) as [Hacc|Hrej].
    - rewrite (generate_trace_accepted _ _ _ Hacc) in Hgen.
      destruct (payload_fragments proposal slot_type) as [e|fragments]
        eqn:Hfr; simpl in Hgen; [done|].
      injection Hgen as <-. rewrite length_imap.
      by apply validate_trace_completeness_fragments.
    - unfold generate_trace in Hgen. by rewrite decide_True in Hgen. }
  split; [done|]. rewrite Hv. split.
  - intros [= [H1 H2]%andb_true_iff].
    apply bool_decide_eq_true in H1. by apply Nat.leb_le in H2.
  - intros [H1 H2]. f_equal. apply andb_true_iff.
    split; [by apply bool_decide_eq_true | by apply Nat.leb_le].
Qed.
End trace_facts.

(** *** The trace statements on the fixtures of the test suite *)

Example str_of_nat_decimal :
  str_of_nat 0 = "0" ∧ str_of_nat 7 = "7" ∧ str_of_nat 120 = "120".
Proof. vm_compute. done. Qed.

(** Scenario 4 of the specification. *)
Lemma trace_atomicity_witness :
  ∃ nodes,
    TraceGenerator.generate_trace (repr_builtin := scalar_repr) test_clock
      three_paragraphs accepted_adjudication SlotType.NARRATIVE = inr nodes
    ∧ length nodes = 3
    ∧ TraceNode.fragment_content <$> nodes = ["A."; "B."; "C."]
    ∧ TraceNode.fragment_index <$> nodes = [0; 1; 2].
Proof.
  exact (proj1 (trace_atomicity (repr_builtin := scalar_repr) test_clock
                  three_paragraphs accepted_adjudication eq_refl)
           ("A." +:+ NL +:+ NL +:+ "B." +:+ NL +:+ NL +:+ "C.") eq_refl).
Defined.

Example table_trace_scenario :
  fmap (M := list) TraceNode.fragment_content
    <$> TraceGenerator.generate_trace (repr_builtin := scalar_repr)
          test_clock table_proposal accepted_adjudication SlotType.TABLE
  = inr ["A1"; "B1"; "A2"; "B2"].
Proof. vm_compute. reflexivity. Qed.

Example kv_trace_scenario :
  fmap (M := list) TraceNode.fragment_content
    <$> TraceGenerator.generate_trace (repr_builtin := scalar_repr)
          test_clock kv_proposal accepted_adjudication SlotType.KV
  = inr ["key1: value1"; "key2: value2"; "key3: value3"].
Proof. vm_compute. reflexivity. Qed.

(** A line that holds only a space is blank for the specification and
    separates two paragraphs; the generator cuts at two adjacent newlines
    only and returns the text as one fragment. *)
Lemma narrative_blank_line_counterexample :
  blank_line_paragraphs_spec space_line_text = ["A"; "B"]
  ∧ ∃ nodes,
      TraceGenerator.generate_trace (repr_builtin := scalar_repr) test_clock
        space_line_proposal accepted_adjudication SlotType.NARRATIVE
        = inr nodes
      ∧ TraceNode.fragment_content <$> nodes = [space_line_text]
      ∧ length nodes ≠ length (blank_line_paragraphs_spec space_line_text).
Proof.
  split; [vm_compute; reflexivity|].
  eexists. split; [vm_compute; reflexivity|].
  split; [vm_compute; reflexivity|]. vm_compute. discriminate.
Qed.

Lemma trace_provenance_witness :
  let node :=
    TraceGenerator.make_node test_clock three_paragraphs
      accepted_adjudication "paragraph" 1 "B." in
  TraceNode.evidence_atoms node = SlotProposal.evidence_atoms three_paragraphs
  ∧ TraceNode.transformations node
    = SlotProposal.transformations_used three_paragraphs
  ∧ TraceNode.regulatory_basis node
    = SlotProposal.claimed_basis three_paragraphs
  ∧ TraceNode.agent_id node = SlotProposal.agent_id three_paragraphs
  ∧ TraceNode.slot_id node = SlotProposal.slot_id three_paragraphs
  ∧ TraceNode.trace_id node = "test_adj-1".
Proof.
  intros node.
  apply (trace_provenance (repr_builtin := scalar_repr) test_clock
           three_paragraphs accepted_adjudication SlotType.NARRATIVE
           (imap (TraceGenerator.make_node test_clock three_paragraphs
                    accepted_adjudication "paragraph") ["A."; "B."; "C."])
           node).
  - vm_compute. reflexivity.
  - simpl. apply list_elem_of_further, list_elem_of_here.
Defined.

Lemma rejected_adjudication_refused_witness :
  TraceGenerator.generate_trace (repr_builtin := scalar_repr) test_clock
    three_paragraphs rejected_adjudication SlotType.NARRATIVE
  = inl (ValueError "Cannot generate trace for rejected proposal").
Proof.
  refine (proj1 (rejected_adjudication_refused (repr_builtin := scalar_repr)
                   test_clock three_paragraphs rejected_adjudication
                   SlotType.NARRATIVE _)).
  simpl. discriminate.
Defined.

Lemma trace_completeness_witness :
  validate_trace_completeness three_paragraphs
    (imap (TraceGenerator.make_node test_clock three_paragraphs
             accepted_adjudication "paragraph") ["A."; "B."; "C."])
    SlotType.NARRATIVE
  = inr true.
Proof.
  refine (proj2 (proj2 (trace_completeness (repr_builtin := scalar_repr)
    test_clock three_paragraphs accepted_adjudication
    (imap (TraceGenerator.make_node test_clock three_paragraphs
             accepted_adjudication "paragraph") ["A."; "B."; "C."])
    SlotType.NARRATIVE
    (imap (TraceGenerator.make_node test_clock three_paragraphs
             accepted_adjudication "paragraph") ["A."; "B."; "C."]) _)) _).
  - vm_compute. reflexivity.
  - split; [simpl; discriminate | simpl; lia].
Defined.

(** An empty payload has no fragment, so an empty trace list is as long as
    the expected count; the validator still answers false. *)
Lemma empty_trace_list_counterexample :
  ¬ (validate_trace_completeness empty_proposal [] SlotType.NARRATIVE
       = inr true
     ↔ ∃ nodes,
         TraceGenerator.generate_trace (repr_builtin := scalar_repr)
           test_clock empty_proposal accepted_adjudication SlotType.NARRATIVE
           = inr nodes
         ∧ (length nodes ≤ length (@nil TraceNode.t))%nat).
Proof.
  intros [_ H].
  assert (validate_trace_completeness empty_proposal [] SlotType.NARRATIVE
          = inr true) as Hv.
  { apply H. exists []. split; [vm_compute; reflexivity | simpl; lia]. }
  vm_compute in Hv. discriminate.
Qed.

(** ** Qualification *)

Lemma foldl_acc_issues {X} (step : qual_acc → X → qual_acc)
  (f : X → list QualificationIssue.t) :
  (∀ a x, acc_issues (step a x) = acc_issues a ++ f x) →
  ∀ l a, acc_issues (foldl step a l) = acc_issues a ++ flat_map f l.
Proof.
  intros Hstep l. induction l as [|x l IH]; intros a; simpl.
  - by rewrite app_nil_r.
  - by rewrite IH, Hstep, <- app_assoc.
Qed.

Lemma mandatory_step_issues mapped a obligation :
  acc_issues (mandatory_step mapped a obligation)
  = acc_issues a ++ mandatory_issues mapped obligation.
Proof.
  unfold mandatory_step, mandatory_issues. case_decide; simpl; [done|].
  by rewrite app_nil_r.
Qed.

Lemma dangling_step_issues slot_lookup a slot_mapping :
  acc_issues (dangling_step slot_lookup a slot_mapping)
  = acc_issues a
    ++ flat_map (dangling_slot_issues slot_lookup slot_mapping)
         (SlotMapping.slot_ids slot_mapping).
Proof.
  unfold dangling_step. apply foldl_acc_issues. intros a' slot_id.
  unfold dangling_slot_step, dangling_slot_issues.
  destruct (slot_lookup !! slot_id); simpl; [|done]. by rewrite app_nil_r.
Qed.

Lemma incompatible_step_issues obligation_lookup slot_lookup a slot_mapping :
  acc_issues (incompatible_step obligation_lookup slot_lookup a slot_mapping)
  = acc_issues a ++ incompatible_issues obligation_lookup slot_lookup slot_mapping.
Proof.
  unfold incompatible_step, incompatible_issues.
  destruct (obligation_lookup !! _) as [o|]; [|by rewrite app_nil_r].
  destruct (Obligation.allowed_output_types o) as [|out outs] eqn:E;
    [by rewrite app_nil_r|].
  apply foldl_acc_issues. intros a' slot_id.
  unfold incompatible_slot_step, incompatible_slot_issues.
  destruct (slot_lookup !! slot_id) as [slot|]; [|by rewrite app_nil_r].
  destruct (has_compatible _ _); simpl; [|done]. by rewrite app_nil_r.
Qed.

(** The issues of a report, loop by loop. *)
Lemma qualify_template_issues compiled_obligations template_schema mapping :
  QualificationReport.issues
    (qualify_template compiled_obligations template_schema mapping)
  = flat_map
      (mandatory_issues
         (list_to_set (SlotMapping.obligation_id
                         <$> ObligationMapping.mappings mapping)))
      (CompiledObligations.get_mandatory compiled_obligations)
    ++ flat_map
         (λ m, flat_map
                 (dangling_slot_issues
                    (slot_lookup_of (TemplateSchema.slots template_schema)) m)
                 (SlotMapping.slot_ids m))
         (ObligationMapping.mappings mapping)
    ++ flat_map
         (incompatible_issues
            (obligation_lookup_of
               (CompiledObligations.obligations compiled_obligations))
            (slot_lookup_of (TemplateSchema.slots template_schema)))
         (ObligationMapping.mappings mapping).
Proof.
  unfold qualify_template, qualify_acc. simpl.
  rewrite (foldl_acc_issues _ _ (incompatible_step_issues _ _)).
  rewrite (foldl_acc_issues _ _ (dangling_step_issues _)).
  rewrite (foldl_acc_issues _ _ (mandatory_step_issues _)).
  simpl. by rewrite <- app_assoc.
Qed.

Lemma has_compatible_spec slot_type allowed_output_types :
  has_compatible slot_type allowed_output_types = true
  ↔ ∃ out, out ∈ allowed_output_types ∧ out ∈ compatible_outputs slot_type.
Proof.
  unfold has_compatible. rewrite existsb_exists.
  assert (∀ out,
    bool_decide (out ∈ default (∅ : gset OutputType.t)
                         (SLOT_OUTPUT_COMPATIBILITY !! slot_type)) = true
    ↔ out ∈ compatible_outputs slot_type) as Hc.
  { intros out. rewrite <- (bool_decide_eq_true (out ∈ compatible_outputs _)).
    by destruct slot_type, out; vm_compute. }
  split.
  - intros (out & Hin & Hout). exists out.
    split; [by apply list_elem_of_In | by apply Hc].
  - intros (out & Hin & Hout). exists out.
    split; [by apply list_elem_of_In | by apply Hc].
Qed.

Lemma elem_of_mandatory_issues compiled_obligations mapping i :
  i ∈ flat_map
        (mandatory_issues
           (list_to_set (SlotMapping.obligation_id
                           <$> ObligationMapping.mappings mapping)))
        (CompiledObligations.get_mandatory compiled_obligations)
  ↔ ∃ o, mandatory_unmapped compiled_obligations mapping o
         ∧ i = missing_mandatory_issue o.
Proof.
  rewrite list_elem_of_In, in_flat_map. unfold mandatory_unmapped.
  split.
  - intros (o & Ho & Hi). exists o.
    apply list_elem_of_In, list_elem_of_filter in Ho as [Hm Ho].
    unfold mandatory_issues in Hi. case_decide as Hn; [|done].
    rewrite elem_of_list_to_set in Hn.
    destruct Hi as [<-|[]]. done.
  - intros (o & (Ho & Hm & Hn) & ->). exists o. split.
    + apply list_elem_of_In, list_elem_of_filter. done.
    + unfold mandatory_issues. rewrite decide_True; [by left|].
      by rewrite elem_of_list_to_set.
Qed.

Lemma elem_of_dangling_issues template_schema mapping i :
  i ∈ flat_map
        (λ m, flat_map
                (dangling_slot_issues
                   (slot_lookup_of (TemplateSchema.slots template_schema)) m)
                (SlotMapping.slot_ids m))
        (ObligationMapping.mappings mapping)
  ↔ ∃ m slot_id, slot_dangling template_schema mapping m slot_id
                 ∧ i = dangling_mapping_issue m slot_id.
Proof.
  rewrite list_elem_of_In, in_flat_map. unfold slot_dangling.
  setoid_rewrite in_flat_map. setoid_rewrite <- list_elem_of_In.
  setoid_rewrite <- slot_lookup_is_Some.
  split.
  - intros (m & Hm & sid & Hsid & Hi). exists m, sid.
    unfold dangling_slot_issues in Hi.
    destruct (slot_lookup_of _ !! sid) as [slot|] eqn:E;
      [by apply elem_of_nil in Hi|].
    apply list_elem_of_singleton in Hi. repeat split; try done.
  - intros (m & sid & (Hm & Hsid & Hn) & ->). exists m. split; [done|].
    exists sid. split; [done|]. unfold dangling_slot_issues.
    destruct (slot_lookup_of _ !! sid) as [slot|] eqn:E.
    + exfalso. apply Hn. by exists slot.
    + by apply list_elem_of_singleton.
Qed.

Lemma elem_of_incompatible_issues compiled_obligations template_schema
  mapping i :
  i ∈ flat_map
        (incompatible_issues
           (obligation_lookup_of
              (CompiledObligations.obligations compiled_obligations))
           (slot_lookup_of (TemplateSchema.slots template_schema)))
        (ObligationMapping.mappings mapping)
  ↔ ∃ m o slot_id slot,
      slot_incompatible compiled_obligations template_schema mapping
        m o slot_id slot
      ∧ i = incompatible_type_issue o slot slot_id.
Proof.
  rewrite list_elem_of_In, in_flat_map. unfold slot_incompatible.
  setoid_rewrite <- list_elem_of_In.
  setoid_rewrite <- obligation_lookup_last.
  setoid_rewrite <- slot_lookup_last.
  split.
  - intros (m & Hm & Hi). unfold incompatible_issues in Hi.
    destruct (obligation_lookup_of _ !! _) as [o|] eqn:Ho;
      [|by apply elem_of_nil in Hi].
    destruct (Obligation.allowed_output_types o) as [|out outs] eqn:E;
      [by apply elem_of_nil in Hi|].
    apply list_elem_of_In, in_flat_map in Hi as (sid & Hsid & Hi).
    apply list_elem_of_In in Hsid, Hi.
    unfold incompatible_slot_issues in Hi.
    destruct (slot_lookup_of _ !! sid) as [slot|] eqn:Hs;
      [|by apply elem_of_nil in Hi].
    destruct (has_compatible _ _) eqn:Hc; [by apply elem_of_nil in Hi|].
    apply list_elem_of_singleton in Hi. exists m, o, sid, slot.
    repeat split; try done.
    + by rewrite E.
    + rewrite <- has_compatible_spec. by rewrite Hc.
  - intros (m & o & sid & slot & (Hm & Ho & Ha & Hsid & Hs & Hn) & ->).
    exists m. split; [done|]. unfold incompatible_issues. rewrite Ho.
    destruct (Obligation.allowed_output_types o) as [|out outs] eqn:E;
      [done|].
    apply list_elem_of_In, in_flat_map. exists sid.
    split; [by apply list_elem_of_In|]. apply list_elem_of_In.
    unfold incompatible_slot_issues. rewrite Hs.
    destruct (has_compatible _ _) eqn:Hc.
    + exfalso. apply Hn. apply has_compatible_spec in Hc. by rewrite E in Hc.
    + by apply list_elem_of_singleton.
Qed.

Lemma elem_of_qualify_template_issues compiled_obligations template_schema
  mapping i :
  i ∈ QualificationReport.issues
        (qualify_template compiled_obligations template_schema mapping)
  ↔ (∃ o, mandatory_unmapped compiled_obligations mapping o
          ∧ i = missing_mandatory_issue o)
    ∨ (∃ m slot_id, slot_dangling template_schema mapping m slot_id
                    ∧ i = dangling_mapping_issue m slot_id)
    ∨ (∃ m o slot_id slot,
         slot_incompatible compiled_obligations template_schema mapping
           m o slot_id slot
         ∧ i = incompatible_type_issue o slot slot_id).
Proof.
  rewrite qualify_template_issues, !elem_of_app.
  by rewrite elem_of_mandatory_issues, elem_of_dangling_issues,
    elem_of_incompatible_issues.
Qed.

(** C4.  [qualify_template] reports PASS exactly when it found no issue; it
    finds no issue exactly when every mandatory obligation is mapped, every
    mapped slot id is in the template, and every existing slot of a mapping
    entry whose id denotes an obligation (the last compiled obligation with
    that id) with allowed output types is compatible with one of them;
    each violation is recorded as an issue of its type, and an
    incompatible_type issue only comes from an obligation whose allowed
    output types are not empty. *)
Theorem qualification_pass_iff compiled_obligations template_schema mapping :
  (QualificationReport.status
     (qualify_template compiled_obligations template_schema mapping)
     = QualificationStatus.PASS
   ↔ QualificationReport.issues
       (qualify_template compiled_obligations template_schema mapping) = [])
  ∧ (QualificationReport.issues
       (qualify_template compiled_obligations template_schema mapping) = []
     ↔ (∀ o, o ∈ CompiledObligations.obligations compiled_obligations →
             Obligation.mandatory o = true →
             Obligation.id o
               ∈ SlotMapping.obligation_id
                   <$> ObligationMapping.mappings mapping)
       ∧ (∀ m slot_id,
            m ∈ ObligationMapping.mappings mapping →
            slot_id ∈ SlotMapping.slot_ids m →
            slot_id ∈ Slot.slot_id <$> TemplateSchema.slots template_schema)
       ∧ (∀ m o slot_id slot,
            m ∈ ObligationMapping.mappings mapping →
            last_with Obligation.id
              (CompiledObligations.obligations compiled_obligations)
              (SlotMapping.obligation_id m) = Some o →
            Obligation.allowed_output_types o ≠ [] →
            slot_id ∈ SlotMapping.slot_ids m →
            last_with Slot.slot_id (TemplateSchema.slots template_schema)
              slot_id = Some slot →
            ∃ out, out ∈ Obligation.allowed_output_types o
                   ∧ out ∈ compatible_outputs (Slot.slot_type slot)))
  ∧ (∀ o, mandatory_unmapped compiled_obligations mapping o →
          ∃ i, i ∈ QualificationReport.issues
                     (qualify_template compiled_obligations template_schema
                        mapping)
               ∧ QualificationIssue.issue_type i = "missing_mandatory"
               ∧ QualificationIssue.obligation_id i = Some (Obligation.id o))
  ∧ (∀ m slot_id, slot_dangling template_schema mapping m slot_id →
          ∃ i, i ∈ QualificationReport.issues
                     (qualify_template compiled_obligations template_schema
                        mapping)
               ∧ QualificationIssue.issue_type i = "dangling_mapping"
               ∧ QualificationIssue.obligation_id i
                 = Some (SlotMapping.obligation_id m)
               ∧ QualificationIssue.slot_id i = Some slot_id)
  ∧ (∀ m o slot_id slot,
       slot_incompatible compiled_obligations template_schema mapping
         m o slot_id slot →
       ∃ i, i ∈ QualificationReport.issues
                  (qualify_template compiled_obligations template_schema
                     mapping)
            ∧ QualificationIssue.issue_type i = "incompatible_type"
            ∧ QualificationIssue.obligation_id i = Some (Obligation.id o)
            ∧ QualificationIssue.slot_id i = Some slot_id)
  ∧ (∀ i, i ∈ QualificationReport.issues
                (qualify_template compiled_obligations template_schema
                   mapping) →
          QualificationIssue.issue_type i = "incompatible_type" →
          ∃ m o slot_id slot,
            slot_incompatible compiled_obligations template_schema mapping
              m o slot_id slot
            ∧ QualificationIssue.obligation_id i = Some (Obligation.id o)
            ∧ QualificationIssue.slot_id i = Some slot_id).
Proof.
  split; [|split; [|split; [|split; [|split]]]].
  - unfold qualify_template. simpl.
    by destruct (acc_issues _).
  - split.
    + intros Hnil.
      assert (∀ i, i ∉ QualificationReport.issues
                (qualify_template compiled_obligations template_schema mapping))
        as Hno by (intros i; rewrite Hnil; apply not_elem_of_nil).
      setoid_rewrite elem_of_qualify_template_issues in Hno.
      split; [|split].
      * intros o Ho Hm. apply dec_stable. intros Hn.
        apply (Hno (missing_mandatory_issue o)). left. by exists o.
      * intros m sid Hm Hsid. apply dec_stable. intros Hn.
        apply (Hno (dangling_mapping_issue m sid)). right. left.
        by exists m, sid.
      * intros m o sid slot Hm Ho Ha Hsid Hs.
        destruct (has_compatible (Slot.slot_type slot)
                    (Obligation.allowed_output_types o)) eqn:Hc;
          [by apply has_compatible_spec|].
        exfalso. apply (Hno (incompatible_type_issue o slot sid)).
        right. right. exists m, o, sid, slot. split; [|done].
        repeat split; try done.
        rewrite <- has_compatible_spec. by rewrite Hc.
    + intros (H1 & H2 & H3).
      destruct (QualificationReport.issues _) as [|i rest] eqn:E; [done|].
      assert (i ∈ QualificationReport.issues
                (qualify_template compiled_obligations template_schema mapping))
        as Hi by (rewrite E; apply list_elem_of_here).
      apply elem_of_qualify_template_issues in Hi
        as [(o & (Ho & Hm & Hn) & _)
           |[(m & sid & (Hm & Hsid & Hn) & _)
            |(m & o & sid & slot & (Hm & Ho & Ha & Hsid & Hs & Hn) & _)]].
      * destruct Hn. by apply H1.
      * destruct Hn. by apply (H2 m sid).
      * destruct Hn. by apply (H3 m o sid slot).
  - intros o Hv. exists (missing_mandatory_issue o). split; [|done].
    apply elem_of_qualify_template_issues. left. by exists o.
  - intros m sid Hv. exists (dangling_mapping_issue m sid). split; [|done].
    apply elem_of_qualify_template_issues. right. left. by exists m, sid.
  - intros m o sid slot Hv. exists (incompatible_type_issue o slot sid).
    split; [|done].
    apply elem_of_qualify_template_issues. right. right.
    by exists m, o, sid, slot.
  - intros i Hi Hty.
    apply elem_of_qualify_template_issues in Hi
      as [(o & _ & ->)|[(m & sid & _ & ->)|(m & o & sid & slot & Hv & ->)]];
      try discriminate.
    by exists m, o, sid, slot.
Qed.

(** tests/test_template_qualification.py: a narrative slot mapped to an
    obligation that only allows tables. *)
Example incompatible_slot_type_scenario :
  QualificationReport.status
    (qualify_template
       (CompiledObligations.mk "1.0" 0%Z []
          [Obligation.mk "MANDATORY_2" "Mandatory Obligation 2" Jurisdiction.EU
             true [] [] [] None [OutputType.TABLE] [] false])
       (TemplateSchema.mk "test_template" "Test Template" "1.0"
          [Slot.mk "slot_2" "Section 2" SlotType.NARRATIVE false []])
       (ObligationMapping.mk "test_mapping" "test_template"
          [SlotMapping.mk "MANDATORY_2" ["slot_2"] []]))
  = QualificationStatus.FAIL.
Proof. vm_compute. reflexivity. Qed.

(** An obligation that only allows tables, mapped to a narrative slot and
    followed by an obligation with the same id: the lookup table holds the
    later one, and the template qualifies. *)
Lemma shadowed_incompatible_type_counterexample :
  SlotMapping.mk "TEST.OBLIGATION" ["test_slot"] []
    ∈ ObligationMapping.mappings test_mapping
  ∧ shadowed_obligation
      ∈ CompiledObligations.obligations duplicated_compiled_obligations
  ∧ Obligation.id shadowed_obligation = "TEST.OBLIGATION"
  ∧ Obligation.allowed_output_types shadowed_obligation = [OutputType.TABLE]
  ∧ Slot.mk "test_slot" "Test Section" SlotType.NARRATIVE false []
      ∈ TemplateSchema.slots test_template
  ∧ (OutputType.TABLE ∉ compatible_outputs SlotType.NARRATIVE)
  ∧ qualify_template duplicated_compiled_obligations test_template
      test_mapping
    = QualificationReport.mk QualificationStatus.PASS "test_template"
        [] [] [] [].
Proof.
  split_and!; try (vm_compute; reflexivity).
  - apply list_elem_of_here.
  - apply list_elem_of_here.
  - apply list_elem_of_here.
  - intros Hin. apply list_elem_of_singleton in Hin. discriminate.
Qed.

(** ** Period contiguity *)

Lemma insert_by_start_date_perm p l : insert_by_start_date p l ≡ₚ p :: l.
Proof.
  induction l as [|q l IH]; simpl; [done|].
  case_bool_decide; [done|]. rewrite IH. apply Permutation_swap.
Qed.

Lemma sorted_by_start_date_perm periods :
  sorted_by_start_date periods ≡ₚ periods.
Proof.
  induction periods as [|p periods IH]; simpl; [done|].
  by rewrite insert_by_start_date_perm, IH.
Qed.

Lemma insert_by_start_date_sorted p l :
  StronglySorted start_le l → StronglySorted start_le (insert_by_start_date p l).
Proof.
  induction l as [|q l IH]; simpl; intros Hs.
  - repeat constructor.
  - apply StronglySorted_cons in Hs as [Hq Hl].
    case_bool_decide as Hle.
    + apply StronglySorted_cons. split.
      * constructor; [done|]. eapply Forall_impl; [exact Hq|].
        unfold start_le in *. intros; simpl in *; lia.
      * by apply StronglySorted_cons.
    + apply StronglySorted_cons. split; [|by apply IH].
      rewrite insert_by_start_date_perm. constructor; [|done].
      unfold start_le. lia.
Qed.

Lemma sorted_by_start_date_sorted periods :
  StronglySorted start_le (sorted_by_start_date periods).
Proof.
  induction periods as [|p periods IH]; simpl; [constructor|].
  by apply insert_by_start_date_sorted.
Qed.

(** The sort is stable: the periods that start on a given day keep the
    order they have in the input.  With the two lemmas above this fixes
    the sorted list. *)
Lemma sorted_by_start_date_stable periods (day : date) :
  filter (λ p, PSURPeriod.start_date p = day) (sorted_by_start_date periods)
  = filter (λ p, PSURPeriod.start_date p = day) periods.
Proof.
  induction periods as [|p periods IH]; simpl; [done|].
  rewrite (filter_cons _ p), <- IH. clear IH.
  induction (sorted_by_start_date periods) as [|q l IH]; simpl; [done|].
  case_bool_decide as Hle; [done|].
  rewrite !(filter_cons _ q), IH.
  repeat case_decide; try done. lia.
Qed.


Lemma flat_map_nil_iff {A B} (f : A → list B) (l : list A) :
  flat_map f l = [] ↔ ∀ x, x ∈ l → f x = [].
Proof.
  induction l as [|x l IH]; simpl.
  - split; [by intros _ ? ?%elem_of_nil | done].
  - split.
    + intros [Hx Hl]%app_eq_nil y [->|Hy]%elem_of_cons; [done|].
      by apply IH.
    + intros H. rewrite (H x) by apply list_elem_of_here. simpl.
      apply IH. intros y Hy. apply H. by apply list_elem_of_further.
Qed.

Lemma concat_imap_nil_iff {A B} (f : nat → A → list B) (l : list A) :
  concat (imap f l) = [] ↔ ∀ i x, l !! i = Some x → f i x = [].
Proof.
  revert f. induction l as [|y l IH]; intros f; simpl.
  - split; [by intros _ ? ? ? | done].
  - split.
    + intros [Hy Hl]%app_eq_nil [|i] x Hx; simpl in Hx.
      * by injection Hx as <-.
      * by apply (proj1 (IH (f ∘ S)) Hl i x).
    + intros H. rewrite (H 0 y) by done. simpl.
      apply IH. intros i x Hx. by apply (H (S i) x).
Qed.

(** No overlap message: no two positions of the sorted list overlap. *)
Lemma overlap_issues_nil sorted_periods :
  overlap_issues sorted_periods = []
  ↔ ∀ i j a b,
      sorted_periods !! i = Some a → sorted_periods !! j = Some b →
      i ≠ j → PSURPeriod.overlaps a b = false.
Proof.
  unfold overlap_issues. rewrite concat_imap_nil_iff.
  setoid_rewrite concat_imap_nil_iff.
  split.
  - intros H i j a b Hi Hj Hij. specialize (H i a Hi j b Hj).
    rewrite bool_decide_eq_true_2 in H by done. simpl in H.
    by destruct (PSURPeriod.overlaps a b).
  - intros H i a Hi j b Hj. case_bool_decide as Hij; simpl; [|done].
    by rewrite (H i j a b).
Qed.

(** [date + timedelta] returns the sum when it returns. *)
Lemma date_add_ok (d : date) (days : Z) (o : date) :
  date_add d days = ok o ↔ (0 < d + days ≤ _MAXORDINAL)%Z ∧ o = (d + days)%Z.
Proof.
  unfold date_add. cbv zeta. case_decide as Hr.
  - split; [by intros [= <-] | by intros [_ ->]].
  - split; [done | by intros [? _]].
Qed.

Lemma date_add_error (d : date) (days : Z) (e : pyerr) :
  date_add d days = raise e → e = OverflowError.
Proof. unfold date_add. cbv zeta. case_decide; by intros [= <-]. Qed.

Lemma has_gap_ok (current previous : PSURPeriod.t) (gap : bool) :
  PSURPeriod.has_gap current previous = ok gap
  ↔ (0 < PSURPeriod.end_date previous + 1 ≤ _MAXORDINAL)%Z
    ∧ gap = bool_decide (PSURPeriod.start_date current
                         ≠ (PSURPeriod.end_date previous + 1)%Z).
Proof.
  unfold PSURPeriod.has_gap.
  destruct (date_add (PSURPeriod.end_date previous) 1) as [e|o] eqn:Ho.
  - split; [done|]. intros [Hr _].
    assert (date_add (PSURPeriod.end_date previous) 1
            = ok (PSURPeriod.end_date previous + 1)%Z) as Ho'
      by (by apply date_add_ok).
    by rewrite Ho in Ho'.
  - apply date_add_ok in Ho as [Hr ->]. simpl.
    split; [by intros [= <-] | by intros [_ ->]].
Qed.

(** No two neighbours leave a gap: each starts the day after its
    predecessor ends. *)
Lemma has_gap_false (current previous : PSURPeriod.t) :
  PSURPeriod.has_gap current previous = ok false
  ↔ (0 < PSURPeriod.end_date previous + 1 ≤ _MAXORDINAL)%Z
    ∧ PSURPeriod.start_date current = (PSURPeriod.end_date previous + 1)%Z.
Proof.
  rewrite has_gap_ok. split.
  - intros [Hr Hb]. split; [done|]. symmetry in Hb.
    apply bool_decide_eq_false in Hb. by apply dec_stable.
  - intros [Hr He]. split; [done|]. symmetry. apply bool_decide_eq_false.
    by intros Hne.
Qed.


Lemma concat_mapM_nil_iff {A B} (f : A → result (list B)) (l : list A) :
  @concat B <$> mapM f l = ok [] ↔ ∀ x, x ∈ l → f x = ok [].
Proof.
  induction l as [|x l IH]; simpl.
  - split; [by intros _ ? ?%elem_of_nil | done].
  - split.
    + intros Hc y Hy.
      destruct (f x) as [e|ys] eqn:Hx; simpl in Hc; [done|].
      destruct (mapM f l) as [e|yss] eqn:Hl; simpl in Hc; [done|].
      injection Hc as Hc. apply app_eq_nil in Hc as [-> Hc].
      apply elem_of_cons in Hy as [->|Hy]; [done|].
      apply IH; [|done]. simpl. by rewrite Hc.
    + intros Hall. rewrite (Hall x) by apply list_elem_of_here. simpl.
      assert (@concat B <$> mapM f l = ok []) as Hl.
      { apply IH. intros y Hy. apply Hall. by apply list_elem_of_further. }
      destruct (mapM f l) as [e|yss]; simpl in *; [done|].
      injection Hl as ->. done.
Qed.


Lemma validate_period_contiguity_valid `{DateStr} periods :
  fst <$> validate_period_contiguity periods = ok true
  ↔ overlap_issues (sorted_by_start_date periods) = []
    ∧ gap_issues (sorted_by_start_date periods) = ok [].
Proof.
  unfold validate_period_contiguity. destruct periods as [|p periods].
  - simpl. done.
  - remember (p :: periods) as ps. cbv zeta.
    destruct (gap_issues (sorted_by_start_date ps)) as [e|gaps]; simpl.
    + split; [done | by intros [_ ?]].
    + split.
      * intros [= Hv]. apply bool_decide_eq_true, length_zero_iff_nil in Hv.
        apply app_eq_nil in Hv as [-> ->]. done.
      * intros [-> [= ->]]. done.
Qed.

(** When the answer is valid the list of issues is empty. *)
Lemma validate_period_contiguity_true `{DateStr} periods issues :
  validate_period_contiguity periods = ok (true, issues) → issues = [].
Proof.
  unfold validate_period_contiguity. destruct periods as [|p periods].
  - by intros [= <-].
  - remember (p :: periods) as ps. cbv zeta.
    destruct (gap_issues (sorted_by_start_date ps)) as [e|gaps]; simpl;
      [done|].
    intros [= Hv <-]. by apply bool_decide_eq_true, length_zero_iff_nil in Hv.
Qed.



(** Scenarios 5 and 6 of the specification, and the contiguous pair of the
    test suite. *)
Example gap_scenario :
  (validate_period_contiguity (H := iso_days) [period_2023_short; period_2024])
  = ok (false,
        ["Gap between p1 (ends 738854) and p2 (starts 738886). "
           +:+ "Expected start: 738855"]).
Proof. vm_compute. reflexivity. Qed.

Example overlap_scenario :
  ∃ issues,
    validate_period_contiguity (H := iso_days) [period_2023_long; period_2024]
    = ok (false, issues)
    ∧ "Period p1 overlaps with p2" ∈ issues.
Proof.
  eexists. split; [vm_compute; reflexivity|]. apply list_elem_of_here.
Qed.

(** A period that ends on 9999-12-31 and is not the last one. *)
Example overflow_scenario :
  validate_period_contiguity (H := iso_days)
    [PSURPeriod.mk "p1" "PSUR-001" 3651695%Z 3652059%Z Jurisdiction.EU None;
     PSURPeriod.mk "p2" "PSUR-002" 3651700%Z 3652059%Z Jurisdiction.EU None]
  = raise OverflowError.
Proof. vm_compute. reflexivity. Qed.

Example contiguous_scenario :
  validate_period_contiguity (H := iso_days) [period_2024; period_2023]
  = ok (true, []).
Proof. vm_compute. reflexivity. Qed.

(* ===================================================================== *)
(** * Further properties *)
(* ===================================================================== *)

(** ** Adjudication: verdict, checks and reasons *)

Lemma filter_Forall_id {A} (P : A → Prop) `{!∀ x, Decision (P x)}
  (l : list A) :
  Forall P l → filter P l = l.
Proof.
  induction 1 as [|x l Hx _ IH]; [done|].
  by rewrite filter_cons_True, IH.
Qed.

Section adjudication_verdict.
Context {transformation_order : SetOrder Transformation.t}.
Context {evidence_type_order : SetOrder EvidenceType.t}.

Import AdjudicationEngine.

Lemma reasons_all_blocking self proposal evidence_atoms obligation_ids :
  filter (λ r, RejectionReason.rule_type r ≠ "warning")
    (flat_map (reasons_for self proposal evidence_atoms) obligation_ids)
  = flat_map (reasons_for self proposal evidence_atoms) obligation_ids.
Proof.
  apply filter_Forall_id, Forall_forall. intros r Hr.
  apply list_elem_of_In, in_flat_map in Hr as (oid & _ & Hr).
  apply list_elem_of_In, reasons_for_rule_type in Hr as [-> _].
  discriminate.
Qed.

Lemma reasons_for_nil self proposal evidence_atoms obligation_id :
  reasons_for self proposal evidence_atoms obligation_id = []
  ↔ ∀ c, c ∈ checks_for self proposal evidence_atoms obligation_id →
         CheckResult.passed c = true.
Proof.
  unfold reasons_for, checks_for.
  destruct (_obligation_lookup self !! obligation_id) as [o|];
    [|split; [by intros _ c ?%elem_of_nil | done]].
  unfold reject_unless_passed. split.
  - intros H c Hc.
    apply app_eq_nil in H as [H1 [H2 H3]%app_eq_nil].
    rewrite !elem_of_cons, elem_of_nil in Hc.
    destruct Hc as [->|[->|[->|[]]]].
    + by destruct (CheckResult.passed (_check_evidence_types _ _ _)).
    + by destruct (CheckResult.passed (_check_time_scope _ _ _)).
    + by destruct (CheckResult.passed (_check_transformations _ _)).
  - intros H.
    rewrite (H (_check_evidence_types proposal o evidence_atoms))
      by apply list_elem_of_here.
    rewrite (H (_check_time_scope proposal o evidence_atoms))
      by (apply list_elem_of_further, list_elem_of_here).
    rewrite (H (_check_transformations proposal o))
      by (do 2 apply list_elem_of_further; apply list_elem_of_here).
    done.
Qed.

(** X1.  An adjudication is ACCEPTED exactly when it carries no rejection
    reason (no reason is ever a mere warning), and, for a proposal whose
    slot exists, exactly when every recorded check passed. *)
Theorem accepted_iff_no_rejection self proposal evidence_atoms uuid4 utcnow :
  (AdjudicationResult.status
     (adjudicate self proposal evidence_atoms uuid4 utcnow)
     = AdjudicationStatus.ACCEPTED
   ↔ AdjudicationResult.rejection_reasons
       (adjudicate self proposal evidence_atoms uuid4 utcnow) = [])
  ∧ (SlotProposal.slot_id proposal
       ∈ Slot.slot_id <$> TemplateSchema.slots (template self) →
     (AdjudicationResult.status
        (adjudicate self proposal evidence_atoms uuid4 utcnow)
        = AdjudicationStatus.ACCEPTED
      ↔ ∀ c, c ∈ AdjudicationResult.check_results
                   (adjudicate self proposal evidence_atoms uuid4 utcnow) →
             CheckResult.passed c = true)).
Proof.
  destruct (TemplateSchema.get_slot (template self)
              (SlotProposal.slot_id proposal)) as [slot|] eqn:Hslot.
  - rewrite (adjudicate_slot_exists _ _ _ _ _ _ Hslot). simpl.
    unfold verdict. rewrite reasons_all_blocking.
    assert (∀ l : list RejectionReason.t,
              match l with
              | [] => AdjudicationStatus.ACCEPTED
              | _ :: _ => AdjudicationStatus.REJECTED
              end = AdjudicationStatus.ACCEPTED ↔ l = [])
      as Hcase by (by intros []).
    split; [apply Hcase|]. intros _. rewrite Hcase, flat_map_nil_iff.
    split.
    + intros Hnil c [Hc|Hc]%elem_of_app.
      * apply list_elem_of_In, in_flat_map in Hc as (oid & Hoid & Hc).
        apply list_elem_of_In in Hoid, Hc.
        by apply (proj1 (reasons_for_nil _ _ _ _) (Hnil oid Hoid)).
      * by eapply Forall_forall in Hc;
          [|apply _evaluate_constraints_passed].
    + intros Hall oid Hoid. apply reasons_for_nil. intros c Hc.
      apply Hall, elem_of_app. left.
      apply list_elem_of_In, in_flat_map. exists oid.
      split; by apply list_elem_of_In.
  - split.
    + unfold adjudicate. rewrite Hslot. simpl. split; discriminate.
    + intros [slot' Hs]%find_slot_is_Some.
      unfold TemplateSchema.get_slot in Hslot. congruence.
Qed.

(** X2.  The time-scope check never rejects: whatever the obligation's
    required_time_scope, no rejection reason has rule id TIME_SCOPE and
    every check result named time_scope has passed. *)
Theorem time_scope_never_rejects self proposal evidence_atoms uuid4 utcnow :
  (∀ r, r ∈ AdjudicationResult.rejection_reasons
              (adjudicate self proposal evidence_atoms uuid4 utcnow) →
        RejectionReason.rule_id r ≠ "TIME_SCOPE")
  ∧ (∀ c, c ∈ AdjudicationResult.check_results
                (adjudicate self proposal evidence_atoms uuid4 utcnow) →
          CheckResult.check_id c = "time_scope" →
          CheckResult.passed c = true).
Proof.
  assert (∀ o, CheckResult.passed
                 (_check_time_scope proposal o evidence_atoms) = true)
    as Htime.
  { intros o. unfold _check_time_scope.
    by destruct (Obligation.required_time_scope o) as [[|??]|]. }
  destruct (TemplateSchema.get_slot (template self)
              (SlotProposal.slot_id proposal)) as [slot|] eqn:Hslot.
  - rewrite (adjudicate_slot_exists _ _ _ _ _ _ Hslot). simpl. split.
    + intros r Hr. apply list_elem_of_In, in_flat_map in Hr as (oid & _ & Hr).
      apply list_elem_of_In in Hr. unfold reasons_for in Hr.
      destruct (_obligation_lookup self !! oid) as [o|];
        [|by apply elem_of_nil in Hr].
      unfold reject_unless_passed in Hr. rewrite Htime in Hr. simpl in Hr.
      apply elem_of_app in Hr as [Hr|Hr]; destruct (negb _); simpl in Hr;
        try (by apply elem_of_nil in Hr);
        apply list_elem_of_singleton in Hr; subst r; discriminate.
    + intros c [Hc|Hc]%elem_of_app Hid.
      * apply list_elem_of_In, in_flat_map in Hc as (oid & _ & Hc).
        apply list_elem_of_In in Hc. unfold checks_for in Hc.
        destruct (_obligation_lookup self !! oid) as [o|];
          [|by apply elem_of_nil in Hc].
        rewrite !elem_of_cons, elem_of_nil in Hc.
        destruct Hc as [->|[->|[->|[]]]]; [exfalso|apply Htime|exfalso];
          revert Hid; unfold _check_evidence_types, _check_transformations;
          repeat (case_match; simpl; try discriminate).
      * by eapply Forall_forall in Hc;
          [|apply _evaluate_constraints_passed].
  - unfold adjudicate. rewrite Hslot. simpl. split.
    + intros r ->%list_elem_of_singleton. discriminate.
    + by intros c ?%elem_of_nil.
Qed.
End adjudication_verdict.

Section adjudication_invariants.
Context {transformation_order : SetOrder Transformation.t}.
Context {evidence_type_order : SetOrder EvidenceType.t}.

Import AdjudicationEngine.

Lemma reasons_for_length self proposal evidence_atoms obligation_id :
  length (reasons_for self proposal evidence_atoms obligation_id)
  = length (filter (λ c, CheckResult.passed c = false)
              (checks_for self proposal evidence_atoms obligation_id)).
Proof.
  unfold reasons_for, checks_for, reject_unless_passed.
  destruct (_obligation_lookup self !! obligation_id) as [o|]; [|done].
  rewrite !filter_cons, filter_nil.
  destruct (CheckResult.passed (_check_evidence_types _ _ _)),
    (CheckResult.passed (_check_time_scope _ _ _)),
    (CheckResult.passed (_check_transformations _ _)); done.
Qed.

(** X3.  For a proposal whose slot exists, the rejection reasons are as
    many as the check results that did not pass: every failed check is
    reported once, and nothing else is. *)
Theorem one_reason_per_failed_check self proposal evidence_atoms uuid4
  utcnow :
  SlotProposal.slot_id proposal
    ∈ Slot.slot_id <$> TemplateSchema.slots (template self) →
  length (AdjudicationResult.rejection_reasons
            (adjudicate self proposal evidence_atoms uuid4 utcnow))
  = length (filter (λ c, CheckResult.passed c = false)
              (AdjudicationResult.check_results
                 (adjudicate self proposal evidence_atoms uuid4 utcnow))).
Proof.
  intros [slot Hslot]%find_slot_is_Some.
  rewrite (adjudicate_slot_exists _ _ _ _ _ _ Hslot). simpl.
  rewrite filter_app, length_app.
  assert (filter (λ c, CheckResult.passed c = false)
            (_evaluate_constraints self proposal evidence_atoms) = [])
    as ->.
  { pose proof (_evaluate_constraints_passed self proposal evidence_atoms)
      as Hall.
    induction Hall as [|c cs Hc _ IH]; [done|].
    rewrite filter_cons_False by congruence. done. }
  simpl. rewrite Nat.add_0_r.
  induction (ObligationMapping.get_obligations_for_slot _ _)
    as [|oid ids IH]; simpl; [done|].
  by rewrite filter_app, !length_app, IH, reasons_for_length.
Qed.

(** X4.  A proposal for a slot of the template that no resolvable
    obligation is mapped to is ACCEPTED whatever it declares: no
    obligation check runs, and the check results are the constraint
    results alone. *)
Theorem unmapped_slot_accepted self proposal evidence_atoms uuid4 utcnow :
  SlotProposal.slot_id proposal
    ∈ Slot.slot_id <$> TemplateSchema.slots (template self) →
  (∀ obligation_id,
     obligation_id
       ∈ ObligationMapping.get_obligations_for_slot (mapping self)
           (SlotProposal.slot_id proposal) →
     _obligation_lookup self !! obligation_id = None) →
  AdjudicationResult.status
    (adjudicate self proposal evidence_atoms uuid4 utcnow)
    = AdjudicationStatus.ACCEPTED
  ∧ AdjudicationResult.rejection_reasons
      (adjudicate self proposal evidence_atoms uuid4 utcnow) = []
  ∧ AdjudicationResult.check_results
      (adjudicate self proposal evidence_atoms uuid4 utcnow)
    = _evaluate_constraints self proposal evidence_atoms.
Proof.
  intros [slot Hslot]%find_slot_is_Some Hnone.
  rewrite (adjudicate_slot_exists _ _ _ _ _ _ Hslot). simpl.
  assert (flat_map (reasons_for self proposal evidence_atoms)
            (ObligationMapping.get_obligations_for_slot (mapping self)
               (SlotProposal.slot_id proposal)) = []) as ->.
  { apply flat_map_nil_iff. intros oid Hoid. unfold reasons_for.
    by rewrite (Hnone oid Hoid). }
  assert (flat_map (checks_for self proposal evidence_atoms)
            (ObligationMapping.get_obligations_for_slot (mapping self)
               (SlotProposal.slot_id proposal)) = []) as ->.
  { apply flat_map_nil_iff. intros oid Hoid. unfold checks_for.
    by rewrite (Hnone oid Hoid). }
  done.
Qed.

(** X5.  The verdict reads four fields of a proposal only: two proposals
    with the same proposal id, slot id, evidence atoms and transformations
    get the same result.  The payload, the claimed basis, the agent and
    the submission time are never looked at. *)
Theorem adjudicate_reads_four_fields self p1 p2 evidence_atoms uuid4 utcnow :
  SlotProposal.proposal_id p1 = SlotProposal.proposal_id p2 →
  SlotProposal.slot_id p1 = SlotProposal.slot_id p2 →
  SlotProposal.evidence_atoms p1 = SlotProposal.evidence_atoms p2 →
  SlotProposal.transformations_used p1
    = SlotProposal.transformations_used p2 →
  adjudicate self p1 evidence_atoms uuid4 utcnow
  = adjudicate self p2 evidence_atoms uuid4 utcnow.
Proof.
  destruct p1, p2. simpl. intros -> -> -> ->. reflexivity.
Qed.
End adjudication_invariants.

Section adjudication_composition.
Context {transformation_order : SetOrder Transformation.t}.
Context {evidence_type_order : SetOrder EvidenceType.t}.

Import AdjudicationEngine.

Lemma present_types_mono p1 p2 (ev1 ev2 : gmap string EvidenceAtom.t) :
  SlotProposal.evidence_atoms p1 ⊆ SlotProposal.evidence_atoms p2 →
  ev1 ⊆ ev2 →
  present_types p1 ev1 ⊆ present_types p2 ev2.
Proof.
  intros Hatoms Hstore ty.
  rewrite !elem_of_present_types.
  intros (aid & atom & Hin & Hlk & Hty). exists aid, atom.
  split; [by apply Hatoms|]. split; [|done].
  by eapply lookup_weaken.
Qed.

Lemma _check_evidence_types_mono p1 p2 o
  (ev1 ev2 : gmap string EvidenceAtom.t) :
  SlotProposal.evidence_atoms p1 ⊆ SlotProposal.evidence_atoms p2 →
  ev1 ⊆ ev2 →
  CheckResult.passed (_check_evidence_types p1 o ev1) = true →
  CheckResult.passed (_check_evidence_types p2 o ev2) = true.
Proof.
  intros Hatoms Hstore Hpass.
  destruct (Obligation.required_evidence_types o) as [|ty tys] eqn:Hreq.
  { unfold _check_evidence_types. by rewrite Hreq. }
  assert (Obligation.required_evidence_types o ≠ []) as Hne
    by (by rewrite Hreq).
  destruct (_check_evidence_types_cases p2 o ev2 Hne)
    as [(Hmiss2 & Habs & _)|[_ ?]]; [exfalso|done].
  destruct (_check_evidence_types_cases p1 o ev1 Hne)
    as [(_ & _ & Hfail & _)|[[Habs1|Hmiss1] _]]; [congruence..|].
  apply Hmiss2. unfold missing_types in *.
  pose proof (present_types_mono p1 p2 ev1 ev2 Hatoms Hstore).
  set_solver.
Qed.

Lemma _check_transformations_anti p1 p2 o :
  SlotProposal.transformations_used p2
    ⊆ SlotProposal.transformations_used p1 →
  CheckResult.passed (_check_transformations p1 o) = true →
  CheckResult.passed (_check_transformations p2 o) = true.
Proof.
  intros Hused. rewrite !_check_transformations_passed.
  intros Hok Hbad. apply Hok. unfold transformation_violation in *.
  assert (list_to_set (SlotProposal.transformations_used p2)
            ⊆@{gset Transformation.t}
          list_to_set (SlotProposal.transformations_used p1)) as Hsub.
  { intros t. rewrite !elem_of_list_to_set. apply Hused. }
  destruct Hbad as [Hf|[Ha Hs]].
  - left. set_solver.
  - right. split; [done|]. set_solver.
Qed.

(** X6.  Acceptance is monotone: when a proposal is ACCEPTED, a proposal
    for the same slot that cites at least the same atoms, against a store
    that holds at least the same atoms, and declares no further
    transformation, is ACCEPTED too. *)
Theorem acceptance_monotone self p1 p2
  (ev1 ev2 : gmap string EvidenceAtom.t) uuid4 utcnow uuid4' utcnow' :
  SlotProposal.slot_id p1 = SlotProposal.slot_id p2 →
  SlotProposal.evidence_atoms p1 ⊆ SlotProposal.evidence_atoms p2 →
  ev1 ⊆ ev2 →
  SlotProposal.transformations_used p2
    ⊆ SlotProposal.transformations_used p1 →
  AdjudicationResult.status (adjudicate self p1 ev1 uuid4 utcnow)
    = AdjudicationStatus.ACCEPTED →
  AdjudicationResult.status (adjudicate self p2 ev2 uuid4' utcnow')
    = AdjudicationStatus.ACCEPTED.
Proof.
  intros Hslot Hatoms Hstore Hused.
  destruct (TemplateSchema.get_slot (template self)
              (SlotProposal.slot_id p1)) as [slot|] eqn:Hs1.
  - assert (TemplateSchema.get_slot (template self)
              (SlotProposal.slot_id p2) = Some slot) as Hs2
      by (by rewrite <- Hslot).
    rewrite (adjudicate_slot_exists _ _ _ _ _ _ Hs1).
    rewrite (adjudicate_slot_exists _ _ _ _ _ _ Hs2). simpl.
    rewrite <- Hslot. unfold verdict. rewrite !reasons_all_blocking.
    intros Hacc.
    assert (flat_map (reasons_for self p1 ev1)
              (ObligationMapping.get_obligations_for_slot (mapping self)
                 (SlotProposal.slot_id p1)) = []) as Hnil
      by (by destruct (flat_map _ _)).
    assert (flat_map (reasons_for self p2 ev2)
              (ObligationMapping.get_obligations_for_slot (mapping self)
                 (SlotProposal.slot_id p1)) = []) as ->; [|done].
    rewrite flat_map_nil_iff in Hnil. apply flat_map_nil_iff.
    intros oid Hoid. specialize (Hnil oid Hoid).
    rewrite reasons_for_nil in Hnil. apply reasons_for_nil.
    unfold checks_for in *.
    destruct (_obligation_lookup self !! oid) as [o|];
      [|by intros c ?%elem_of_nil].
    intros c. rewrite !elem_of_cons, elem_of_nil.
    intros [->|[->|[->|[]]]].
    + apply (_check_evidence_types_mono p1 p2 o ev1 ev2 Hatoms Hstore).
      apply Hnil, list_elem_of_here.
    + unfold _check_time_scope.
      by destruct (Obligation.required_time_scope o) as [[|??]|].
    + apply (_check_transformations_anti p1 p2 o Hused).
      apply Hnil. do 2 apply list_elem_of_further. apply list_elem_of_here.
  - unfold adjudicate at 1. rewrite Hs1. simpl. discriminate.
Qed.

(** X7.  Qualification and adjudication compose: under a template that
    qualifies with PASS, a proposal for any slot a mapping entry refers to
    is never turned away at the slot check, and the entry's obligation is
    among those the engine looks up for it. *)
Theorem qualified_slot_is_adjudicated co cr ts mp m proposal evidence_atoms
  uuid4 utcnow :
  QualificationReport.status (qualify_template co ts mp)
    = QualificationStatus.PASS →
  m ∈ ObligationMapping.mappings mp →
  SlotProposal.slot_id proposal ∈ SlotMapping.slot_ids m →
  SlotMapping.obligation_id m
    ∈ ObligationMapping.get_obligations_for_slot mp
        (SlotProposal.slot_id proposal)
  ∧ ∀ r, r ∈ AdjudicationResult.rejection_reasons
               (adjudicate (__init__ co cr ts mp) proposal evidence_atoms
                  uuid4 utcnow) →
         RejectionReason.rule_type r = "obligation"
         ∧ RejectionReason.rule_id r ≠ "SLOT_EXISTS".
Proof.
  intros Hpass Hm Hsid. split.
  - unfold ObligationMapping.get_obligations_for_slot.
    apply list_elem_of_fmap. exists m. split; [done|].
    by apply list_elem_of_filter.
  - assert (QualificationReport.issues (qualify_template co ts mp) = [])
      as Hnil.
    { revert Hpass. unfold qualify_template. simpl.
      by destruct (acc_issues _). }
    assert (SlotProposal.slot_id proposal
              ∈ Slot.slot_id <$> TemplateSchema.slots ts) as Hslot.
    { apply dec_stable. intros Hn.
      assert (dangling_mapping_issue m (SlotProposal.slot_id proposal)
                ∈ QualificationReport.issues (qualify_template co ts mp))
        as Hi.
      { apply elem_of_qualify_template_issues. right. left.
        by exists m, (SlotProposal.slot_id proposal). }
      rewrite Hnil in Hi. by apply elem_of_nil in Hi. }
    apply find_slot_is_Some in Hslot as [slot Hslot].
    intros r.
    rewrite (adjudicate_slot_exists (__init__ co cr ts mp) _ _ _ _ _ Hslot).
    simpl. intros Hr.
    apply list_elem_of_In, in_flat_map in Hr as (oid & _ & Hr).
    apply list_elem_of_In in Hr.
    split; [by apply reasons_for_rule_type in Hr as [? _]|].
    unfold reasons_for in Hr.
    destruct (_ !! oid) as [o|]; [|by apply elem_of_nil in Hr].
    unfold reject_unless_passed in Hr. rewrite !elem_of_app in Hr.
    destruct Hr as [Hr|[Hr|Hr]]; destruct (negb _); simpl in Hr;
      try (by apply elem_of_nil in Hr);
      apply list_elem_of_singleton in Hr; subst r; discriminate.
Qed.
End adjudication_composition.

(** ** Trace: paragraphs, identifiers and completeness *)

Lemma lstrip_head s c r : lstrip s = String c r → is_space c = false.
Proof.
  induction s as [|a s IH]; simpl; [done|].
  destruct (is_space a) eqn:Ha; [done|]. by intros [= <- _].
Qed.

Lemma rstrip_idemp s : rstrip (rstrip s) = rstrip s.
Proof.
  induction s as [|a s IH]; simpl; [done|].
  destruct (is_space a && negb (str_truthy (rstrip s))) eqn:E; [done|].
  simpl. by rewrite IH, E.
Qed.

Lemma lstrip_rstrip_lstrip s : lstrip (rstrip (lstrip s)) = rstrip (lstrip s).
Proof.
  destruct (lstrip s) as [|c r] eqn:E; [done|].
  apply lstrip_head in E. simpl. rewrite E. simpl. by rewrite E.
Qed.

Lemma strip_idemp s : strip (strip s) = strip s.
Proof. unfold strip. by rewrite lstrip_rstrip_lstrip, rstrip_idemp. Qed.

Lemma all_space_app s1 s2 :
  all_space (s1 +:+ s2) = all_space s1 && all_space s2.
Proof.
  induction s1 as [|c s1 IH]; simpl; [done|]. by rewrite IH, andb_assoc.
Qed.

Lemma lstrip_all_space s : all_space (lstrip s) = all_space s.
Proof.
  induction s as [|c s IH]; simpl; [done|].
  destruct (is_space c) eqn:E; simpl; [done|]. by rewrite E.
Qed.

Lemma rstrip_truthy s : str_truthy (rstrip s) = negb (all_space s).
Proof.
  induction s as [|c s IH]; simpl; [done|].
  rewrite IH. destruct (is_space c), (all_space s); done.
Qed.

Lemma strip_truthy s : str_truthy (strip s) = negb (all_space s).
Proof. unfold strip. by rewrite rstrip_truthy, lstrip_all_space. Qed.

Lemma prefix_two_newlines s :
  String.prefix (NL +:+ NL) s = true →
  ∃ r, s = String newline (String newline r).
Proof.
  change (NL +:+ NL) with (String newline (String newline EmptyString)).
  destruct s as [|c [|d r]]; cbn [String.prefix]; try done.
  - destruct (Ascii.ascii_dec newline c); cbn [String.prefix]; done.
  - destruct (Ascii.ascii_dec newline c) as [<-|]; [|done].
    destruct (Ascii.ascii_dec newline d) as [<-|]; [|done].
    by eexists.
Qed.

(** When every piece of a cut at two adjacent newlines is whitespace, so
    is the text: the characters the cut drops are newlines. *)
Lemma split_go_all_space (s : string) (skip : nat) (cur : string) :
  (skip ≤ 1)%nat →
  (skip = 1%nat → ∃ s', s = String newline s') →
  forallb all_space (split_go (NL +:+ NL) s skip cur) = true →
  all_space cur = true ∧ all_space s = true.
Proof.
  revert skip cur. induction s as [|c s IH]; intros skip cur Hle Hskip;
    cbn [split_go].
  - cbn [forallb all_space]. rewrite andb_true_r. done.
  - destruct skip as [|k].
    + destruct (String.prefix (NL +:+ NL) (String c s)) eqn:Hp.
      * apply prefix_two_newlines in Hp as [r [= -> ->]].
        cbn [forallb]. intros [Hcur Hrest]%andb_true_iff. split; [done|].
        apply (IH 1%nat EmptyString) in Hrest as [_ Hs];
          [|lia|intros _; by eexists].
        change (all_space (String newline (String newline r)))
          with (all_space (String newline r)). done.
      * intros Hrest. apply (IH 0%nat) in Hrest as [Hcur Hs]; [|lia|done].
        rewrite all_space_app in Hcur. cbn [all_space] in *.
        rewrite andb_true_r in Hcur. apply andb_true_iff in Hcur as [? ->].
        by rewrite Hs.
    + assert (k = 0%nat) as -> by lia.
      destruct (Hskip eq_refl) as [s' [= -> ->]].
      intros Hrest. apply (IH 0%nat) in Hrest as [Hcur Hs]; [|lia|done].
      done.
Qed.

(** X8.  The whole-text fallback of the narrative fragmentation never
    fires: the fragments are always the trimmed non-blank pieces of the
    text cut at two adjacent newlines. *)
Theorem narrative_fallback_unreachable (content : string) :
  narrative_paragraphs content
  = strip <$> filter (λ p, str_truthy (strip p) = true)
                (split content (NL +:+ NL)).
Proof.
  unfold narrative_paragraphs.
  destruct (strip <$> filter _ (split content (NL +:+ NL)))
    as [|f fs] eqn:E; [|done].
  apply fmap_nil_inv in E.
  assert (forallb all_space (split content (NL +:+ NL)) = true) as Hall.
  { apply forallb_forall. intros p Hp%list_elem_of_In.
    destruct (all_space p) eqn:Hsp; [done|]. exfalso.
    assert (p ∈ filter (λ p, str_truthy (strip p) = true)
                  (split content (NL +:+ NL))) as Hin.
    { apply list_elem_of_filter. split; [|done].
      by rewrite strip_truthy, Hsp. }
    rewrite E in Hin. by apply elem_of_nil in Hin. }
  apply (split_go_all_space content 0 EmptyString) in Hall as [_ Hall];
    [|lia|lia].
  by rewrite strip_truthy, Hall.
Qed.

Section trace_properties.
Context {repr_builtin : PyRepr}.
Variable utcnow : nat → datetime.

Import TraceGenerator.

(** X9.  No narrative trace node is empty or padded: the content of each
    is non-empty and has no leading or trailing whitespace. *)
Theorem narrative_fragments_trimmed proposal adjudication nodes node :
  generate_trace utcnow proposal adjudication SlotType.NARRATIVE
    = inr nodes →
  node ∈ nodes →
  TraceNode.fragment_content node ≠ ""
  ∧ strip (TraceNode.fragment_content node) = TraceNode.fragment_content node
  ∧ TraceNode.fragment_type node = "paragraph".
Proof.
  unfold generate_trace. case_decide; [done|]. unfold _trace_narrative.
  destruct (narrative_content proposal) as [e|content]; simpl; [done|].
  intros [= <-] (i & f & -> & Hf)%elem_of_lookup_imap. simpl.
  apply list_elem_of_lookup_2 in Hf.
  assert (str_truthy f = true ∧ strip f = f) as [Ht Hs].
  { unfold narrative_paragraphs in Hf.
    destruct (strip <$> filter _ (split content (NL +:+ NL)))
      as [|g gs] eqn:E.
    - destruct (str_truthy (strip content)) eqn:Hc;
        [|by apply elem_of_nil in Hf].
      apply list_elem_of_singleton in Hf as ->.
      split; [done | apply strip_idemp].
    - rewrite <- E in Hf.
      apply list_elem_of_fmap in Hf as (p & -> & Hp).
      apply list_elem_of_filter in Hp as [Hp _].
      split; [done | apply strip_idemp]. }
  split; [|done]. intros Hnil. by rewrite Hnil in Ht.
Qed.
End trace_properties.

Section trace_round_trips.
Context {repr_builtin : PyRepr}.
Variable utcnow : nat → datetime.

Import TraceGenerator.

(** X10.  The trace a proposal generates validates against that proposal
    exactly when it has a node: a generated trace is complete unless the
    payload has no fragment at all, in which case validation answers
    false. *)
Theorem generated_trace_validates proposal adjudication slot_type nodes :
  generate_trace utcnow proposal adjudication slot_type = inr nodes →
  validate_trace_completeness proposal nodes slot_type
  = inr (bool_decide (nodes ≠ [])).
Proof.
  intros Hgen.
  destruct (decide (AdjudicationResult.status adjudication
                      = AdjudicationStatus.ACCEPTED)) as [Hacc|Hrej].
  - rewrite (generate_trace_accepted _ _ _ _ Hacc) in Hgen.
    destruct (payload_fragments proposal slot_type) as [e|fragments]
      eqn:Hfr; simpl in Hgen; [done|].
    injection Hgen as <-.
    rewrite (validate_trace_completeness_fragments _ _ _ _ Hfr).
    rewrite length_imap, Nat.leb_refl, andb_true_r. done.
  - unfold generate_trace in Hgen. by rewrite decide_True in Hgen.
Qed.

(** X11.  The trace ids of one generated trace are pairwise different. *)
Theorem trace_ids_distinct proposal adjudication slot_type nodes :
  generate_trace utcnow proposal adjudication slot_type = inr nodes →
  NoDup (TraceNode.trace_id <$> nodes).
Proof.
  intros Hgen.
  destruct (decide (AdjudicationResult.status adjudication
                      = AdjudicationStatus.ACCEPTED)) as [Hacc|Hrej].
  - rewrite (generate_trace_accepted _ _ _ _ Hacc) in Hgen.
    destruct (payload_fragments proposal slot_type) as [e|fragments];
      simpl in Hgen; [done|].
    injection Hgen as <-.
    assert (TraceNode.trace_id
              <$> imap (make_node utcnow proposal adjudication
                          (fragment_type_of slot_type)) fragments
            = (λ i, AdjudicationResult.adjudication_id adjudication
                      +:+ "-" +:+ str_of_nat i)
                <$> seq 0 (length fragments)) as ->.
    { rewrite <- (make_node_indices utcnow proposal adjudication
                    (fragment_type_of slot_type) fragments).
      rewrite <- list_fmap_compose. apply list_fmap_ext.
      by intros i node (j & f & -> & _)%list_elem_of_lookup_2
                                        %elem_of_lookup_imap. }
    apply NoDup_fmap_2_strong; [|apply NoDup_seq].
    intros i j _ _ Heq.
    apply (inj (String.app _)) in Heq.
    apply (inj (String.app _)) in Heq.
    by apply (inj pretty) in Heq.
  - unfold generate_trace in Hgen. by rewrite decide_True in Hgen.
Qed.

Lemma kv_items_as_list (d : pydict) :
  kv_items (kv_pairs_as_list d) = kv_items (PDict d).
Proof.
  unfold kv_items, kv_pairs_as_list, py_iter. simpl.
  induction d as [|[k v] d IH]; [done|].
  rewrite !fmap_cons. cbn [mapM]. rewrite IH. done.
Qed.

(** X12.  The two shapes of a key-value payload are interchangeable: a
    list of {key, value} records yields the fragments of the dict with
    the same pairs in the same order. *)
Theorem kv_shapes_agree (p1 p2 : SlotProposal.t) (d : pydict) :
  dict_get (SlotProposal.payload p1) "pairs" (PDict []) = PDict d →
  dict_get (SlotProposal.payload p2) "pairs" (PDict [])
    = kv_pairs_as_list d →
  payload_fragments p2 SlotType.KV = payload_fragments p1 SlotType.KV
  ∧ payload_fragments p1 SlotType.KV
    = inr ((λ kv, kv.1 +:+ ": " +:+ py_str kv.2) <$> d).
Proof.
  intros H1 H2. unfold payload_fragments. rewrite H1, H2.
  rewrite kv_items_as_list. split; [done|].
  simpl. unfold ok. f_equal. rewrite <- list_fmap_compose.
  apply list_fmap_ext. by intros i [k v] _.
Qed.

Lemma dict_get_absent (d : pydict) key default :
  key ∉ d.*1 → dict_get d key default = default.
Proof.
  induction d as [|[k v] d IH]; simpl; [done|].
  intros Hn. apply not_elem_of_cons in Hn as [Hne Hn].
  destruct (String.eqb k key) eqn:E; [|by apply IH].
  apply String.eqb_eq in E. congruence.
Qed.

(** X13.  A payload that lacks the key of its slot type is no error: an
    accepted proposal then gets an empty trace, and nothing is expected
    of a trace list but to be non-empty. *)
Theorem missing_payload_key proposal adjudication slot_type traces :
  AdjudicationResult.status adjudication = AdjudicationStatus.ACCEPTED →
  payload_key slot_type ∉ (SlotProposal.payload proposal).*1 →
  generate_trace utcnow proposal adjudication slot_type = inr []
  ∧ validate_trace_completeness proposal traces slot_type
    = inr (bool_decide (traces ≠ [])).
Proof.
  intros Hacc Hkey.
  assert (payload_fragments proposal slot_type = inr []) as Hfr.
  { unfold payload_fragments, narrative_content.
    destruct slot_type; simpl in Hkey;
      by rewrite (dict_get_absent _ _ _ Hkey). }
  split.
  - by rewrite (generate_trace_accepted _ _ _ _ Hacc), Hfr.
  - rewrite (validate_trace_completeness_fragments _ _ _ _ Hfr).
    simpl. by rewrite andb_true_r.
Qed.

(** X14.  A narrative payload whose text is not a string is an
    AttributeError for the generator, and for the validator as soon as it
    is given a trace; with no trace the validator answers false without
    reading the payload. *)
Theorem narrative_text_not_a_string proposal adjudication trace traces :
  AdjudicationResult.status adjudication = AdjudicationStatus.ACCEPTED →
  (∀ s, dict_get (SlotProposal.payload proposal) "text" (PStr "")
        ≠ PStr s) →
  generate_trace utcnow proposal adjudication SlotType.NARRATIVE
    = inl AttributeError
  ∧ validate_trace_completeness proposal (trace :: traces)
      SlotType.NARRATIVE = inl AttributeError
  ∧ validate_trace_completeness proposal [] SlotType.NARRATIVE = inr false.
Proof.
  intros Hacc Htext.
  assert (narrative_content proposal = inl AttributeError) as Hc.
  { unfold narrative_content.
    destruct (dict_get _ _ _) as [| | |s| |] eqn:E; try done.
    by destruct (Htext s). }
  split; [|split; [|done]].
  - rewrite (generate_trace_accepted _ _ _ _ Hacc). simpl. by rewrite Hc.
  - simpl. by rewrite Hc.
Qed.
End trace_round_trips.

(** ** From adjudication to trace (cli.py, [adjudicate_command]) *)

Section adjudicate_then_trace.
Context {transformation_order : SetOrder Transformation.t}.
Context {evidence_type_order : SetOrder EvidenceType.t}.
Context {repr_builtin : PyRepr}.

Import AdjudicationEngine TraceGenerator.

Lemma py_get_error v key default e :
  py_get v key default = inl e → e = AttributeError.
Proof. destruct v; simpl; by intros [= <-]. Qed.

Lemma py_iter_error v e : py_iter v = inl e → e = TypeError.
Proof. destruct v; simpl; by intros [= <-]. Qed.

Lemma table_cells_error rows e :
  table_cells rows = inl e → e = AttributeError ∨ e = TypeError.
Proof.
  induction rows as [|row rows IH]; simpl; [done|].
  unfold row_cells.
  destruct (py_get row "cells" (PList [])) as [e1|cells_v] eqn:E1; simpl.
  { intros [= <-]. left. by eapply py_get_error. }
  destruct (py_iter cells_v) as [e2|cells] eqn:E2; simpl.
  { intros [= <-]. right. by eapply py_iter_error. }
  destruct (table_cells rows) as [e3|more]; simpl; [|done].
  intros [= <-]. by apply IH.
Qed.

Lemma kv_items_error kv_pairs e :
  kv_items kv_pairs = inl e → e = AttributeError ∨ e = TypeError.
Proof.
  assert (∀ ps,
    mapM (M := result)
      (λ p, key ← py_get p "key" PNone;
            value ← py_get p "value" PNone; ok (key, value)) ps
    = inl e → e = AttributeError) as Hmap.
  { induction ps as [|p ps IH]; simpl; [done|].
    destruct (py_get p "key" PNone) as [e1|k] eqn:E1; simpl.
    { intros [= <-]. by eapply py_get_error. }
    destruct (py_get p "value" PNone) as [e2|v] eqn:E2; simpl.
    { intros [= <-]. by eapply py_get_error. }
    destruct (mapM _ ps) as [e3|rest]; simpl; [|done].
    intros [= <-]. by apply IH. }
  unfold kv_items.
  destruct kv_pairs as [| | |s|l|d]; simpl; try (intros [= <-]; by right);
    try done; intros H%Hmap; by left.
Qed.

Lemma payload_fragments_error proposal slot_type e :
  payload_fragments proposal slot_type = inl e →
  e = AttributeError ∨ e = TypeError.
Proof.
  unfold payload_fragments. destruct slot_type.
  - unfold narrative_content.
    destruct (dict_get _ _ _); simpl; try (intros [= <-]; by left).
  - destruct (py_iter _) as [e1|rows] eqn:E1; simpl.
    { intros [= <-]. right. by eapply py_iter_error. }
    destruct (table_cells rows) as [e2|cells] eqn:E2; simpl; [|done].
    intros [= <-]. by eapply table_cells_error.
  - destruct (kv_items _) as [e1|items] eqn:E1; simpl; [|done].
    intros [= <-]. by eapply kv_items_error.
Qed.

(** X15.  What [adjudicate_command] relies on: when a proposal is
    ACCEPTED its slot is in the template, and the generator run on the
    proposal, that result and that slot's type is never refused with a
    ValueError; every node it returns carries the first eight characters
    of the uuid as adjudication id. *)
Theorem accepted_proposal_is_traced self proposal evidence_atoms uuid4
  utcnow (clock : nat → datetime) :
  AdjudicationResult.status
    (adjudicate self proposal evidence_atoms uuid4 utcnow)
    = AdjudicationStatus.ACCEPTED →
  ∃ slot,
    TemplateSchema.get_slot (template self) (SlotProposal.slot_id proposal)
      = Some slot
    ∧ (∀ msg,
         generate_trace clock proposal
           (adjudicate self proposal evidence_atoms uuid4 utcnow)
           (Slot.slot_type slot)
         ≠ inl (ValueError msg))
    ∧ (∀ nodes node,
         generate_trace clock proposal
           (adjudicate self proposal evidence_atoms uuid4 utcnow)
           (Slot.slot_type slot)
         = inr nodes →
         node ∈ nodes →
         TraceNode.adjudication_id node = String.substring 0 8 uuid4).
Proof.
  intros Hacc.
  destruct (TemplateSchema.get_slot (template self)
              (SlotProposal.slot_id proposal)) as [slot|] eqn:Hslot.
  - exists slot. split; [done|].
    rewrite (generate_trace_accepted _ _ _ _ Hacc).
    destruct (payload_fragments proposal (Slot.slot_type slot))
      as [e|fragments] eqn:Hfr; simpl.
    + split; [|done]. intros msg [= ->].
      by destruct (payload_fragments_error _ _ _ Hfr).
    + split; [done|]. intros nodes node [= <-].
      intros (i & f & -> & _)%elem_of_lookup_imap. simpl.
      by rewrite (adjudicate_slot_exists _ _ _ _ _ _ Hslot).
  - unfold adjudicate in Hacc. rewrite Hslot in Hacc. done.
Qed.
End adjudicate_then_trace.

(** ** Qualification: the report's lists *)

Lemma foldl_acc_field {X B} (field : qual_acc → list B)
  (step : qual_acc → X → qual_acc) (g : X → list B) :
  (∀ a x, field (step a x) = field a ++ g x) →
  ∀ l a, field (foldl step a l) = field a ++ flat_map g l.
Proof.
  intros Hstep l. induction l as [|x l IH]; intros a; simpl.
  - by rewrite app_nil_r.
  - by rewrite IH, Hstep, <- app_assoc.
Qed.

Lemma flat_map_const_nil {A B} (l : list A) :
  flat_map (λ _, @nil B) l = [].
Proof. by induction l. Qed.

Lemma foldl_acc_field_kept {X B} (field : qual_acc → list B)
  (step : qual_acc → X → qual_acc) :
  (∀ a x, field (step a x) = field a) →
  ∀ l a, field (foldl step a l) = field a.
Proof.
  intros Hstep l a.
  rewrite (foldl_acc_field field step (λ _, [])).
  - by rewrite flat_map_const_nil, app_nil_r.
  - intros a' x. by rewrite Hstep, app_nil_r.
Qed.

Lemma fmap_flat_map {A B C} (f : B → C) (g : A → list B) (l : list A) :
  f <$> flat_map g l = flat_map (λ x, f <$> g x) l.
Proof.
  induction l as [|x l IH]; simpl; [done|]. by rewrite fmap_app, IH.
Qed.

(** X16.  The lists of a qualification report agree with its issues: the
    issues are the missing-mandatory issues, then the dangling-mapping
    issues, then the incompatible-type issues; the first group names the
    obligations of missing_mandatory_obligations, the second the slots of
    dangling_mappings, and the third is incompatible_slot_types itself. *)
Theorem report_lists_agree compiled_obligations template_schema mapping :
  ∃ missing dangling,
    QualificationReport.issues
      (qualify_template compiled_obligations template_schema mapping)
    = missing ++ dangling
      ++ QualificationReport.incompatible_slot_types
           (qualify_template compiled_obligations template_schema mapping)
    ∧ Forall (λ i, QualificationIssue.issue_type i = "missing_mandatory")
        missing
    ∧ QualificationIssue.obligation_id <$> missing
      = Some <$> QualificationReport.missing_mandatory_obligations
                   (qualify_template compiled_obligations template_schema
                      mapping)
    ∧ Forall (λ i, QualificationIssue.issue_type i = "dangling_mapping")
        dangling
    ∧ QualificationIssue.slot_id <$> dangling
      = Some <$> QualificationReport.dangling_mappings
                   (qualify_template compiled_obligations template_schema
                      mapping)
    ∧ Forall (λ i, QualificationIssue.issue_type i = "incompatible_type")
        (QualificationReport.incompatible_slot_types
           (qualify_template compiled_obligations template_schema mapping)).
Proof.
  pose (mapped := list_to_set (SlotMapping.obligation_id
                                 <$> ObligationMapping.mappings mapping)
                  : gset string).
  pose (sl := slot_lookup_of (TemplateSchema.slots template_schema)).
  pose (ol := obligation_lookup_of
                (CompiledObligations.obligations compiled_obligations)).
  exists (flat_map (mandatory_issues mapped)
            (CompiledObligations.get_mandatory compiled_obligations)),
         (flat_map (λ m, flat_map (dangling_slot_issues sl m)
                           (SlotMapping.slot_ids m))
            (ObligationMapping.mappings mapping)).
  assert (QualificationReport.incompatible_slot_types
            (qualify_template compiled_obligations template_schema mapping)
          = flat_map (incompatible_issues ol sl)
              (ObligationMapping.mappings mapping)) as Hinc.
  { unfold qualify_template, qualify_acc. simpl. fold mapped sl ol.
    rewrite (foldl_acc_field acc_incompatible_types _
               (incompatible_issues ol sl)).
    - rewrite (foldl_acc_field_kept acc_incompatible_types).
      + by rewrite (foldl_acc_field_kept acc_incompatible_types);
          [|intros a o; unfold mandatory_step; by case_decide].
      + intros a m. unfold dangling_step.
        apply foldl_acc_field_kept. intros a' sid.
        unfold dangling_slot_step. by destruct (_ !! sid).
    - intros a m. unfold incompatible_step, incompatible_issues.
      destruct (ol !! _) as [o|]; [|by rewrite app_nil_r].
      destruct (Obligation.allowed_output_types o) eqn:E;
        [by rewrite app_nil_r|].
      apply foldl_acc_field. intros a' sid.
      unfold incompatible_slot_step, incompatible_slot_issues.
      destruct (sl !! sid) as [slot|]; [|by rewrite app_nil_r].
      destruct (has_compatible _ _); simpl; [|done]. by rewrite app_nil_r. }
  assert (QualificationReport.missing_mandatory_obligations
            (qualify_template compiled_obligations template_schema mapping)
          = flat_map (λ o, if decide (Obligation.id o ∉ mapped)
                           then [Obligation.id o] else [])
              (CompiledObligations.get_mandatory compiled_obligations))
    as Hmiss.
  { unfold qualify_template, qualify_acc. simpl. fold mapped sl ol.
    rewrite (foldl_acc_field_kept acc_missing_mandatory).
    - rewrite (foldl_acc_field_kept acc_missing_mandatory).
      + rewrite (foldl_acc_field acc_missing_mandatory _
                   (λ o, if decide (Obligation.id o ∉ mapped)
                         then [Obligation.id o] else [])); [done|].
        intros a o. unfold mandatory_step. case_decide; simpl; [done|].
        by rewrite app_nil_r.
      + intros a m. unfold dangling_step.
        apply foldl_acc_field_kept. intros a' sid.
        unfold dangling_slot_step. by destruct (_ !! sid).
    - intros a m. unfold incompatible_step.
      destruct (ol !! _) as [o|]; [|done].
      destruct (Obligation.allowed_output_types o); [done|].
      apply foldl_acc_field_kept. intros a' sid.
      unfold incompatible_slot_step.
      destruct (sl !! sid) as [slot|]; [|done].
      by destruct (has_compatible _ _). }
  assert (QualificationReport.dangling_mappings
            (qualify_template compiled_obligations template_schema mapping)
          = flat_map (λ m, flat_map (λ sid, match sl !! sid with
                                            | None => [sid]
                                            | Some _ => []
                                            end)
                             (SlotMapping.slot_ids m))
              (ObligationMapping.mappings mapping)) as Hdang.
  { unfold qualify_template, qualify_acc. simpl. fold mapped sl ol.
    rewrite (foldl_acc_field_kept acc_dangling_mappings).
    - rewrite (foldl_acc_field acc_dangling_mappings _
                 (λ m, flat_map (λ sid, match sl !! sid with
                                        | None => [sid]
                                        | Some _ => []
                                        end) (SlotMapping.slot_ids m))).
      + by rewrite (foldl_acc_field_kept acc_dangling_mappings);
          [|intros a o; unfold mandatory_step; by case_decide].
      + intros a m. unfold dangling_step. apply foldl_acc_field.
        intros a' sid. unfold dangling_slot_step.
        destruct (sl !! sid); simpl; [|done]. by rewrite app_nil_r.
    - intros a m. unfold incompatible_step.
      destruct (ol !! _) as [o|]; [|done].
      destruct (Obligation.allowed_output_types o); [done|].
      apply foldl_acc_field_kept. intros a' sid.
      unfold incompatible_slot_step.
      destruct (sl !! sid) as [slot|]; [|done].
      by destruct (has_compatible _ _). }
  rewrite Hinc, Hmiss, Hdang. split; [apply qualify_template_issues|].
  clearbody mapped sl ol.
  split; [|split; [|split; [|split]]].
  - apply Forall_forall. intros i Hi%list_elem_of_In%in_flat_map.
    destruct Hi as (o & _ & Hi). unfold mandatory_issues in Hi.
    case_decide; [|done]. by destruct Hi as [<-|[]].
  - rewrite !fmap_flat_map. apply flat_map_ext. intros o.
    unfold mandatory_issues. by case_decide.
  - apply Forall_forall. intros i Hi%list_elem_of_In%in_flat_map.
    destruct Hi as (m & _ & (sid & _ & Hi)%in_flat_map).
    unfold dangling_slot_issues in Hi.
    destruct (sl !! sid); [done|]. by destruct Hi as [<-|[]].
  - rewrite !fmap_flat_map. apply flat_map_ext. intros m.
    rewrite !fmap_flat_map. apply flat_map_ext. intros sid.
    unfold dangling_slot_issues. by destruct (sl !! sid).
  - apply Forall_forall. intros i Hi%list_elem_of_In%in_flat_map.
    destruct Hi as (m & _ & Hi). unfold incompatible_issues in Hi.
    destruct (ol !! _) as [o|]; [|done].
    destruct (Obligation.allowed_output_types o); [done|].
    apply in_flat_map in Hi as (sid & _ & Hi).
    unfold incompatible_slot_issues in Hi.
    destruct (sl !! sid) as [slot|]; [|done].
    destruct (has_compatible _ _); [done|]. by destruct Hi as [<-|[]].
Qed.

(** X17.  With an empty mapping the template qualifies exactly when no
    obligation is mandatory, whatever its slots; every issue is then a
    missing-mandatory issue. *)
Theorem empty_mapping_qualification compiled_obligations template_schema
  mapping :
  ObligationMapping.mappings mapping = [] →
  (QualificationReport.status
     (qualify_template compiled_obligations template_schema mapping)
     = QualificationStatus.PASS
   ↔ ∀ o, o ∈ CompiledObligations.obligations compiled_obligations →
          Obligation.mandatory o = false)
  ∧ QualificationReport.missing_mandatory_obligations
      (qualify_template compiled_obligations template_schema mapping)
    = Obligation.id
        <$> CompiledObligations.get_mandatory compiled_obligations.
Proof.
  intros Hempty.
  assert (∀ l : list Obligation.t,
    foldl (mandatory_step ∅) (mk_qual_acc [] [] [] []) l
    = mk_qual_acc (missing_mandatory_issue <$> l) (Obligation.id <$> l) [] [])
    as Hloop.
  { intros l. induction l as [|o l IH] using rev_ind; [done|].
    rewrite foldl_app, IH. simpl. unfold mandatory_step.
    rewrite decide_True by apply not_elem_of_empty. simpl.
    by rewrite !fmap_app. }
  unfold qualify_template, qualify_acc. rewrite Hempty. simpl.
  rewrite Hloop. simpl. split; [|done].
  unfold CompiledObligations.get_mandatory.
  split.
  - intros Hpass o Ho. destruct (Obligation.mandatory o) eqn:Hm; [|done].
    assert (o ∈ filter (λ o, Obligation.mandatory o = true)
                  (CompiledObligations.obligations compiled_obligations))
      as Hin by (by apply list_elem_of_filter).
    destruct (filter _ _); [by apply elem_of_nil in Hin | done].
  - intros Hall.
    destruct (filter _ _) as [|o l] eqn:E; [done|].
    assert (o ∈ filter (λ o, Obligation.mandatory o = true)
                  (CompiledObligations.obligations compiled_obligations))
      as [Hm Ho]%list_elem_of_filter by (rewrite E; apply list_elem_of_here).
    by rewrite (Hall o Ho) in Hm.
Qed.

(** ** The data model's lookups *)

(** X18.  The two views of a mapping agree: a slot listed for an obligation
    has that obligation among its obligations; when every obligation has
    one entry, the converse holds too ([get_slots_for_obligation] reads
    the first entry only). *)
Theorem mapping_views_agree (mapping : ObligationMapping.t)
  (obligation_id slot_id : string) :
  (slot_id ∈ ObligationMapping.get_slots_for_obligation mapping obligation_id →
   obligation_id ∈ ObligationMapping.get_obligations_for_slot mapping slot_id)
  ∧ (NoDup (SlotMapping.obligation_id <$> ObligationMapping.mappings mapping) →
     obligation_id
       ∈ ObligationMapping.get_obligations_for_slot mapping slot_id →
     slot_id
       ∈ ObligationMapping.get_slots_for_obligation mapping obligation_id).
Proof.
  unfold ObligationMapping.get_slots_for_obligation,
    ObligationMapping.get_obligations_for_slot.
  generalize (ObligationMapping.mappings mapping). intros ms. split.
  - induction ms as [|m ms IH]; simpl; [by intros ?%elem_of_nil|].
    rewrite filter_cons.
    destruct (decide (SlotMapping.obligation_id m = obligation_id))
      as [<-|Hne].
    + intros Hin. rewrite decide_True by done. apply list_elem_of_here.
    + intros Hin%IH. case_decide; [by apply list_elem_of_further | done].
  - induction ms as [|m ms IH]; simpl; [by intros _ ?%elem_of_nil|].
    rewrite filter_cons.
    intros [Hm Hnd]%NoDup_cons.
    destruct (decide (SlotMapping.obligation_id m = obligation_id))
      as [<-|Hne].
    + case_decide as Hs; [done|]. intros Hin. exfalso. apply Hm.
      apply list_elem_of_fmap in Hin as (m' & -> & Hm').
      apply list_elem_of_filter in Hm' as [_ Hm'].
      by apply list_elem_of_fmap_2.
    + case_decide; [|by apply IH].
      intros [Heq|Hin]%elem_of_cons; [done | by apply IH].
Qed.

(** X19.  [get_slot] returns a slot of the template with the requested id,
    and none only when no slot has it; with unique slot ids it returns
    what the lookup table of [qualify_template] holds, so qualification and
    adjudication see the same slot. *)
Theorem get_slot_agrees_with_lookup (template_schema : TemplateSchema.t)
  (slot_id : string) :
  (∀ slot, TemplateSchema.get_slot template_schema slot_id = Some slot →
           slot ∈ TemplateSchema.slots template_schema
           ∧ Slot.slot_id slot = slot_id)
  ∧ (TemplateSchema.get_slot template_schema slot_id = None
     ↔ slot_id ∉ Slot.slot_id <$> TemplateSchema.slots template_schema)
  ∧ (NoDup (Slot.slot_id <$> TemplateSchema.slots template_schema) →
     TemplateSchema.get_slot template_schema slot_id
     = slot_lookup_of (TemplateSchema.slots template_schema) !! slot_id).
Proof.
  unfold TemplateSchema.get_slot.
  generalize (TemplateSchema.slots template_schema). intros slots.
  assert (∀ slot, TemplateSchema.find_slot slots slot_id = Some slot →
                  slot ∈ slots ∧ Slot.slot_id slot = slot_id) as Hfind.
  { induction slots as [|s slots IH]; simpl; [done|]. intros slot.
    case_decide as Hs.
    - intros [= <-]. split; [apply list_elem_of_here | done].
    - intros [? ?]%IH. split; [by apply list_elem_of_further | done]. }
  split; [done|]. split.
  - rewrite <- find_slot_is_Some. rewrite <- eq_None_not_Some. done.
  - intros Hnd.
    destruct (TemplateSchema.find_slot slots slot_id) as [slot|] eqn:E.
    + destruct (Hfind slot eq_refl) as [Hin <-]. symmetry.
      by apply (foldl_insert_unique Slot.slot_id).
    + symmetry. apply eq_None_not_Some. rewrite slot_lookup_is_Some.
      rewrite <- find_slot_is_Some, E. by intros [? ?].
Qed.

(** X20.  Overlap is symmetric, a period whose start is not after its end
    overlaps itself, and a period that follows another one without a gap
    never overlaps it; [has_gap] raises OverflowError exactly when the day
    after the end of the previous period is out of the range of dates. *)
Theorem overlap_and_gap (a b : PSURPeriod.t) :
  PSURPeriod.overlaps a b = PSURPeriod.overlaps b a
  ∧ (PSURPeriod.overlaps a a = true
     ↔ (PSURPeriod.start_date a ≤ PSURPeriod.end_date a)%Z)
  ∧ (PSURPeriod.has_gap b a = ok false →
     PSURPeriod.overlaps a b = false)
  ∧ (PSURPeriod.has_gap b a = raise OverflowError
     ↔ ¬ (0 < PSURPeriod.end_date a + 1 ≤ _MAXORDINAL)%Z).
Proof.
  split; [|split; [|split]].
  - unfold PSURPeriod.overlaps. apply andb_comm.
  - unfold PSURPeriod.overlaps. rewrite andb_diag. apply bool_decide_eq_true.
  - intros [_ Hgap]%has_gap_false. unfold PSURPeriod.overlaps.
    apply andb_false_iff. right. apply bool_decide_eq_false. lia.
  - unfold PSURPeriod.has_gap, date_add. cbv zeta.
    case_decide as Hr; simpl; [|done]. split; [done|]. by intros Hn.
Qed.

(** ** The rules engine *)

(** X21.  The schedule interval is one, two or five years; the United
    Kingdom follows the European Union for every device class; any other
    jurisdiction is yearly. *)
Theorem schedule_intervals (jurisdiction : Jurisdiction.t)
  (device_class : string) :
  get_schedule_constraint jurisdiction device_class
    ∈ [365%Z; 730%Z; 1825%Z]
  ∧ get_schedule_constraint Jurisdiction.UK device_class
    = get_schedule_constraint Jurisdiction.EU device_class
  ∧ (jurisdiction ≠ Jurisdiction.EU → jurisdiction ≠ Jurisdiction.UK →
     get_schedule_constraint jurisdiction device_class = 365%Z)
  ∧ (get_schedule_constraint Jurisdiction.EU device_class = 730%Z
     ↔ device_class = "IIa")
  ∧ (get_schedule_constraint Jurisdiction.EU device_class = 365%Z
     ↔ device_class = "III" ∨ device_class = "IIb").
Proof.
  assert (device_class ∈ ["III"; "IIb"]
          ↔ device_class = "III" ∨ device_class = "IIb") as Hclass.
  { rewrite !elem_of_cons, elem_of_nil. tauto. }
  assert (∀ z : Z, z = 365%Z ∨ z = 730%Z ∨ z = 1825%Z →
                   z ∈ [365%Z; 730%Z; 1825%Z]) as Hin.
  { intros z. rewrite !elem_of_cons, elem_of_nil. tauto. }
  split; [|split; [done|split; [by destruct jurisdiction|]]].
  - apply Hin. unfold get_schedule_constraint.
    destruct jurisdiction; repeat case_decide; auto.
  - unfold get_schedule_constraint. split.
    + repeat case_decide; try done. split; [done|].
      intros ->. rewrite Hclass in *. intuition discriminate.
    + repeat case_decide; rewrite Hclass in *;
        (split; [try done; tauto | try done; try tauto]).
Qed.

(** The gap loop returns when every period has a day after its end. *)
Lemma mapM_result_returns {A B} (f : A → result B) (l : list A) :
  (∀ x, x ∈ l → ∃ y, f x = ok y) → ∃ ys, mapM f l = ok ys.
Proof.
  induction l as [|x l IH]; intros Hall; simpl; [by eexists|].
  destruct (Hall x (list_elem_of_here _ _)) as [y ->]. simpl.
  destruct IH as [ys ->].
  { intros z Hz. apply Hall. by apply list_elem_of_further. }
  simpl. by eexists.
Qed.

Lemma has_gap_returns (current previous : PSURPeriod.t) :
  next_day_exists previous →
  PSURPeriod.has_gap current previous
  = ok (bool_decide (PSURPeriod.start_date current
                     ≠ (PSURPeriod.end_date previous + 1)%Z)).
Proof. intros Hr. by apply has_gap_ok. Qed.

Lemma gap_step_returns `{DateStr} sorted_periods i :
  Forall next_day_exists sorted_periods →
  ∃ issues, gap_step sorted_periods i = ok issues.
Proof.
  intros Hall. unfold gap_step.
  destruct (sorted_periods !! i) as [current|]; [|by eexists].
  destruct (sorted_periods !! (i - 1)) as [previous|] eqn:Hp; [|by eexists].
  assert (next_day_exists previous) as Hr.
  { rewrite Forall_forall in Hall. apply Hall.
    by eapply list_elem_of_lookup_2. }
  rewrite (has_gap_returns _ _ Hr). simpl.
  destruct (bool_decide _); [|by eexists].
  assert (date_add (PSURPeriod.end_date previous) 1
          = ok (PSURPeriod.end_date previous + 1)%Z) as ->
    by (by apply date_add_ok).
  simpl. by eexists.
Qed.

Lemma gap_issues_returns `{DateStr} sorted_periods :
  Forall next_day_exists sorted_periods →
  ∃ gaps, gap_issues sorted_periods = ok gaps.
Proof.
  intros Hall. unfold gap_issues.
  destruct (mapM_result_returns (gap_step sorted_periods)
              (seq 1 (length sorted_periods - 1))) as [ys ->].
  { intros i _. by apply gap_step_returns. }
  simpl. by eexists.
Qed.

Lemma validate_period_contiguity_returns `{DateStr} periods :
  Forall next_day_exists periods →
  ∃ valid issues, validate_period_contiguity periods = ok (valid, issues).
Proof.
  intros Hall. unfold validate_period_contiguity.
  destruct periods as [|p periods]; [by eexists _, _|].
  remember (p :: periods) as ps. cbv zeta.
  destruct (gap_issues_returns (sorted_by_start_date ps)) as [gaps ->].
  { by rewrite sorted_by_start_date_perm. }
  simpl. by eexists _, _.
Qed.

(** What [validate_period_contiguity] returns, when it returns. *)
Lemma validate_period_contiguity_ok `{DateStr} periods valid issues :
  validate_period_contiguity periods = ok (valid, issues) →
  ∃ gaps,
    gap_issues (sorted_by_start_date periods) = ok gaps
    ∧ issues = overlap_issues (sorted_by_start_date periods) ++ gaps
    ∧ valid = bool_decide (issues = []).
Proof.
  unfold validate_period_contiguity. destruct periods as [|p periods].
  - intros [= <- <-]. by exists [].
  - remember (p :: periods) as ps. cbv zeta.
    destruct (gap_issues (sorted_by_start_date ps)) as [e|gaps]; simpl;
      [done|].
    intros [= <- <-]. exists gaps. split_and!; [done..|].
    apply bool_decide_ext. apply length_zero_iff_nil.
Qed.

Section period_reports.
Context {date_format : DateStr}.

(** X22.  An overlap is reported once in each direction: for two periods
    at different positions of the sorted list that overlap, the answer is
    never valid; when [validate_period_contiguity] returns, both messages
    are among the issues; and it returns, with the answer not valid, when
    every period has a day after its end (otherwise the gap loop may
    raise OverflowError and nothing is reported). *)
Theorem overlap_reported_both_ways (periods : list PSURPeriod.t) i j a b :
  sorted_by_start_date periods !! i = Some a →
  sorted_by_start_date periods !! j = Some b →
  i ≠ j →
  PSURPeriod.overlaps a b = true →
  fst <$> validate_period_contiguity periods ≠ ok true
  ∧ (∀ valid issues,
       validate_period_contiguity periods = ok (valid, issues) →
       valid = false
       ∧ overlap_message a b ∈ issues
       ∧ overlap_message b a ∈ issues)
  ∧ (Forall next_day_exists periods →
     ∃ issues, validate_period_contiguity periods = ok (false, issues)).
Proof.
  intros Hi Hj Hij Hov.
  assert (∀ i j a b,
    sorted_by_start_date periods !! i = Some a →
    sorted_by_start_date periods !! j = Some b →
    i ≠ j → PSURPeriod.overlaps a b = true →
    overlap_message a b ∈ overlap_issues (sorted_by_start_date periods))
    as Hmsg.
  { clear. intros i j a b Hi Hj Hij Hov. unfold overlap_issues.
    apply list_elem_of_In, in_concat.
    eexists. split.
    - apply list_elem_of_In. apply (elem_of_lookup_imap_2 _ _ _ i Hi).
    - apply in_concat. eexists. split.
      + apply list_elem_of_In. apply (elem_of_lookup_imap_2 _ _ _ j Hj).
      + simpl. rewrite bool_decide_eq_true_2 by done. rewrite Hov.
        by left. }
  assert (overlap_message a b
            ∈ overlap_issues (sorted_by_start_date periods)) as Hab
    by (by apply (Hmsg i j)).
  assert (overlap_message b a
            ∈ overlap_issues (sorted_by_start_date periods)) as Hba.
  { apply (Hmsg j i); [done..|].
    unfold PSURPeriod.overlaps in *. by rewrite andb_comm. }
  assert (∀ valid issues,
    validate_period_contiguity periods = ok (valid, issues) →
    valid = false
    ∧ overlap_message a b ∈ issues ∧ overlap_message b a ∈ issues)
    as Hret.
  { intros valid issues Hv.
    apply validate_period_contiguity_ok in Hv as (gaps & _ & -> & ->).
    split_and!.
    - apply bool_decide_eq_false. intros [Hnil _]%app_eq_nil.
      rewrite Hnil in Hab. by apply elem_of_nil in Hab.
    - apply elem_of_app. by left.
    - apply elem_of_app. by left. }
  split_and!; [|done|].
  - destruct (validate_period_contiguity periods) as [e|[valid issues]]
      eqn:Hv; simpl; [done|].
    destruct (Hret valid issues eq_refl) as [-> _]. done.
  - intros Hall.
    destruct (validate_period_contiguity_returns periods Hall)
      as (valid & issues & Hv).
    destruct (Hret valid issues Hv) as [-> _]. by exists issues.
Qed.
End period_reports.

(** ** Constraint evaluation and period order *)

Lemma overlaps_sym a b : PSURPeriod.overlaps a b = PSURPeriod.overlaps b a.
Proof. unfold PSURPeriod.overlaps. apply andb_comm. Qed.

Lemma existsb_Permutation {A} (f : A → bool) (l1 l2 : list A) :
  l1 ≡ₚ l2 → existsb f l1 = existsb f l2.
Proof.
  intros Hp. apply eq_true_iff_eq. rewrite !existsb_exists.
  setoid_rewrite <- list_elem_of_In. by setoid_rewrite Hp.
Qed.

Lemma any_overlap_Permutation (l1 l2 : list PSURPeriod.t) :
  l1 ≡ₚ l2 →
  ConstraintEvaluator.any_overlap l1 = ConstraintEvaluator.any_overlap l2.
Proof.
  induction 1 as [|x l1 l2 Hp IH|x y l|l1 l2 l3 _ IH1 _ IH2]; simpl.
  - done.
  - by rewrite IH, (existsb_Permutation _ _ _ Hp).
  - rewrite (overlaps_sym y x).
    destruct (PSURPeriod.overlaps x y),
      (existsb (λ p2, PSURPeriod.overlaps y p2) l),
      (existsb (λ p2, PSURPeriod.overlaps x p2) l); done.
  - by rewrite IH1.
Qed.

(** No pair found by the nested loop: no two positions overlap. *)
Lemma any_overlap_false (l : list PSURPeriod.t) :
  ConstraintEvaluator.any_overlap l = false
  ↔ ∀ i j a b, l !! i = Some a → l !! j = Some b → i ≠ j →
               PSURPeriod.overlaps a b = false.
Proof.
  induction l as [|x l IH]; simpl.
  - split; [by intros _ [|?] | done].
  - rewrite orb_false_iff, IH. split.
    + intros [Hx Hl] i j a b Hi Hj Hij.
      assert (∀ y, y ∈ l → PSURPeriod.overlaps x y = false) as Hxy.
      { intros y Hy. destruct (PSURPeriod.overlaps x y) eqn:E; [|done].
        rewrite <- Hx. symmetry. apply existsb_exists. exists y.
        split; [by apply list_elem_of_In | done]. }
      destruct i as [|i], j as [|j]; simpl in *; try done.
      * injection Hi as <-. apply Hxy. by eapply list_elem_of_lookup_2.
      * injection Hj as <-. rewrite overlaps_sym. apply Hxy.
        by eapply list_elem_of_lookup_2.
      * apply (Hl i j); [done..|]. congruence.
    + intros H. split.
      * destruct (existsb _ l) eqn:E; [|done].
        apply existsb_exists in E as (y & Hy & Hov).
        apply list_elem_of_In, list_elem_of_lookup_1 in Hy as [j Hj].
        by rewrite (H 0 (S j) x y) in Hov.
      * intros i j a b Hi Hj Hij. apply (H (S i) (S j)); [done..|].
        congruence.
Qed.

(** The gap loop of [evaluate] and the gap loop of
    [validate_period_contiguity] run the same tests; the first stops at the
    first gap. *)
Lemma gap_loop_cons `{DateStr} (sorted_periods : list PSURPeriod.t)
  (i : nat) (indices : list nat) :
  ConstraintEvaluator.gap_loop sorted_periods (i :: indices)
  = match gap_step sorted_periods i with
    | inl e => inl e
    | inr [] => ConstraintEvaluator.gap_loop sorted_periods indices
    | inr (_ :: _) => ok true
    end.
Proof.
  cbn [ConstraintEvaluator.gap_loop]. unfold gap_step.
  destruct (sorted_periods !! i) as [current|]; [|done].
  destruct (sorted_periods !! (i - 1)) as [previous|]; [|done].
  destruct (PSURPeriod.has_gap current previous) as [e|[|]] eqn:Hg; simpl;
    [done| |done].
  apply has_gap_ok in Hg as [Hr _].
  assert (date_add (PSURPeriod.end_date previous) 1
          = ok (PSURPeriod.end_date previous + 1)%Z) as ->
    by (by apply date_add_ok).
  done.
Qed.

Lemma gap_loop_false `{DateStr} (sorted_periods : list PSURPeriod.t)
  (indices : list nat) :
  ConstraintEvaluator.gap_loop sorted_periods indices = ok false
  ↔ ∀ i, i ∈ indices → gap_step sorted_periods i = ok [].
Proof.
  induction indices as [|i indices IH].
  - split; [by intros _ ? ?%elem_of_nil | done].
  - rewrite gap_loop_cons. split.
    + intros Hloop j [->|Hj]%elem_of_cons.
      * by destruct (gap_step sorted_periods i) as [e|[|y ys]].
      * destruct (gap_step sorted_periods i) as [e|[|y ys]]; [done| |done].
        by apply IH.
    + intros Hall. rewrite (Hall i) by apply list_elem_of_here.
      apply IH. intros j Hj. apply Hall. by apply list_elem_of_further.
Qed.

Lemma gap_loop_of_steps `{DateStr} (sorted_periods : list PSURPeriod.t)
  (indices : list nat) (steps : list (list string)) :
  mapM (gap_step sorted_periods) indices = ok steps →
  ConstraintEvaluator.gap_loop sorted_periods indices
  = ok (bool_decide (concat steps ≠ [])).
Proof.
  revert steps. induction indices as [|i indices IH]; intros steps.
  - by intros [= <-].
  - rewrite gap_loop_cons. cbn [mapM].
    destruct (gap_step sorted_periods i) as [e|ys]; simpl; [done|].
    destruct (mapM (gap_step sorted_periods) indices) as [e|yss]; simpl;
      [done|].
    intros [= <-]. destruct ys as [|y ys]; simpl; [by apply (IH yss) | done].
Qed.

Lemma any_gap_false `{DateStr} (sorted_periods : list PSURPeriod.t) :
  ConstraintEvaluator.any_gap sorted_periods = ok false
  ↔ gap_issues sorted_periods = ok [].
Proof.
  unfold ConstraintEvaluator.any_gap, gap_issues.
  by rewrite gap_loop_false, concat_mapM_nil_iff.
Qed.

Lemma any_gap_of_issues `{DateStr} (sorted_periods : list PSURPeriod.t) gaps :
  gap_issues sorted_periods = ok gaps →
  ConstraintEvaluator.any_gap sorted_periods = ok (bool_decide (gaps ≠ [])).
Proof.
  unfold ConstraintEvaluator.any_gap, gap_issues.
  destruct (mapM _ _) as [e|steps] eqn:Hsteps; simpl; [done|].
  intros [= <-]. by apply gap_loop_of_steps.
Qed.

(** The nested loop of [evaluate] over the periods as given finds an
    overlap exactly when the double loop over the sorted periods reports
    one. *)
Lemma any_overlap_issues (periods : list PSURPeriod.t) :
  ConstraintEvaluator.any_overlap periods = false
  ↔ overlap_issues (sorted_by_start_date periods) = [].
Proof.
  rewrite <- (any_overlap_Permutation _ _ (sorted_by_start_date_perm periods)).
  by rewrite any_overlap_false, overlap_issues_nil.
Qed.

Lemma append_empty_r (s : string) : s +:+ EmptyString = s.
Proof.
  induction s as [|a s IH]; [done|].
  change (String a (s +:+ EmptyString) = String a s). by rewrite IH.
Qed.

Lemma append_snoc (cur : string) (a : ascii) (s : string) :
  (cur +:+ String a EmptyString) +:+ s = cur +:+ String a s.
Proof.
  induction cur as [|b cur IH]; [done|].
  change (String b ((cur +:+ String a EmptyString) +:+ s)
          = String b (cur +:+ String a s)).
  by rewrite IH.
Qed.

(** [s.split(c)] of a string without the character [c] is [[s]]. *)
Lemma split_no_separator (c : ascii) (s cur : string) :
  contains (String c EmptyString) s = false →
  split_go (String c EmptyString) s 0 cur = [cur +:+ s].
Proof.
  revert cur. induction s as [|a s IH]; intros cur; cbn [split_go contains].
  - intros _. by rewrite append_empty_r.
  - intros [Hp Hs]%orb_false_iff. rewrite Hp, (IH _ Hs).
    by rewrite append_snoc.
Qed.

(** [s.split(c)] of a string that holds the character [c] has a second
    item. *)
Lemma split_go_nonempty sep s skip cur : split_go sep s skip cur ≠ [].
Proof.
  revert skip cur. induction s as [|a s IH]; intros skip cur;
    cbn [split_go]; [done|].
  destruct skip; [|apply IH]. destruct (String.prefix sep (String a s));
    [done | apply IH].
Qed.

Lemma split_separator (c : ascii) (s cur : string) :
  contains (String c EmptyString) s = true →
  is_Some (split_go (String c EmptyString) s 0 cur !! 1).
Proof.
  revert cur. induction s as [|a s IH]; intros cur; cbn [split_go contains].
  - done.
  - destruct (String.prefix _ (String a s)) eqn:Hp.
    + intros _. cbn [String.length Nat.sub].
      pose proof (split_go_nonempty (String c EmptyString) s 0 EmptyString).
      destruct (split_go _ s 0 EmptyString); [done | by eexists].
    + simpl. apply IH.
Qed.

Lemma evaluate_returns (self : ConstraintEvaluator.t) constraint ctx :
  quoted constraint →
  Forall next_day_exists (default [] (ConstraintEvaluator.periods ctx)) →
  ∃ passed message,
    ConstraintEvaluator.evaluate self constraint ctx = ok (passed, message).
Proof.
  intros Hq Hall. unfold ConstraintEvaluator.evaluate. cbv zeta.
  assert (∃ gap,
    (if contains "gap" (Constraint.condition constraint)
     then ConstraintEvaluator.any_gap
            (sorted_by_start_date
               (default [] (ConstraintEvaluator.periods ctx)))
     else ok false) = ok gap) as [gap ->].
  { destruct (contains "gap" _); [|by eexists].
    destruct (gap_issues_returns (H := λ d, EmptyString)
                (sorted_by_start_date
                   (default [] (ConstraintEvaluator.periods ctx))))
      as [gaps Hg].
    { by rewrite sorted_by_start_date_perm. }
    rewrite (any_gap_of_issues _ _ Hg). by eexists. }
  destruct (contains "changed" _) eqn:Hc.
  - destruct (split_separator _ _ EmptyString (Hq Hc)) as [field Hf].
    unfold split, quote. rewrite Hf. simpl.
    case_bool_decide; [by eexists _, _|].
    destruct (_ && _); [by eexists _, _|]. simpl.
    destruct gap; by eexists _, _.
  - simpl. destruct (_ && _); [by eexists _, _|]. simpl.
    destruct gap; by eexists _, _.
Qed.

Lemma evaluate_loop_returns (self : ConstraintEvaluator.t) constraints
  trigger ctx jurisdiction results :
  Forall (λ c, ∃ passed message,
            ConstraintEvaluator.evaluate self c ctx = ok (passed, message))
    constraints →
  ∃ out,
    ConstraintEvaluator.evaluate_loop self constraints trigger ctx
      jurisdiction results = ok (results ++ out)
    ∧ (λ r, r.1.1) <$> out = filter (selected trigger jurisdiction) constraints
    ∧ ∀ r, r ∈ out →
           ConstraintEvaluator.evaluate self r.1.1 ctx = ok (r.1.2, r.2).
Proof.
  intros Hq. revert results.
  induction Hq as [|c cs Hc _ IH]; intros results;
    cbn [ConstraintEvaluator.evaluate_loop].
  - exists []. rewrite app_nil_r. split_and!; [done..|].
    by intros r ?%elem_of_nil.
  - assert (∀ results,
      selected trigger jurisdiction c →
      ∃ out,
        match ConstraintEvaluator.evaluate self c ctx with
        | inl e => inl e
        | inr (passed, message) =>
            ConstraintEvaluator.evaluate_loop self cs trigger ctx
              jurisdiction (results ++ [(c, passed, message)])
        end = ok (results ++ out)
        ∧ (λ r, r.1.1) <$> out
          = filter (selected trigger jurisdiction) (c :: cs)
        ∧ ∀ r, r ∈ out →
               ConstraintEvaluator.evaluate self r.1.1 ctx
               = ok (r.1.2, r.2)) as Hrun.
    { intros res Hsel.
      destruct Hc as (passed & message & Hev).
      rewrite Hev. unfold ok at 1.
      destruct (IH (res ++ [(c, passed, message)])) as (out & Hout & Hf & Ho).
      exists ((c, passed, message) :: out).
      rewrite Hout, <- app_assoc. split_and!; [done| |].
      - rewrite filter_cons_True by done. by rewrite fmap_cons, Hf.
      - intros r [->|Hr]%elem_of_cons; [done | by apply Ho]. }
    assert (∀ results,
      ¬ selected trigger jurisdiction c →
      ∃ out,
        ConstraintEvaluator.evaluate_loop self cs trigger ctx jurisdiction
          results = ok (results ++ out)
        ∧ (λ r, r.1.1) <$> out
          = filter (selected trigger jurisdiction) (c :: cs)
        ∧ ∀ r, r ∈ out →
               ConstraintEvaluator.evaluate self r.1.1 ctx
               = ok (r.1.2, r.2)) as Hskip.
    { intros res Hsel. destruct (IH res) as (out & Hout & Hf & Ho).
      exists out. by rewrite filter_cons_False. }
    case_decide as Ht.
    { apply Hskip. intros [? _]. by apply Ht. }
    try apply dec_stable in Ht.
    destruct jurisdiction as [j|] eqn:Ej;
      destruct (Constraint.jurisdiction c) as [cj|] eqn:Ecj.
    + case_decide as Hj.
      * apply Hskip. unfold selected. rewrite Ecj. by intros [_ ?].
      * try apply dec_stable in Hj. apply Hrun. unfold selected. by rewrite ?Ecj.
    + apply Hrun. unfold selected. by rewrite ?Ecj.
    + apply Hrun. unfold selected. by rewrite ?Ecj.
    + apply Hrun. unfold selected. by rewrite ?Ecj.
Qed.

Lemma evaluate_keywordless (self : ConstraintEvaluator.t) constraint ctx :
  keywordless constraint →
  ConstraintEvaluator.evaluate self constraint ctx
  = ok (true, "Constraint passed").
Proof.
  intros (Hc & Ho & Hg). unfold ConstraintEvaluator.evaluate. cbv zeta.
  by rewrite Hc, Ho, Hg.
Qed.

Lemma same_start_overlaps (a b : PSURPeriod.t) :
  well_formed a → well_formed b →
  PSURPeriod.start_date a = PSURPeriod.start_date b →
  PSURPeriod.overlaps a b = true.
Proof.
  unfold well_formed, PSURPeriod.overlaps. intros Ha Hb Hs.
  apply andb_true_iff. split; apply bool_decide_eq_true; lia.
Qed.

(** Without an overlap, periods that start no later than they end have
    different start dates, and the sorted list does not depend on the order
    they are given in. *)
Lemma sorted_by_start_date_order (periods reordered : list PSURPeriod.t) :
  periods ≡ₚ reordered →
  Forall well_formed periods →
  ConstraintEvaluator.any_overlap periods = false →
  sorted_by_start_date periods = sorted_by_start_date reordered.
Proof.
  intros Hp Hwf Hov. apply (StronglySorted_unique_strong start_le).
  - intros x1 x2 H1 H2 H12 H21.
    rewrite sorted_by_start_date_perm in H1.
    rewrite sorted_by_start_date_perm, <- Hp in H2.
    apply list_elem_of_lookup_1 in H1 as [i Hi].
    apply list_elem_of_lookup_1 in H2 as [j Hj].
    destruct (decide (i = j)) as [->|Hij].
    { rewrite Hi in Hj. by injection Hj. }
    rewrite any_overlap_false in Hov.
    rewrite Forall_forall in Hwf.
    pose proof (Hov i j x1 x2 Hi Hj Hij) as Hno.
    rewrite same_start_overlaps in Hno.
    + discriminate Hno.
    + apply Hwf. by eapply list_elem_of_lookup_2.
    + apply Hwf. by eapply list_elem_of_lookup_2.
    + unfold start_le in *. lia.
  - apply sorted_by_start_date_sorted.
  - apply sorted_by_start_date_sorted.
  - by rewrite !sorted_by_start_date_perm.
Qed.

Section evaluator_properties.
Context {date_format : DateStr}.

Import ConstraintEvaluator.

(** X23.  When every condition that mentions changed holds a double
    quote and every period of the context has a day after its end,
    [evaluate_all] returns: one result per constraint of the trigger that
    the jurisdiction filter lets through, in the order of the rules
    (without a jurisdiction, the constraints of [get_by_trigger]), each
    with the answer of [evaluate]; and [get_blocking_failures] returns
    exactly those of them that failed and have severity BLOCK, with
    their messages. *)
Theorem evaluate_all_selects self trigger ctx jurisdiction :
  Forall quoted (CompiledRules.constraints (rules self)) →
  Forall next_day_exists (default [] (periods ctx)) →
  ∃ results failures,
    evaluate_all self trigger ctx jurisdiction = ok results
    ∧ (λ r, r.1.1) <$> results
      = filter (selected trigger jurisdiction)
          (CompiledRules.constraints (rules self))
    ∧ (jurisdiction = None →
       (λ r, r.1.1) <$> results
       = CompiledRules.get_by_trigger (rules self) trigger)
    ∧ (∀ r, r ∈ results → evaluate self r.1.1 ctx = ok (r.1.2, r.2))
    ∧ get_blocking_failures self trigger ctx jurisdiction = ok failures
    ∧ ∀ constraint message,
        (constraint, message) ∈ failures
        ↔ constraint ∈ CompiledRules.constraints (rules self)
          ∧ selected trigger jurisdiction constraint
          ∧ Constraint.severity constraint = Severity.BLOCK
          ∧ evaluate self constraint ctx = ok (false, message).
Proof.
  intros Hq Hdays.
  assert (Forall (λ c, ∃ passed message,
                    evaluate self c ctx = ok (passed, message))
            (CompiledRules.constraints (rules self))) as Hret.
  { eapply Forall_impl; [exact Hq|]. intros c Hc.
    by apply evaluate_returns. }
  destruct (evaluate_loop_returns self _ trigger ctx jurisdiction [] Hret)
    as (results & Hall & Hf & Hev).
  simpl in Hall. exists results. eexists.
  unfold get_blocking_failures, evaluate_all. rewrite Hall.
  split_and!; [done..| |done|done|].
  { intros ->. rewrite Hf. unfold CompiledRules.get_by_trigger.
    apply list_filter_iff. intros c. unfold selected. tauto. }
  intros constraint message. rewrite list_elem_of_fmap. split.
  - intros ([[c p] m] & [= -> ->] & [[Hp Hs] Hr]%list_elem_of_filter).
    simpl in *. subst p.
    assert (c ∈ filter (selected trigger jurisdiction)
                  (CompiledRules.constraints (rules self))) as Hc.
    { rewrite <- Hf. apply list_elem_of_fmap. by exists (c, false, m). }
    apply list_elem_of_filter in Hc as [Hsel Hc].
    split_and!; [done..|]. apply (Hev _ Hr).
  - intros (Hc & Hsel & Hs & He).
    assert (constraint ∈ (λ r, r.1.1) <$> results) as Hin.
    { rewrite Hf. by apply list_elem_of_filter. }
    apply list_elem_of_fmap in Hin as ([[c p] m] & -> & Hr). simpl in *.
    pose proof (Hev _ Hr) as He'. simpl in He'. rewrite He in He'.
    injection He' as <- <-. exists (c, false, message).
    split; [done|]. by apply list_elem_of_filter.
Qed.

(** X24.  For a condition that mentions overlap and gap, and not changed:
    [evaluate] passes exactly when [validate_period_contiguity] answers
    valid for the periods of the context; and whenever
    [validate_period_contiguity] returns, [evaluate] returns the same
    flag.  ([validate_period_contiguity] can raise OverflowError where
    [evaluate] has already answered with an overlap.) *)
Theorem period_condition_is_contiguity self constraint ctx :
  contains "changed" (Constraint.condition constraint) = false →
  contains "overlap" (Constraint.condition constraint) = true →
  contains "gap" (Constraint.condition constraint) = true →
  (evaluate self constraint ctx = ok (true, "Constraint passed")
   ↔ fst <$> validate_period_contiguity (default [] (periods ctx))
     = ok true)
  ∧ (∀ message, evaluate self constraint ctx = ok (true, message) →
                message = "Constraint passed")
  ∧ (∀ valid issues,
       validate_period_contiguity (default [] (periods ctx))
         = ok (valid, issues) →
       ∃ message, evaluate self constraint ctx = ok (valid, message)).
Proof.
  intros Hc Ho Hg.
  assert (evaluate self constraint ctx
          = if any_overlap (default [] (periods ctx))
            then ok (false, "Period overlap detected")
            else
              gap ← any_gap (sorted_by_start_date
                               (default [] (periods ctx)));
              if gap : bool then ok (false, "Period gap detected")
              else ok (true, "Constraint passed")) as ->.
  { unfold evaluate. cbv zeta. by rewrite Hc, Ho, Hg. }
  split_and!.
  - rewrite validate_period_contiguity_valid, <- any_overlap_issues,
      <- any_gap_false.
    destruct (any_overlap _); [by split; [|intros [? _]]|].
    destruct (any_gap _) as [e|[|]]; simpl;
      (split; [by intros [= ?] | by intros [_ [= ?]]])
      || (split; [done | by intros [_ ?]]) || done.
  - intros message. destruct (any_overlap _); [done|].
    destruct (any_gap _) as [e|[|]]; simpl; [done..|]. by intros [= <-].
  - intros valid issues Hv.
    apply validate_period_contiguity_ok in Hv as (gaps & Hgaps & -> & ->).
    rewrite (any_gap_of_issues _ _ Hgaps).
    destruct (any_overlap _) eqn:Hov.
    + eexists. f_equal. f_equal. symmetry. apply bool_decide_eq_false.
      intros [Hnil _]%app_eq_nil. apply any_overlap_issues in Hnil.
      congruence.
    + apply any_overlap_issues in Hov. rewrite Hov. simpl.
      destruct gaps as [|g gaps]; simpl; by eexists.
Qed.

(** X25.  A condition that mentions changed and holds no double quote
    makes [evaluate] fail with IndexError, whatever the context, and
    [evaluate_all] and [get_blocking_failures] with it when the
    constraint is the first of the rules and the trigger is its own. *)
Theorem changed_without_quotes self constraint rest ctx :
  contains "changed" (Constraint.condition constraint) = true →
  contains quote (Constraint.condition constraint) = false →
  CompiledRules.constraints (rules self) = constraint :: rest →
  evaluate self constraint ctx = raise IndexError
  ∧ evaluate_all self (Constraint.trigger constraint) ctx None
    = raise IndexError
  ∧ get_blocking_failures self (Constraint.trigger constraint) ctx None
    = raise IndexError.
Proof.
  intros Hc Hq Hrules.
  assert (evaluate self constraint ctx = raise IndexError) as Hev.
  { unfold evaluate. cbv zeta. rewrite Hc. unfold split, quote.
    by rewrite (split_no_separator _ _ _ Hq). }
  assert (evaluate_all self (Constraint.trigger constraint) ctx None
          = raise IndexError) as Hall.
  { unfold evaluate_all. rewrite Hrules. cbn [evaluate_loop].
    rewrite decide_False by (intros Hn; by apply Hn).
    by rewrite Hev. }
  split_and!; [done..|]. unfold get_blocking_failures. by rewrite Hall.
Qed.

(** X26.  Constraints whose conditions mention none of changed, overlap
    and gap (a constraint compiled without a condition has the empty
    one) never fail: every result of [evaluate_all] has passed, and
    [get_blocking_failures] is empty, for every trigger, context and
    jurisdiction. *)
Theorem keywordless_constraints_never_block self trigger ctx jurisdiction :
  Forall keywordless (CompiledRules.constraints (rules self)) →
  (∃ results,
     evaluate_all self trigger ctx jurisdiction = ok results
     ∧ ∀ r, r ∈ results → r.1.2 = true ∧ r.2 = "Constraint passed")
  ∧ get_blocking_failures self trigger ctx jurisdiction = ok [].
Proof.
  intros Hk.
  assert (Forall (λ c, ∃ passed message,
                    evaluate self c ctx = ok (passed, message))
            (CompiledRules.constraints (rules self))) as Hret.
  { eapply Forall_impl; [exact Hk|]. intros c Hc.
    rewrite (evaluate_keywordless self c ctx Hc). by eexists _, _. }
  destruct (evaluate_loop_returns self _ trigger ctx jurisdiction [] Hret)
    as (results & Hall & Hf & Hev).
  simpl in Hall.
  assert (∀ r, r ∈ results → r.1.2 = true ∧ r.2 = "Constraint passed")
    as Hpass.
  { intros r Hr.
    assert (r.1.1 ∈ CompiledRules.constraints (rules self)) as Hc.
    { assert (r.1.1 ∈ (λ r, r.1.1) <$> results) as Hin
        by (apply list_elem_of_fmap; by exists r).
      rewrite Hf in Hin. by apply list_elem_of_filter in Hin as [_ ?]. }
    rewrite Forall_forall in Hk.
    pose proof (Hev _ Hr) as He.
    rewrite (evaluate_keywordless self _ ctx (Hk _ Hc)) in He.
    by injection He as <- <-. }
  split; [by exists results|].
  unfold get_blocking_failures, evaluate_all. rewrite Hall.
  unfold ok. f_equal.
  clear Hall Hf Hev. induction results as [|r results IH]; [done|].
  rewrite filter_cons_False.
  - apply IH. intros r' Hr'. apply Hpass. by apply list_elem_of_further.
  - intros [Hp _]. destruct (Hpass r (list_elem_of_here _ _)) as [Ht _].
    congruence.
Qed.

(** X27.  For periods that start no later than they end, whether the
    answer is valid does not depend on the order in which the periods
    are given, and two orders never return different flags.  (Whether
    OverflowError is raised can depend on the order: the sort keeps
    periods with one start date in the order given.) *)
Theorem contiguity_order_independent (periods reordered : list PSURPeriod.t) :
  periods ≡ₚ reordered →
  Forall well_formed periods →
  (fst <$> validate_period_contiguity periods = ok true
   ↔ fst <$> validate_period_contiguity reordered = ok true)
  ∧ (∀ valid issues valid' issues',
       validate_period_contiguity periods = ok (valid, issues) →
       validate_period_contiguity reordered = ok (valid', issues') →
       valid = valid').
Proof.
  intros Hp Hwf.
  assert (overlap_issues (sorted_by_start_date periods) = []
          ↔ overlap_issues (sorted_by_start_date reordered) = []) as Hov.
  { by rewrite <- !any_overlap_issues, (any_overlap_Permutation _ _ Hp). }
  assert (overlap_issues (sorted_by_start_date periods) = [] →
          sorted_by_start_date periods = sorted_by_start_date reordered)
    as Hsorted.
  { intros Hnil. apply sorted_by_start_date_order; [done..|].
    by apply any_overlap_issues. }
  split.
  - rewrite !validate_period_contiguity_valid. split.
    + intros [Ho Hg]. rewrite <- (Hsorted Ho). by split.
    + intros [Ho Hg]. pose proof (proj2 Hov Ho) as Ho'.
      rewrite (Hsorted Ho'). by split.
  - intros valid issues valid' issues' Hv Hv'.
    apply validate_period_contiguity_ok in Hv as (gaps & Hg & -> & ->).
    apply validate_period_contiguity_ok in Hv' as (gaps' & Hg' & -> & ->).
    destruct (overlap_issues (sorted_by_start_date periods)) as [|m ms]
      eqn:Ho.
    + rewrite <- (Hsorted eq_refl) in Hg' |- *. rewrite Ho.
      rewrite Hg in Hg'. by injection Hg' as <-.
    + destruct (overlap_issues (sorted_by_start_date reordered))
        as [|m' ms'] eqn:Ho'; [|done].
      discriminate (proj2 Hov eq_refl).
Qed.
End evaluator_properties.

(** Two periods that start on 9999-01-01, one ending on 9999-12-31: listed
    first it is the predecessor in the gap loop, whose sum overflows;
    listed second it is not. *)
Example overflow_order_scenario :
  validate_period_contiguity (H := iso_days)
    [PSURPeriod.mk "a" "PSUR-001" 3651695%Z 3652059%Z Jurisdiction.EU None;
     PSURPeriod.mk "b" "PSUR-002" 3651695%Z 3651701%Z Jurisdiction.EU None]
  = raise OverflowError
  ∧ ∃ issues,
      validate_period_contiguity (H := iso_days)
        [PSURPeriod.mk "b" "PSUR-002" 3651695%Z 3651701%Z Jurisdiction.EU None;
         PSURPeriod.mk "a" "PSUR-001" 3651695%Z 3652059%Z Jurisdiction.EU None]
      = ok (false, issues).
Proof. split; [|eexists]; vm_compute; reflexivity. Qed.

(** ** The further properties on the fixtures of the test suite *)

Lemma one_reason_per_failed_check_witness :
  length (AdjudicationResult.rejection_reasons
            (AdjudicationEngine.adjudicate
               (transformation_order := elements_order _)
               (evidence_type_order := elements_order _)
               (AdjudicationEngine.__init__ test_compiled_obligations
                  test_compiled_rules test_template test_mapping)
               extrapolating_proposal partial_evidence test_uuid4 0%Z))
  = 2.
Proof.
  refine (eq_trans (one_reason_per_failed_check
    (transformation_order := elements_order _)
    (evidence_type_order := elements_order _)
    (AdjudicationEngine.__init__ test_compiled_obligations
       test_compiled_rules test_template test_mapping)
    extrapolating_proposal partial_evidence test_uuid4 0%Z _) _).
  - apply (bool_decide_unpack _). vm_compute. exact I.
  - vm_compute. reflexivity.
Defined.

Lemma unmapped_slot_accepted_witness :
  AdjudicationResult.status
    (AdjudicationEngine.adjudicate
       (transformation_order := elements_order _)
       (evidence_type_order := elements_order _)
       (AdjudicationEngine.__init__ test_compiled_obligations
          test_compiled_rules test_template empty_mapping)
       extrapolating_proposal partial_evidence test_uuid4 0%Z)
  = AdjudicationStatus.ACCEPTED.
Proof.
  refine (proj1 (unmapped_slot_accepted
    (transformation_order := elements_order _)
    (evidence_type_order := elements_order _)
    (AdjudicationEngine.__init__ test_compiled_obligations
       test_compiled_rules test_template empty_mapping)
    extrapolating_proposal partial_evidence test_uuid4 0%Z _ _)).
  - apply (bool_decide_unpack _). vm_compute. exact I.
  - intros obligation_id H. vm_compute in H. by apply elem_of_nil in H.
Defined.

Lemma adjudicate_reads_four_fields_witness :
  AdjudicationEngine.adjudicate
    (transformation_order := elements_order _)
    (evidence_type_order := elements_order _)
    (AdjudicationEngine.__init__ accept_compiled_obligations
       test_compiled_rules test_template test_mapping)
    valid_proposal valid_evidence test_uuid4 0%Z
  = AdjudicationEngine.adjudicate
      (transformation_order := elements_order _)
      (evidence_type_order := elements_order _)
      (AdjudicationEngine.__init__ accept_compiled_obligations
         test_compiled_rules test_template test_mapping)
      summarizing_proposal valid_evidence test_uuid4 0%Z.
Proof.
  apply (adjudicate_reads_four_fields
    (transformation_order := elements_order _)
    (evidence_type_order := elements_order _)); reflexivity.
Defined.

Lemma acceptance_monotone_witness :
  AdjudicationResult.status
    (AdjudicationEngine.adjudicate
       (transformation_order := elements_order _)
       (evidence_type_order := elements_order _)
       (AdjudicationEngine.__init__ accept_compiled_obligations
          test_compiled_rules test_template test_mapping)
       quoting_proposal (<["complaint_atom" := complaint_atom]> valid_evidence)
       test_uuid4 1%Z)
  = AdjudicationStatus.ACCEPTED.
Proof.
  refine (acceptance_monotone
    (transformation_order := elements_order _)
    (evidence_type_order := elements_order _)
    (AdjudicationEngine.__init__ accept_compiled_obligations
       test_compiled_rules test_template test_mapping)
    valid_proposal quoting_proposal valid_evidence
    (<["complaint_atom" := complaint_atom]> valid_evidence)
    test_uuid4 0%Z test_uuid4 1%Z _ _ _ _ _).
  - reflexivity.
  - apply (bool_decide_unpack _). vm_compute. exact I.
  - apply insert_subseteq. vm_compute. reflexivity.
  - apply (bool_decide_unpack _). vm_compute. exact I.
  - vm_compute. reflexivity.
Defined.

Lemma qualified_slot_is_adjudicated_witness :
  "TEST.OBLIGATION"
    ∈ ObligationMapping.get_obligations_for_slot test_mapping "test_slot".
Proof.
  refine (proj1 (qualified_slot_is_adjudicated
    (transformation_order := elements_order _)
    (evidence_type_order := elements_order _)
    test_compiled_obligations test_compiled_rules test_template test_mapping
    (SlotMapping.mk "TEST.OBLIGATION" ["test_slot"] [])
    summarizing_proposal partial_evidence test_uuid4 0%Z _ _ _)).
  - vm_compute. reflexivity.
  - apply list_elem_of_here.
  - apply list_elem_of_here.
Defined.

Lemma narrative_fragments_trimmed_witness :
  let node :=
    TraceGenerator.make_node test_clock three_paragraphs
      accepted_adjudication "paragraph" 1 "B." in
  TraceNode.fragment_content node ≠ ""
  ∧ strip (TraceNode.fragment_content node) = TraceNode.fragment_content node
  ∧ TraceNode.fragment_type node = "paragraph".
Proof.
  intros node.
  apply (narrative_fragments_trimmed (repr_builtin := scalar_repr) test_clock
           three_paragraphs accepted_adjudication
           (imap (TraceGenerator.make_node test_clock three_paragraphs
                    accepted_adjudication "paragraph") ["A."; "B."; "C."])
           node).
  - vm_compute. reflexivity.
  - simpl. apply list_elem_of_further, list_elem_of_here.
Defined.

Lemma generated_trace_validates_witness :
  validate_trace_completeness table_proposal
    (imap (TraceGenerator.make_node test_clock table_proposal
             accepted_adjudication "cell") ["A1"; "B1"; "A2"; "B2"])
    SlotType.TABLE
  = inr true.
Proof.
  refine (generated_trace_validates (repr_builtin := scalar_repr) test_clock
    table_proposal accepted_adjudication SlotType.TABLE
    (imap (TraceGenerator.make_node test_clock table_proposal
             accepted_adjudication "cell") ["A1"; "B1"; "A2"; "B2"]) _).
  vm_compute. reflexivity.
Defined.

Lemma trace_ids_distinct_witness :
  NoDup ["test_adj-0"; "test_adj-1"; "test_adj-2"].
Proof.
  refine (trace_ids_distinct (repr_builtin := scalar_repr) test_clock
    kv_proposal accepted_adjudication SlotType.KV
    (imap (TraceGenerator.make_node test_clock kv_proposal
             accepted_adjudication "kv_pair")
       ["key1: value1"; "key2: value2"; "key3: value3"]) _).
  vm_compute. reflexivity.
Defined.

Lemma kv_shapes_agree_witness :
  payload_fragments (repr_builtin := scalar_repr) kv_list_proposal SlotType.KV
  = payload_fragments (repr_builtin := scalar_repr) kv_proposal SlotType.KV.
Proof.
  refine (proj1 (kv_shapes_agree (repr_builtin := scalar_repr)
    kv_proposal kv_list_proposal
    [("key1", PStr "value1"); ("key2", PStr "value2");
     ("key3", PStr "value3")] _ _)).
  - vm_compute. reflexivity.
  - vm_compute. reflexivity.
Defined.

Lemma missing_payload_key_witness :
  TraceGenerator.generate_trace (repr_builtin := scalar_repr) test_clock
    three_paragraphs accepted_adjudication SlotType.TABLE
  = inr [].
Proof.
  refine (proj1 (missing_payload_key (repr_builtin := scalar_repr) test_clock
    three_paragraphs accepted_adjudication SlotType.TABLE [] _ _)).
  - reflexivity.
  - apply (bool_decide_unpack _). vm_compute. exact I.
Defined.

Lemma narrative_text_not_a_string_witness :
  TraceGenerator.generate_trace (repr_builtin := scalar_repr) test_clock
    numeric_text_proposal accepted_adjudication SlotType.NARRATIVE
  = inl AttributeError.
Proof.
  refine (proj1 (narrative_text_not_a_string (repr_builtin := scalar_repr)
    test_clock numeric_text_proposal accepted_adjudication
    (TraceGenerator.make_node test_clock numeric_text_proposal
       accepted_adjudication "paragraph" 0 "5") [] _ _)).
  - reflexivity.
  - intros s. vm_compute. discriminate.
Defined.

Lemma accepted_proposal_is_traced_witness :
  ∃ slot,
    TemplateSchema.get_slot test_template "test_slot" = Some slot
    ∧ Slot.slot_type slot = SlotType.NARRATIVE.
Proof.
  destruct (accepted_proposal_is_traced
    (transformation_order := elements_order _)
    (evidence_type_order := elements_order _)
    (repr_builtin := scalar_repr)
    (AdjudicationEngine.__init__ accept_compiled_obligations
       test_compiled_rules test_template test_mapping)
    valid_proposal valid_evidence test_uuid4 0%Z test_clock)
    as (slot & Hslot & _).
  - vm_compute. reflexivity.
  - exists slot. split; [exact Hslot|].
    vm_compute in Hslot. injection Hslot as <-. reflexivity.
Defined.

Lemma empty_mapping_qualification_witness :
  QualificationReport.missing_mandatory_obligations
    (qualify_template test_compiled_obligations test_template empty_mapping)
  = ["TEST.OBLIGATION"].
Proof.
  refine (eq_trans (proj2 (empty_mapping_qualification
    test_compiled_obligations test_template empty_mapping _)) _).
  - reflexivity.
  - vm_compute. reflexivity.
Defined.

Lemma overlap_reported_both_ways_witness :
  ∃ issues,
    validate_period_contiguity (H := iso_days) [period_2023_long; period_2024]
    = ok (false, issues).
Proof.
  refine (proj2 (proj2 (overlap_reported_both_ways (date_format := iso_days)
    [period_2023_long; period_2024] 0 1 period_2023_long period_2024
    _ _ _ _)) _).
  - vm_compute. reflexivity.
  - vm_compute. reflexivity.
  - discriminate.
  - vm_compute. reflexivity.
  - repeat constructor; unfold next_day_exists, _MAXORDINAL; simpl; lia.
Defined.

Lemma evaluate_all_selects_witness :
  ∃ results failures,
    ConstraintEvaluator.evaluate_all
      (evaluator_of [contiguity_constraint; device_constraint; bare_constraint])
      "on_device_change" device_change (Some Jurisdiction.EU) = inr results
    ∧ (λ r, r.1.1) <$> results = [device_constraint]
    ∧ ConstraintEvaluator.get_blocking_failures
        (evaluator_of
           [contiguity_constraint; device_constraint; bare_constraint])
        "on_device_change" device_change (Some Jurisdiction.EU) = inr failures.
Proof.
  destruct (evaluate_all_selects
    (evaluator_of [contiguity_constraint; device_constraint; bare_constraint])
    "on_device_change" device_change (Some Jurisdiction.EU))
    as (results & failures & Hall & Hsel & _ & _ & Hfail & _).
  - repeat constructor; intros H;
      first [ vm_compute; reflexivity | vm_compute in H; discriminate H ].
  - repeat constructor; unfold next_day_exists, _MAXORDINAL; simpl; lia.
  - exists results, failures. split; [exact Hall|]. split; [|exact Hfail].
    rewrite Hsel. vm_compute. reflexivity.
Defined.

Lemma period_condition_is_contiguity_witness :
  ConstraintEvaluator.evaluate (evaluator_of [contiguity_constraint])
    contiguity_constraint two_years
  = ok (true, "Constraint passed").
Proof.
  refine (proj2 (proj1 (period_condition_is_contiguity
    (date_format := iso_days) (evaluator_of [contiguity_constraint])
    contiguity_constraint two_years _ _ _)) _); vm_compute; reflexivity.
Defined.

Lemma changed_without_quotes_witness :
  ConstraintEvaluator.get_blocking_failures
    (evaluator_of [unquoted_constraint; bare_constraint])
    "on_device_change" device_change None
  = raise IndexError.
Proof.
  refine (proj2 (proj2 (changed_without_quotes
    (evaluator_of [unquoted_constraint; bare_constraint])
    unquoted_constraint [bare_constraint] device_change _ _ _))).
  - vm_compute. reflexivity.
  - vm_compute. reflexivity.
  - reflexivity.
Defined.

Lemma keywordless_constraints_never_block_witness :
  ConstraintEvaluator.get_blocking_failures (evaluator_of [bare_constraint])
    "on_submit" device_change None
  = ok [].
Proof.
  refine (proj2 (keywordless_constraints_never_block
    (evaluator_of [bare_constraint]) "on_submit" device_change None _)).
  repeat constructor.
Defined.

Lemma contiguity_order_independent_witness :
  fst <$> validate_period_contiguity (H := iso_days)
            [period_2023; period_2024] = ok true
  ↔ fst <$> validate_period_contiguity (H := iso_days)
              [period_2024; period_2023] = ok true.
Proof.
  refine (proj1 (contiguity_order_independent (date_format := iso_days)
    [period_2023; period_2024] [period_2024; period_2023] _ _)).
  - apply perm_swap.
  - repeat constructor; unfold well_formed; simpl; lia.
Defined.
